(** * CameraRealSense2: pose / IMU buffering, interpolation and frame aggregation

    A shallow embedding of the synchronisation core of
    [corelib/src/camera/CameraRealSense2.cpp]:

    - the three [std::map<double, ...>] buffers filled by [imu_callback] and
      [pose_callback], each bounded to 1000 entries;
    - [getPoseAndIMU], which interpolates pose, accelerometer and gyroscope at
      an image stamp;
    - [captureImage], which waits for a frame set, derives its stamp, checks
      it against the host clock and assembles the [SensorData];
    - of [init], the selection of the devices, the sorting of their sensors
      and the selection of the stream profiles of each sensor, and
      [getSerial].

    Numbers: every [double] and [float] of the source is a rational ([Q]);
    comparisons are the exact ones ([Qcompare]), so rounding and NaN are
    outside the model.  Keys of a [std::map] are compared with [<] only, which
    on [Q] identifies keys up to [==].

    Threads: the consumer's calls are functions on a state; the producers'
    callbacks run where the consumer blocks, that is during [uSleep(1)] and
    [wait_for_frames], and between its calls.  Which frames arrive there is
    an input of the call, and so are the host clock and the outcomes of
    [wait_for_frames]. *)

From Stdlib Require Import QArith Qminmax Lqa ZArith List Bool Arith Lia.
From Stdlib Require String.
Import ListNotations.

Local Open Scope Q_scope.

(** ** Comparisons on stamps *)

Definition Qltb (a b : Q) : bool :=
  match a ?= b with Lt => true | _ => false end.

Definition Qleb (a b : Q) : bool :=
  match a ?= b with Gt => false | _ => true end.

Definition Qeqb (a b : Q) : bool :=
  match a ?= b with Eq => true | _ => false end.

(** ** [std::map<double, V>]

    An ordered map is the list of its entries in increasing key order.  An
    iterator is a position in that list: [begin()] is [0], [end()] is the
    size. *)

Module StdMap.

Section Ops.
Context {V : Type}.

Definition t := list (Q * V).

Definition iterator := nat.

Definition empty (m : t) : bool :=
  match m with [] => true | _ => false end.

Definition size (m : t) : nat := length m.

Definition begin (m : t) : iterator := 0%nat.

Definition end_ (m : t) : iterator := length m.

(** [*it]: the entry an iterator points to, none at [end()]. *)
Definition deref (m : t) (it : iterator) : option (Q * V) := nth_error m it.

(** [m.rbegin()]: the entry with the largest key. *)
Fixpoint rbegin (m : t) : option (Q * V) :=
  match m with
  | [] => None
  | [e] => Some e
  | _ :: m' => rbegin m'
  end.

(** [m.insert(hint, std::make_pair(k, v))]: the entry goes to its place in
    key order; when the key is already present the map is left as it is
    (the hint only affects the cost). *)
Fixpoint insert (k : Q) (v : V) (m : t) : t :=
  match m with
  | [] => [(k, v)]
  | (k', v') :: m' =>
      match k ?= k' with
      | Lt => (k, v) :: m
      | Eq => m
      | Gt => (k', v') :: insert k v m'
      end
  end.

(** [m.erase(m.begin())]. *)
Definition erase_begin (m : t) : t := tl m.

(** [m.lower_bound(k)]: first position whose key is not less than [k]. *)
Fixpoint lower_bound (k : Q) (m : t) : iterator :=
  match m with
  | [] => 0%nat
  | (k', _) :: m' => if Qltb k' k then S (lower_bound k m') else 0%nat
  end.

(** [m.upper_bound(k)]: first position whose key is greater than [k]. *)
Fixpoint upper_bound (k : Q) (m : t) : iterator :=
  match m with
  | [] => 0%nat
  | (k', _) :: m' => if Qltb k k' then 0%nat else S (upper_bound k m')
  end.

(** The representation invariant: keys strictly increase. *)
Fixpoint ascending (m : t) : bool :=
  match m with
  | [] => true
  | (k1, _) :: m' =>
      match m' with
      | [] => true
      | (k2, _) :: _ => Qltb k1 k2 && ascending m'
      end
  end.

(** [k] is the key of no entry (up to [==]). *)
Fixpoint fresh (k : Q) (m : list (Q * V)) : bool :=
  match m with
  | [] => true
  | (k', _) :: m' => negb (Qeqb k k') && fresh k m'
  end.

(** The stamps of a sequence of samples are pairwise different. *)
Fixpoint distinct (l : list (Q * V)) : bool :=
  match l with
  | [] => true
  | (k, _) :: l' => fresh k l' && distinct l'
  end.

End Ops.

Arguments t : clear implicits.

End StdMap.

(** ** The bounded buffers

    [imu_callback] and [pose_callback] end with the same three lines on their
    buffer: insert the sample, and when the size exceeds 1000 erase the first
    entry (lines 157-161, 165-169, 195-199). *)

Definition capacity : nat := 1000.

Definition insert_bounded {V : Type} (k : Q) (v : V) (buf : StdMap.t V) : StdMap.t V :=
  let buf := StdMap.insert k v buf in
  if (capacity <? StdMap.size buf)%nat then StdMap.erase_begin buf else buf.

(** A run of callbacks on one buffer, and the same samples inserted into an
    unbounded map (all of them, in key order). *)
Definition ingest {V : Type} (samples : list (Q * V)) (buf : StdMap.t V) : StdMap.t V :=
  fold_left (fun b s => insert_bounded (fst s) (snd s) b) samples buf.

Definition insert_all {V : Type} (samples : list (Q * V)) (m : StdMap.t V) : StdMap.t V :=
  fold_left (fun b s => StdMap.insert (fst s) (snd s) b) samples m.

(** Every key of [m] is above [k]. *)
Definition above {V : Type} (k : Q) (m : StdMap.t V) : Prop :=
  forall e, In e m -> k < fst e.

(** ** Frames and samples *)

Inductive rs2_stream :=
| RS2_STREAM_DEPTH
| RS2_STREAM_COLOR
| RS2_STREAM_INFRARED
| RS2_STREAM_FISHEYE
| RS2_STREAM_CONFIDENCE
| RS2_STREAM_GYRO
| RS2_STREAM_ACCEL
| RS2_STREAM_POSE.

Definition rs2_stream_eqb (a b : rs2_stream) : bool :=
  match a, b with
  | RS2_STREAM_DEPTH, RS2_STREAM_DEPTH
  | RS2_STREAM_COLOR, RS2_STREAM_COLOR
  | RS2_STREAM_INFRARED, RS2_STREAM_INFRARED
  | RS2_STREAM_FISHEYE, RS2_STREAM_FISHEYE
  | RS2_STREAM_CONFIDENCE, RS2_STREAM_CONFIDENCE
  | RS2_STREAM_GYRO, RS2_STREAM_GYRO
  | RS2_STREAM_ACCEL, RS2_STREAM_ACCEL
  | RS2_STREAM_POSE, RS2_STREAM_POSE => true
  | _, _ => false
  end.

(** [cv::Vec3f] and [cv::Vec3d]. *)
Definition Vec3 : Type := Q * Q * Q.

Definition vx (v : Vec3) : Q := fst (fst v).
Definition vy (v : Vec3) : Q := snd (fst v).
Definition vz (v : Vec3) : Q := snd v.

(** Equality of vectors as numbers, component by component. *)
Definition Vec3_eq (a b : Vec3) : Prop :=
  vx a == vx b /\ vy a == vy b /\ vz a == vz b.

(** [rs2_pose], the fields the callback reads. *)
Record rs2_pose := {
  translation : Vec3;
  rotation : Q * Q * Q * Q;   (* x, y, z, w *)
  tracker_confidence : nat
}.

(** What a frame carries, by kind of stream. *)
Inductive frame_data :=
| MotionData (reading : Vec3)
| PoseData (pose : rs2_pose)
| VideoData (image : nat).

Record frame := {
  stream_type : rs2_stream;
  get_timestamp : Q;
  get_data : frame_data
}.

Definition motion_frame (s : rs2_stream) (t : Q) (v : Vec3) : frame :=
  {| stream_type := s; get_timestamp := t; get_data := MotionData v |}.

Definition pose_frame (t : Q) (p : rs2_pose) : frame :=
  {| stream_type := RS2_STREAM_POSE; get_timestamp := t; get_data := PoseData p |}.

Definition video_frame (s : rs2_stream) (t : Q) (image : nat) : frame :=
  {| stream_type := s; get_timestamp := t; get_data := VideoData image |}.

(** [*reinterpret_cast<const cv::Vec3f*>(frame.get_data())] on a motion
    frame. *)
Definition crnt_reading (f : frame) : Vec3 :=
  match get_data f with
  | MotionData v => v
  | _ => (0, 0, 0)
  end.

(** [frame.as<rs2::pose_frame>().get_pose_data()]. *)
Definition get_pose_data (f : frame) : rs2_pose :=
  match get_data f with
  | PoseData p => p
  | _ => {| translation := (0, 0, 0); rotation := (0, 0, 0, 0); tracker_confidence := 0 |}
  end.

(** A frame set handed out by the syncer: a composite frame with a stamp of
    its own. *)
Record frameset := {
  fs_timestamp : Q;
  fs_frames : list frame
}.

(** ** What the source uses and does not define

    [rtabmap::Transform] with its seven-argument constructor and
    [interpolate], the default of [getPoseAndIMU]'s last argument, and the
    sequence counter behind [getNextSeqID] ([nextSeqID] is its next value,
    which the call returns) are declared outside this translation unit; they
    are parameters. *)

Class Externals (Transform : Type) := {
  Transform7 : Q -> Q -> Q -> Q -> Q -> Q -> Q -> Transform;
  Transform_interpolate : Transform -> Q -> Transform -> Transform;
  maxWaitTimeMs_default : Z;
  nextSeqID : nat -> nat
}.

(** [IMU]: gyroscope and accelerometer readings; the covariances (identity)
    and the local transform are constants of the call at line 460.  The
    default-constructed [IMU()], for which [empty()] holds, is [None]. *)
Record IMU_data := {
  angularVelocity : Vec3;
  linearAcceleration : Vec3
}.

Definition IMU : Type := option IMU_data.

(** Messages of [UWARN] and [UERROR], by format string. *)
Inductive Msg :=
| WarnAfterWaiting (s : rs2_stream)   (* "... after waiting %d ms (last is %f)..." *)
| WarnEarliest (s : rs2_stream)       (* "... (earliest is %f). Are sensors synchronized?" *)
| WarnBetween (s : rs2_stream)        (* "... (between %f and %f) ..." *)
| WarnRestamped (s : rs2_stream)      (* "As globalTimeSync option is off, ... only shown once." *)
| WarnClocksNotSync                   (* "Clocks are not sync with host computer! ..." *)
| ErrNotReceived                      (* "Not received depth and rgb" *)
| ErrMissingFrames (received : nat)   (* "Missing frames (received %d)" *)
| ErrFrameCallback                    (* "An error has occurred during frame callback: %s" *)
| ErrDualModeDisabled.                (* "Odometry is disabled but dual mode was enabled, ..." *)

(** [SensorData]: the images are named by the frames they are made from (the
    conversions are OpenCV's); the default-constructed record has none. *)
Record SensorData := {
  sd_image : option frame;
  sd_depthOrRight : option frame;
  sd_stereo : bool;             (* built with [stereoModel_] instead of [model_] *)
  sd_id : nat;
  sd_stamp : Q;
  sd_imu : IMU
}.

Definition SensorData_default : SensorData :=
  {| sd_image := None; sd_depthOrRight := None; sd_stereo := false;
     sd_id := 0; sd_stamp := 0; sd_imu := None |}.

Definition setIMU (imu : IMU) (d : SensorData) : SensorData :=
  {| sd_image := sd_image d; sd_depthOrRight := sd_depthOrRight d;
     sd_stereo := sd_stereo d; sd_id := sd_id d; sd_stamp := sd_stamp d;
     sd_imu := imu |}.

(** [IMUEvent] posted to the events manager. *)
Record IMUEvent := {
  ev_imu : IMU_data;
  ev_stamp : Q
}.

(** What a blocking call of the consumer thread sees: the callbacks the
    producer threads ran meanwhile, and for [wait_for_frames] the frame set
    it returns, or none when it throws. *)
Record WaitResult := {
  delivered : list frame;
  result : option frameset
}.

Section Camera.
Context {Transform : Type} `{Externals Transform}.

(** The members of [CameraRealSense2] the modelled functions touch;
    [seqID_] is the counter behind [getNextSeqID] of the base class. *)
Record Camera := {
  gyroBuffer_ : StdMap.t Vec3;
  accBuffer_ : StdMap.t Vec3;
  poseBuffer_ : StdMap.t (Transform * nat);
  lastImuStamp_ : Q;
  clockSyncWarningShown_ : bool;
  imuGlobalSyncWarningShown_ : bool;
  ir_ : bool;
  irDepth_ : bool;
  odometryProvided_ : bool;
  globalTimeSync_ : bool;
  publishInterIMU_ : bool;
  dualMode_ : bool;
  isL500_ : bool;
  seqID_ : nat
}.

(** The state after the constructor (lines 54-88). *)
Definition Camera_new : Camera :=
  {| gyroBuffer_ := []; accBuffer_ := []; poseBuffer_ := [];
     lastImuStamp_ := 0;
     clockSyncWarningShown_ := false; imuGlobalSyncWarningShown_ := false;
     ir_ := false; irDepth_ := true; odometryProvided_ := false;
     globalTimeSync_ := true; publishInterIMU_ := false; dualMode_ := false;
     isL500_ := false; seqID_ := 0 |}.

Definition set_gyroBuffer (b : StdMap.t Vec3) (c : Camera) : Camera :=
  {| gyroBuffer_ := b; accBuffer_ := accBuffer_ c; poseBuffer_ := poseBuffer_ c;
     lastImuStamp_ := lastImuStamp_ c;
     clockSyncWarningShown_ := clockSyncWarningShown_ c;
     imuGlobalSyncWarningShown_ := imuGlobalSyncWarningShown_ c;
     ir_ := ir_ c; irDepth_ := irDepth_ c; odometryProvided_ := odometryProvided_ c;
     globalTimeSync_ := globalTimeSync_ c; publishInterIMU_ := publishInterIMU_ c;
     dualMode_ := dualMode_ c; isL500_ := isL500_ c; seqID_ := seqID_ c |}.

Definition set_accBuffer (b : StdMap.t Vec3) (c : Camera) : Camera :=
  {| gyroBuffer_ := gyroBuffer_ c; accBuffer_ := b; poseBuffer_ := poseBuffer_ c;
     lastImuStamp_ := lastImuStamp_ c;
     clockSyncWarningShown_ := clockSyncWarningShown_ c;
     imuGlobalSyncWarningShown_ := imuGlobalSyncWarningShown_ c;
     ir_ := ir_ c; irDepth_ := irDepth_ c; odometryProvided_ := odometryProvided_ c;
     globalTimeSync_ := globalTimeSync_ c; publishInterIMU_ := publishInterIMU_ c;
     dualMode_ := dualMode_ c; isL500_ := isL500_ c; seqID_ := seqID_ c |}.

Definition set_poseBuffer (b : StdMap.t (Transform * nat)) (c : Camera) : Camera :=
  {| gyroBuffer_ := gyroBuffer_ c; accBuffer_ := accBuffer_ c; poseBuffer_ := b;
     lastImuStamp_ := lastImuStamp_ c;
     clockSyncWarningShown_ := clockSyncWarningShown_ c;
     imuGlobalSyncWarningShown_ := imuGlobalSyncWarningShown_ c;
     ir_ := ir_ c; irDepth_ := irDepth_ c; odometryProvided_ := odometryProvided_ c;
     globalTimeSync_ := globalTimeSync_ c; publishInterIMU_ := publishInterIMU_ c;
     dualMode_ := dualMode_ c; isL500_ := isL500_ c; seqID_ := seqID_ c |}.

Definition set_lastImuStamp (t : Q) (c : Camera) : Camera :=
  {| gyroBuffer_ := gyroBuffer_ c; accBuffer_ := accBuffer_ c;
     poseBuffer_ := poseBuffer_ c;
     lastImuStamp_ := t;
     clockSyncWarningShown_ := clockSyncWarningShown_ c;
     imuGlobalSyncWarningShown_ := imuGlobalSyncWarningShown_ c;
     ir_ := ir_ c; irDepth_ := irDepth_ c; odometryProvided_ := odometryProvided_ c;
     globalTimeSync_ := globalTimeSync_ c; publishInterIMU_ := publishInterIMU_ c;
     dualMode_ := dualMode_ c; isL500_ := isL500_ c; seqID_ := seqID_ c |}.

Definition set_clockSyncWarningShown (b : bool) (c : Camera) : Camera :=
  {| gyroBuffer_ := gyroBuffer_ c; accBuffer_ := accBuffer_ c;
     poseBuffer_ := poseBuffer_ c;
     lastImuStamp_ := lastImuStamp_ c;
     clockSyncWarningShown_ := b;
     imuGlobalSyncWarningShown_ := imuGlobalSyncWarningShown_ c;
     ir_ := ir_ c; irDepth_ := irDepth_ c; odometryProvided_ := odometryProvided_ c;
     globalTimeSync_ := globalTimeSync_ c; publishInterIMU_ := publishInterIMU_ c;
     dualMode_ := dualMode_ c; isL500_ := isL500_ c; seqID_ := seqID_ c |}.

Definition set_imuGlobalSyncWarningShown (b : bool) (c : Camera) : Camera :=
  {| gyroBuffer_ := gyroBuffer_ c; accBuffer_ := accBuffer_ c;
     poseBuffer_ := poseBuffer_ c;
     lastImuStamp_ := lastImuStamp_ c;
     clockSyncWarningShown_ := clockSyncWarningShown_ c;
     imuGlobalSyncWarningShown_ := b;
     ir_ := ir_ c; irDepth_ := irDepth_ c; odometryProvided_ := odometryProvided_ c;
     globalTimeSync_ := globalTimeSync_ c; publishInterIMU_ := publishInterIMU_ c;
     dualMode_ := dualMode_ c; isL500_ := isL500_ c; seqID_ := seqID_ c |}.

Definition set_seqID (n : nat) (c : Camera) : Camera :=
  {| gyroBuffer_ := gyroBuffer_ c; accBuffer_ := accBuffer_ c;
     poseBuffer_ := poseBuffer_ c;
     lastImuStamp_ := lastImuStamp_ c;
     clockSyncWarningShown_ := clockSyncWarningShown_ c;
     imuGlobalSyncWarningShown_ := imuGlobalSyncWarningShown_ c;
     ir_ := ir_ c; irDepth_ := irDepth_ c; odometryProvided_ := odometryProvided_ c;
     globalTimeSync_ := globalTimeSync_ c; publishInterIMU_ := publishInterIMU_ c;
     dualMode_ := dualMode_ c; isL500_ := isL500_ c; seqID_ := n |}.

(** The option setters (lines 1113-1181) and what [init] does to [isL500_]
    (lines 603, 651) write the configuration members. *)
Definition set_options (ir irDepth odom sync inter dual l500 : bool) (c : Camera) : Camera :=
  {| gyroBuffer_ := gyroBuffer_ c; accBuffer_ := accBuffer_ c;
     poseBuffer_ := poseBuffer_ c;
     lastImuStamp_ := lastImuStamp_ c;
     clockSyncWarningShown_ := clockSyncWarningShown_ c;
     imuGlobalSyncWarningShown_ := imuGlobalSyncWarningShown_ c;
     ir_ := ir; irDepth_ := irDepth; odometryProvided_ := odom;
     globalTimeSync_ := sync; publishInterIMU_ := inter;
     dualMode_ := dual; isL500_ := l500; seqID_ := seqID_ c |}.

Definition setIRFormat (enabled useDepthInsteadOfRightImage : bool) (c : Camera) : Camera :=
  set_options enabled useDepthInsteadOfRightImage (odometryProvided_ c)
    (globalTimeSync_ c) (publishInterIMU_ c) (dualMode_ c) (isL500_ c) c.

Definition setGlobalTimeSync (enabled : bool) (c : Camera) : Camera :=
  set_options (ir_ c) (irDepth_ c) (odometryProvided_ c)
    enabled (publishInterIMU_ c) (dualMode_ c) (isL500_ c) c.

Definition publishInterIMU (enabled : bool) (c : Camera) : Camera :=
  set_options (ir_ c) (irDepth_ c) (odometryProvided_ c)
    (globalTimeSync_ c) enabled (dualMode_ c) (isL500_ c) c.

(** [setDualMode] with extrinsics that pass its assertion. *)
Definition setDualMode (enabled : bool) (c : Camera) : Camera :=
  set_options (ir_ c) (irDepth_ c) (if enabled then true else odometryProvided_ c)
    (globalTimeSync_ c) (publishInterIMU_ c) enabled (isL500_ c) c.

(** What [setOdomProvided] does to the members; the call with its error
    message is [callSetOdomProvided]. *)
Definition setOdomProvided (enabled : bool) (c : Camera) : Camera :=
  set_options (ir_ c) (irDepth_ c) enabled
    (globalTimeSync_ c) (publishInterIMU_ c)
    (if dualMode_ c && negb enabled then false else dualMode_ c) (isL500_ c) c.

(** [init], as far as the members above go: both latches are cleared
    (lines 476-477) and, unless it returns before the sensors are listed,
    [isL500_] is set from the device found ([l500 = Some _]). *)
Definition init (l500 : option bool) (c : Camera) : Camera :=
  let c := set_clockSyncWarningShown false c in
  let c := set_imuGlobalSyncWarningShown false c in
  match l500 with
  | Some b =>
      set_options (ir_ c) (irDepth_ c) (odometryProvided_ c)
        (globalTimeSync_ c) (publishInterIMU_ c) (dualMode_ c) b c
  | None => c
  end.

(** ** The state the calls run in

    The camera, the log, the frames passed on to the syncer, the events
    posted, and the producers' schedule: [sleeps] lists, for each
    [uSleep(1)] to come, the frames whose callbacks are due during it (none
    once the list is used up).  [imuMutexHeld] tells that the calling thread
    still holds [imuMutex_] while it sleeps, as it does inside the loop of
    lines 1383-1414 (the mutex is taken to be recursive, or line 301 would
    never return there). *)
Record World := {
  cam : Camera;
  log : list Msg;
  syncer_ : list frame;
  events : list IMUEvent;
  sleeps : list (list frame);
  imuMutexHeld : bool
}.

Definition M (A : Type) : Type := World -> A * World.

Definition ret {A} (a : A) : M A := fun w => (a, w).

Definition bind {A B} (m : M A) (k : A -> M B) : M B :=
  fun w => let (a, w') := m w in k a w'.

Definition get_cam : M Camera := fun w => (cam w, w).

Definition modify_cam (f : Camera -> Camera) : M unit :=
  fun w => (tt, {| cam := f (cam w); log := log w; syncer_ := syncer_ w;
                   events := events w; sleeps := sleeps w;
                   imuMutexHeld := imuMutexHeld w |}).

Definition say (m : Msg) : M unit :=
  fun w => (tt, {| cam := cam w; log := log w ++ [m]; syncer_ := syncer_ w;
                   events := events w; sleeps := sleeps w;
                   imuMutexHeld := imuMutexHeld w |}).

Definition post (e : IMUEvent) : M unit :=
  fun w => (tt, {| cam := cam w; log := log w; syncer_ := syncer_ w;
                   events := events w ++ [e]; sleeps := sleeps w;
                   imuMutexHeld := imuMutexHeld w |}).

Definition when (b : bool) (m : M unit) : M unit := if b then m else ret tt.

End Camera.

Arguments Camera : clear implicits.
Arguments World : clear implicits.
Arguments M : clear implicits.

Declare Scope cam_scope.
Delimit Scope cam_scope with cam.
Notation "x <- m ;; k" := (bind m (fun x => k))
  (at level 61, m at next level, right associativity) : cam_scope.
Notation "m ;;; k" := (bind m (fun _ => k))
  (at level 61, right associativity) : cam_scope.

Local Open Scope cam_scope.

Section Functions.
Context {Transform : Type} `{Externals Transform}.

(** ** Ingest (lines 144-228) *)

Definition imu_callback (f : frame) (c : Camera Transform) : Camera Transform :=
  if rs2_stream_eqb (stream_type f) RS2_STREAM_GYRO
  then set_gyroBuffer
         (insert_bounded (get_timestamp f) (crnt_reading f) (gyroBuffer_ c)) c
  else set_accBuffer
         (insert_bounded (get_timestamp f) (crnt_reading f) (accBuffer_ c)) c.

Definition poseT (pose : rs2_pose) : Transform :=
  let '(tx, ty, tz) := translation pose in
  let '(rx, ry, rz, rw) := rotation pose in
  Transform7 (- tz) (- tx) ty (- rz) (- rx) ry rw.

Definition pose_callback (f : frame) (c : Camera Transform) : Camera Transform :=
  let pose := get_pose_data f in
  set_poseBuffer
    (insert_bounded (get_timestamp f) (poseT pose, tracker_confidence pose)
       (poseBuffer_ c)) c.

(** The frame is handed to the syncer, which is called with it. *)
Definition frame_callback (f : frame) : M Transform unit :=
  fun w => (tt, {| cam := cam w; log := log w; syncer_ := syncer_ w ++ [f];
                   events := events w; sleeps := sleeps w;
                   imuMutexHeld := imuMutexHeld w |}).

Definition multiple_message_callback (f : frame) : M Transform unit :=
  match stream_type f with
  | RS2_STREAM_GYRO | RS2_STREAM_ACCEL => modify_cam (imu_callback f)
  | RS2_STREAM_POSE =>
      c <- get_cam ;;
      if odometryProvided_ c then modify_cam (pose_callback f) else ret tt
  | _ => frame_callback f
  end.

Fixpoint run_callbacks (fs : list frame) : M Transform unit :=
  match fs with
  | [] => ret tt
  | f :: rest => multiple_message_callback f ;;; run_callbacks rest
  end.

Definition is_motion (f : frame) : bool :=
  match stream_type f with
  | RS2_STREAM_GYRO | RS2_STREAM_ACCEL => true
  | _ => false
  end.

(** [uSleep(1)] between an unlock and a lock: the callbacks due in this
    millisecond run, but for [imu_callback] where the calling thread keeps
    [imuMutex_], on which that callback blocks. *)
Definition uSleep : M Transform unit :=
  fun w =>
    match sleeps w with
    | [] => (tt, w)
    | batch :: rest =>
        run_callbacks
          (filter (fun f => negb (imuMutexHeld w && is_motion f)) batch)
          {| cam := cam w; log := log w; syncer_ := syncer_ w;
             events := events w; sleeps := rest;
             imuMutexHeld := imuMutexHeld w |}
    end.

(** ** [getPoseAndIMU] (lines 230-461) *)

(** [buf.rbegin()->first < stamp]; the buffer is not empty where the source
    evaluates it. *)
Definition behind {V} (buf : StdMap.t V) (stamp : Q) : bool :=
  match StdMap.rbegin buf with
  | Some (last, _) => Qltb last stamp
  | None => false
  end.

(** The wait loops (lines 249-256, 302-309, 383-390): [tries] is what is
    left of [maxWaitTimeMs] for [waitTry]. *)
Fixpoint wait_while (lagging : Camera Transform -> bool) (tries : nat) : M Transform unit :=
  match tries with
  | O => ret tt
  | S tries' =>
      c <- get_cam ;;
      if lagging c then uSleep ;;; wait_while lagging tries' else ret tt
  end.

(** The iterators [iterA] and [iterB] (lines 266-275, 321-330, 402-411). *)
Definition bracket {V} (buf : StdMap.t V) (stamp : Q)
  : StdMap.iterator * StdMap.iterator :=
  let iterB := StdMap.lower_bound stamp buf in
  let iterA := iterB in
  let iterA := if negb (iterA =? StdMap.begin buf)%nat then pred iterA else iterA in
  let iterB := if (iterB =? StdMap.end_ buf)%nat then pred iterB else iterB in
  (iterA, iterB).

(** The pose block after its wait (lines 257-295): the pose and its
    confidence, or none when [pose] stays null.  Both iterators point to an
    entry, the buffer being not empty ([bracket_valid]); the last case of the
    [match] only makes the function total. *)
Definition lookupPose (stamp : Q) (maxWaitTimeMs : Z)
  : M Transform (option (Transform * nat)) :=
  c <- get_cam ;;
  let buf := poseBuffer_ c in
  if behind buf stamp then
    when (0 <? maxWaitTimeMs)%Z (say (WarnAfterWaiting RS2_STREAM_POSE)) ;;;
    ret None
  else
    let '(iterA, iterB) := bracket buf stamp in
    match StdMap.deref buf iterA, StdMap.deref buf iterB with
    | Some (tA, (poseA, confA)), Some (tB, (poseB, _)) =>
        if (iterA =? iterB)%nat && Qeqb stamp tA then
          ret (Some (poseA, confA))
        else if Qleb tA stamp && Qleb stamp tB then
          ret (Some (Transform_interpolate poseA ((stamp - tA) / (tB - tA)) poseB,
                     confA))
        else if Qltb stamp tA then
          say (WarnEarliest RS2_STREAM_POSE) ;;; ret None
        else
          say (WarnBetween RS2_STREAM_POSE) ;;; ret None
    | _, _ => ret None
    end.

(** The pose block (lines 248-295). *)
Definition interpolatePose (stamp : Q) (maxWaitTimeMs : Z)
  : M Transform (option (Transform * nat)) :=
  wait_while (fun c => behind (poseBuffer_ c) stamp) (Z.to_nat maxWaitTimeMs) ;;;
  lookupPose stamp maxWaitTimeMs.

Definition imuBuffer (s : rs2_stream) (c : Camera Transform) : StdMap.t Vec3 :=
  if rs2_stream_eqb s RS2_STREAM_GYRO then gyroBuffer_ c else accBuffer_ c.

(** [a + t*(b - a)] on each component (lines 339-342, 420-423). *)
Definition lerp (t : Q) (a b : Vec3) : Vec3 :=
  (vx a + t * (vx b - vx a),
   vy a + t * (vy b - vy a),
   vz a + t * (vz b - vz a)).

(** The accelerometer block (lines 299-377, [s = RS2_STREAM_ACCEL]) and the
    gyroscope block (lines 380-458, [s = RS2_STREAM_GYRO]) differ in the
    buffer and in the wording of the messages.  This is the part after the
    wait: the vector found, or none where the source returns from the
    function.  As in the pose block, the iterators and [rbegin()] point to
    entries, and the cases without one only make the function total. *)
Definition lookupImu (s : rs2_stream) (stamp : Q) (maxWaitTimeMs : Z)
  : M Transform (option Vec3) :=
  c <- get_cam ;;
  let buf := imuBuffer s c in
  if behind buf stamp then
    when (0 <? maxWaitTimeMs)%Z (say (WarnAfterWaiting s)) ;;;
    ret None
  else
    let '(iterA, iterB) := bracket buf stamp in
    match StdMap.deref buf iterA, StdMap.deref buf iterB with
    | Some (tA, vA), Some (tB, vB) =>
        if (iterA =? iterB)%nat && Qeqb stamp tA then
          ret (Some vA)
        else if Qleb tA stamp && Qleb stamp tB then
          let t := (stamp - tA) / (tB - tA) in
          ret (Some (lerp t vA vB))
        else
          when (negb (imuGlobalSyncWarningShown_ c))
            (if Qltb stamp tA then say (WarnEarliest s) else say (WarnBetween s)) ;;;
          if negb (globalTimeSync_ c) then
            when (negb (imuGlobalSyncWarningShown_ c))
              (say (WarnRestamped s) ;;;
               modify_cam (set_imuGlobalSyncWarningShown true)) ;;;
            match StdMap.rbegin buf with
            | Some (_, vC) => ret (Some vC)
            | None => ret None
            end
          else
            ret None
    | _, _ => ret None
    end.

Definition interpolateImu (s : rs2_stream) (stamp : Q) (maxWaitTimeMs : Z)
  : M Transform (option Vec3) :=
  wait_while (fun c => behind (imuBuffer s c) stamp) (Z.to_nat maxWaitTimeMs) ;;;
  lookupImu s stamp maxWaitTimeMs.

Definition getPoseAndIMU (stamp : Q) (maxWaitTimeMs : Z)
  : M Transform (option Transform * nat * IMU) :=
  c <- get_cam ;;
  if StdMap.empty (accBuffer_ c) || StdMap.empty (gyroBuffer_ c) then
    ret (None, 0%nat, None)
  else
    found <- (if negb (StdMap.empty (poseBuffer_ c))
              then interpolatePose stamp maxWaitTimeMs
              else ret None) ;;
    let pose := option_map fst found in
    let poseConfidence := match found with Some (_, conf) => conf | None => 0%nat end in
    acc <- interpolateImu RS2_STREAM_ACCEL stamp maxWaitTimeMs ;;
    match acc with
    | None => ret (pose, poseConfidence, None)
    | Some acc =>
        gyro <- interpolateImu RS2_STREAM_GYRO stamp maxWaitTimeMs ;;
        match gyro with
        | None => ret (pose, poseConfidence, None)
        | Some gyro =>
            ret (pose, poseConfidence,
                 Some {| angularVelocity := gyro; linearAcceleration := acc |})
        end
    end.

(** ** [captureImage] (lines 1183-1432) *)

Definition set_imuMutexHeld (b : bool) : M Transform unit :=
  fun w => (tt, {| cam := cam w; log := log w; syncer_ := syncer_ w;
                   events := events w; sleeps := sleeps w;
                   imuMutexHeld := b |}).

Definition getNextSeqID : M Transform nat :=
  c <- get_cam ;;
  let id := nextSeqID (seqID_ c) in
  modify_cam (set_seqID id) ;;;
  ret id.

(** One [syncer_->wait_for_frames(...)]: the callbacks that ran while the
    consumer was blocked, then the frame set, or none when the call throws. *)
Definition wait_for_frames (r : WaitResult) : M Transform (option frameset) :=
  run_callbacks (delivered r) ;;; ret (result r).

(** The retry loop (lines 1194-1198).  [retries] holds the outcomes of the
    100 ms waits that fit before [timer.elapsed()] reaches 2.0: when it is
    used up the deadline has passed. *)
Fixpoint retry_frames (desiredFramesetSize : nat) (fs : frameset)
    (retries : list WaitResult) {struct retries} : M Transform (option frameset) :=
  if (length (fs_frames fs) =? desiredFramesetSize)%nat then ret (Some fs)
  else
    match retries with
    | [] => ret (Some fs)
    | r :: rest =>
        got <- wait_for_frames r ;;
        match got with
        | None => ret None
        | Some fs' => retry_frames desiredFramesetSize fs' rest
        end
    end.

(** The locals of the loop over the frame set (lines 1202-1265). *)
Record Arrived := {
  stamp : Q;
  is_rgb_arrived : bool;
  is_depth_arrived : bool;
  is_left_fisheye_arrived : bool;
  is_right_fisheye_arrived : bool;
  rgb_frame : option frame;
  depth_frame : option frame
}.

Definition Arrived_init (fs : frameset) : Arrived :=
  {| stamp := fs_timestamp fs;
     is_rgb_arrived := false; is_depth_arrived := false;
     is_left_fisheye_arrived := false; is_right_fisheye_arrived := false;
     rgb_frame := None; depth_frame := None |}.

(** One turn of the loop (lines 1211-1264). *)
Definition arrive (c : Camera Transform) (a : Arrived) (f : frame) : Arrived :=
  let stamp := if Qltb (get_timestamp f) (stamp a) then get_timestamp f else stamp a in
  let rgb := {| stamp := stamp;
                is_rgb_arrived := true; is_depth_arrived := is_depth_arrived a;
                is_left_fisheye_arrived := is_left_fisheye_arrived a;
                is_right_fisheye_arrived := is_right_fisheye_arrived a;
                rgb_frame := Some f; depth_frame := depth_frame a |} in
  let depth := {| stamp := stamp;
                  is_rgb_arrived := is_rgb_arrived a; is_depth_arrived := true;
                  is_left_fisheye_arrived := is_left_fisheye_arrived a;
                  is_right_fisheye_arrived := is_right_fisheye_arrived a;
                  rgb_frame := rgb_frame a; depth_frame := Some f |} in
  let none := {| stamp := stamp;
                 is_rgb_arrived := is_rgb_arrived a;
                 is_depth_arrived := is_depth_arrived a;
                 is_left_fisheye_arrived := is_left_fisheye_arrived a;
                 is_right_fisheye_arrived := is_right_fisheye_arrived a;
                 rgb_frame := rgb_frame a; depth_frame := depth_frame a |} in
  match stream_type f with
  | RS2_STREAM_COLOR | RS2_STREAM_INFRARED =>
      if isL500_ c then
        if rs2_stream_eqb (stream_type f) RS2_STREAM_COLOR then rgb else none
      else if ir_ c && negb (irDepth_ c) then
        if negb (is_depth_arrived a) then depth else rgb
      else rgb
  | RS2_STREAM_DEPTH => depth
  | RS2_STREAM_FISHEYE =>
      if negb (is_right_fisheye_arrived a) then
        {| stamp := stamp;
           is_rgb_arrived := is_rgb_arrived a; is_depth_arrived := is_depth_arrived a;
           is_left_fisheye_arrived := is_left_fisheye_arrived a;
           is_right_fisheye_arrived := true;
           rgb_frame := rgb_frame a; depth_frame := Some f |}
      else
        {| stamp := stamp;
           is_rgb_arrived := is_rgb_arrived a; is_depth_arrived := is_depth_arrived a;
           is_left_fisheye_arrived := true;
           is_right_fisheye_arrived := is_right_fisheye_arrived a;
           rgb_frame := Some f; depth_frame := depth_frame a |}
  | _ => none
  end.

Definition arrivals (c : Camera Transform) (fs : frameset) : Arrived :=
  fold_left (arrive c) (fs_frames fs) (Arrived_init fs).

(** The stamp of a frame set in the device's unit, as the loop leaves it
    (lines 1208-1215). *)
Definition frameset_stamp (fs : frameset) : Q :=
  fold_left (fun stamp f => if Qltb (get_timestamp f) stamp then get_timestamp f else stamp)
    (fs_frames fs) (fs_timestamp fs).

(** The check against the host clock (lines 1267-1281), on the stamp in
    seconds. *)
Definition clock_check (stamp now : Q) : M Transform Q :=
  if Qltb 1000000000 (stamp - now) then
    c <- get_cam ;;
    when (negb (clockSyncWarningShown_ c))
      (say WarnClocksNotSync ;;; modify_cam (set_clockSyncWarningShown true)) ;;;
    ret now
  else ret stamp.

(** Building the record (lines 1283-1357). *)
Definition assemble (a : Arrived) (stamp : Q) : M Transform SensorData :=
  c <- get_cam ;;
  if is_rgb_arrived a && is_depth_arrived a then
    id <- getNextSeqID ;;
    ret {| sd_image := rgb_frame a; sd_depthOrRight := depth_frame a;
           sd_stereo := ir_ c && negb (irDepth_ c);
           sd_id := id; sd_stamp := stamp; sd_imu := None |}
  else if is_left_fisheye_arrived a && is_right_fisheye_arrived a then
    id <- getNextSeqID ;;
    ret {| sd_image := rgb_frame a; sd_depthOrRight := depth_frame a;
           sd_stereo := true;
           sd_id := id; sd_stamp := stamp; sd_imu := None |}
  else
    say ErrNotReceived ;;; ret SensorData_default.

(** The loop of lines 1397-1411 over the stamps between the two iterators;
    the count of published events is only traced. *)
Fixpoint publish_loop (stamps : list Q) : M Transform unit :=
  match stamps with
  | [] => ret tt
  | t :: rest =>
      r <- getPoseAndIMU t maxWaitTimeMs_default ;;
      match snd r with
      | Some imuTmp =>
          post {| ev_imu := imuTmp; ev_stamp := t / 1000 |} ;;;
          publish_loop rest
      | None => ret tt
      end
  end.

(** Lines 1378-1417; [false] when the assertion of line 1382 throws. *)
Definition publish_inter_imu (imuStamp : Q) : M Transform bool :=
  c <- get_cam ;;
  if Qltb 0 (lastImuStamp_ c) then
    if Qltb (lastImuStamp_ c) imuStamp then
      set_imuMutexHeld true ;;;
      (let buf := gyroBuffer_ c in
       let iterA := StdMap.upper_bound (lastImuStamp_ c) buf in
       let iterB := StdMap.lower_bound imuStamp buf in
       let iterA := if negb (iterA =? StdMap.end_ buf)%nat then S iterA else iterA in
       let iterB := if negb (iterB =? StdMap.end_ buf)%nat then S iterB else iterB in
       when (negb (iterA =? iterB)%nat)
         (publish_loop (map fst (firstn (iterB - iterA) (skipn iterA buf))))) ;;;
      set_imuMutexHeld false ;;;
      modify_cam (set_lastImuStamp imuStamp) ;;;
      ret true
    else ret false
  else
    modify_cam (set_lastImuStamp imuStamp) ;;;
    ret true.

(** The rest of the [try] once the stamp is settled (lines 1283-1417). *)
Definition fuse (a : Arrived) (stamp : Q) : M Transform SensorData :=
  data <- assemble a stamp ;;
  let imuStamp := stamp * 1000 in
  r <- getPoseAndIMU imuStamp maxWaitTimeMs_default ;;
  let imu := snd r in
  c <- get_cam ;;
  if (match imu with Some _ => true | None => false end) && negb (publishInterIMU_ c) then
    ret (setIMU imu data)
  else if publishInterIMU_ c && negb (StdMap.empty (gyroBuffer_ c)) then
    ok <- publish_inter_imu imuStamp ;;
    when (negb ok) (say ErrFrameCallback) ;;;
    ret data
  else ret data.

(** The body of the [try] once a frame set of the desired size is there
    (lines 1201-1417). *)
Definition on_frameset (fs : frameset) (now : Q) : M Transform SensorData :=
  c <- get_cam ;;
  let a := arrivals c fs in
  stamp <- clock_check (stamp a / 1000) now ;;
  fuse a stamp.

(** [captureImage]: [first] is the outcome of the wait of line 1189,
    [retries] those of line 1197, [now] the reading of the host clock at
    line 1201.  The odometry written to [info] (lines 1365-1373) is left
    out. *)
Definition captureImage (first : WaitResult) (retries : list WaitResult) (now : Q)
  : M Transform SensorData :=
  got <- wait_for_frames first ;;
  match got with
  | None => say ErrFrameCallback ;;; ret SensorData_default
  | Some frameset =>
      c <- get_cam ;;
      let desiredFramesetSize := if isL500_ c && globalTimeSync_ c then 3%nat else 2%nat in
      got <- retry_frames desiredFramesetSize frameset retries ;;
      match got with
      | None => say ErrFrameCallback ;;; ret SensorData_default
      | Some frameset =>
          if (length (fs_frames frameset) =? desiredFramesetSize)%nat then
            on_frameset frameset now
          else
            say (ErrMissingFrames (length (fs_frames frameset))) ;;;
            ret SensorData_default
      end
  end.

(** ** Sessions

    What happens to a camera between two calls of [init]: the producer
    threads deliver frames, the consumer calls [captureImage] (the callbacks
    due during its sleeps come with the call), and options are set. *)
Inductive Op :=
| Callback (f : frame)
| Capture (first : WaitResult) (retries : list WaitResult) (now : Q)
    (schedule : list (list frame))
| SetIRFormat (enabled useDepthInsteadOfRightImage : bool)
| SetGlobalTimeSync (enabled : bool)
| PublishInterIMU (enabled : bool)
| SetDualMode (enabled : bool)
| SetOdomProvided (enabled : bool).

Definition set_sleeps (schedule : list (list frame)) : M Transform unit :=
  fun w => (tt, {| cam := cam w; log := log w; syncer_ := syncer_ w;
                   events := events w; sleeps := schedule;
                   imuMutexHeld := imuMutexHeld w |}).

(** A call of [setOdomProvided] (lines 1171-1181): giving up the odometry
    in dual mode is reported before the members are set. *)
Definition callSetOdomProvided (enabled : bool) : M Transform unit :=
  c <- get_cam ;;
  when (dualMode_ c && negb enabled) (say ErrDualModeDisabled) ;;;
  modify_cam (setOdomProvided enabled).

Definition run_op (op : Op) (w : World Transform) : World Transform :=
  match op with
  | Callback f => snd (multiple_message_callback f w)
  | Capture first retries now schedule =>
      snd ((set_sleeps schedule ;;; captureImage first retries now) w)
  | SetIRFormat e d => snd (modify_cam (setIRFormat e d) w)
  | SetGlobalTimeSync e => snd (modify_cam (setGlobalTimeSync e) w)
  | PublishInterIMU e => snd (modify_cam (publishInterIMU e) w)
  | SetDualMode e => snd (modify_cam (setDualMode e) w)
  | SetOdomProvided e => snd (callSetOdomProvided e w)
  end.

Definition run_session (ops : list Op) (w : World Transform) : World Transform :=
  fold_left (fun w op => run_op op w) ops w.

(** A session starts with [init] and an empty log. *)
Definition start_session (l500 : option bool) (c : Camera Transform) : World Transform :=
  {| cam := init l500 c; log := []; syncer_ := []; events := []; sleeps := [];
     imuMutexHeld := false |}.

(** How often a kind of message occurs in a log. *)
Definition count (kind : Msg -> bool) (l : list Msg) : nat := length (filter kind l).

Definition is_clock_warning (m : Msg) : bool :=
  match m with WarnClocksNotSync => true | _ => false end.

Definition is_restamp_warning (m : Msg) : bool :=
  match m with WarnRestamped _ => true | _ => false end.

(** The warnings of lines 350, 354, 431 and 435 ("Are sensors
    synchronized?" on the accelerometer and the gyroscope). *)
Definition is_desync_warning (m : Msg) : bool :=
  match m with
  | WarnEarliest s | WarnBetween s => negb (rs2_stream_eqb s RS2_STREAM_POSE)
  | _ => false
  end.

(** A step from [w] to [w'] under a latch: the latch is never cleared, at
    most one message of the kind is added, none when the latch was set
    already, and the latch is set once one has been added. *)
Definition once (latch : Camera Transform -> bool) (kind : Msg -> bool)
    (w w' : World Transform) : Prop :=
  (latch (cam w) = true -> latch (cam w') = true) /\
  exists msgs, log w' = log w ++ msgs /\
               (count kind msgs <= if latch (cam w) then 0 else 1)%nat /\
               (0 < count kind msgs -> latch (cam w') = true)%nat.

(** A step that keeps the latch and adds no message of the kind. *)
Definition adds_none (latch : Camera Transform -> bool) (kind : Msg -> bool)
    (w w' : World Transform) : Prop :=
  latch (cam w') = latch (cam w) /\
  exists msgs, log w' = log w ++ msgs /\ count kind msgs = 0%nat.

(** The same while [globalTimeSync_] is off. *)
Definition once_lenient (latch : Camera Transform -> bool) (kind : Msg -> bool)
    (w w' : World Transform) : Prop :=
  globalTimeSync_ (cam w) = false ->
  globalTimeSync_ (cam w') = false /\ once latch kind w w'.

(** A step under a latch that is set: the latch stays set and no message of
    the kind is added. *)
Definition stays_quiet (latch : Camera Transform -> bool) (kind : Msg -> bool)
    (w w' : World Transform) : Prop :=
  latch (cam w) = true ->
  latch (cam w') = true /\ count kind (log w') = count kind (log w).

(** A step that neither logs nor touches the latches or [globalTimeSync_]. *)
Definition silent (w w' : World Transform) : Prop :=
  log w' = log w /\
  clockSyncWarningShown_ (cam w') = clockSyncWarningShown_ (cam w) /\
  imuGlobalSyncWarningShown_ (cam w') = imuGlobalSyncWarningShown_ (cam w) /\
  globalTimeSync_ (cam w') = globalTimeSync_ (cam w).

(** Every run of [m] is a step of [R]. *)
Definition steps {A} (R : World Transform -> World Transform -> Prop)
    (m : M Transform A) : Prop :=
  forall w, R w (snd (m w)).

Definition enables_sync (op : Op) : bool :=
  match op with SetGlobalTimeSync true => true | _ => false end.

Definition disables_sync (op : Op) : bool :=
  match op with SetGlobalTimeSync false => true | _ => false end.

(** A step under [globalTimeSync_]: it stays on and the latch of the
    inertial warnings is left as it is. *)
Definition strict_keeps_latch (w w' : World Transform) : Prop :=
  globalTimeSync_ (cam w) = true ->
  globalTimeSync_ (cam w') = true /\
  imuGlobalSyncWarningShown_ (cam w') = imuGlobalSyncWarningShown_ (cam w).

(** ** Invariants of the state *)

(** No buffer holds more than 1000 entries. *)
Definition within_capacity (c : Camera Transform) : Prop :=
  (StdMap.size (gyroBuffer_ c) <= capacity)%nat /\
  (StdMap.size (accBuffer_ c) <= capacity)%nat /\
  (StdMap.size (poseBuffer_ c) <= capacity)%nat.

(** The keys of each buffer increase. *)
Definition buffers_ascending (c : Camera Transform) : bool :=
  StdMap.ascending (gyroBuffer_ c) && StdMap.ascending (accBuffer_ c)
  && StdMap.ascending (poseBuffer_ c).

(** [w'] differs from [w] at most in the buffers, the frames handed to the
    syncer and the schedule: what the producers' callbacks may change. *)
Definition producers_only (w w' : World Transform) : Prop :=
  log w' = log w /\ events w' = events w /\ imuMutexHeld w' = imuMutexHeld w /\
  lastImuStamp_ (cam w') = lastImuStamp_ (cam w) /\
  clockSyncWarningShown_ (cam w') = clockSyncWarningShown_ (cam w) /\
  imuGlobalSyncWarningShown_ (cam w') = imuGlobalSyncWarningShown_ (cam w) /\
  ir_ (cam w') = ir_ (cam w) /\ irDepth_ (cam w') = irDepth_ (cam w) /\
  odometryProvided_ (cam w') = odometryProvided_ (cam w) /\
  globalTimeSync_ (cam w') = globalTimeSync_ (cam w) /\
  publishInterIMU_ (cam w') = publishInterIMU_ (cam w) /\
  dualMode_ (cam w') = dualMode_ (cam w) /\
  isL500_ (cam w') = isL500_ (cam w) /\
  seqID_ (cam w') = seqID_ (cam w).

End Functions.

(** ** Inputs for evaluating the model *)

Module Sample.

(** Modelled from the spec: [rtabmap::Transform], its constructor from a
    translation and a quaternion, and [Transform::interpolate] are not under
    [src/].  The stand-in keeps the seven numbers and interpolates each of
    them linearly ("linearly interpolate each scalar component",
    [before + t * (after - before)]); the default wait is the "default 0 ms"
    of the configuration surface; sequence numbers count up. *)
Definition Pose7 : Type := Q * Q * Q * Q * Q * Q * Q.

Definition mix (t a b : Q) : Q := a + t * (b - a).

Definition interpolate7 (a : Pose7) (t : Q) (b : Pose7) : Pose7 :=
  let '(x, y, z, qx, qy, qz, qw) := a in
  let '(x', y', z', qx', qy', qz', qw') := b in
  (mix t x x', mix t y y', mix t z z',
   mix t qx qx', mix t qy qy', mix t qz qz', mix t qw qw').

#[global] Instance Pose7_externals : Externals Pose7 := {|
  Transform7 := fun x y z qx qy qz qw => (x, y, z, qx, qy, qz, qw);
  Transform_interpolate := interpolate7;
  maxWaitTimeMs_default := 0;
  nextSeqID := S
|}.

Definition camera (gyro acc : StdMap.t Vec3) (pose : StdMap.t (Pose7 * nat))
    (sync shown : bool) : Camera Pose7 :=
  set_imuGlobalSyncWarningShown shown
    (setGlobalTimeSync sync
       (set_poseBuffer pose (set_accBuffer acc (set_gyroBuffer gyro Camera_new)))).

Definition world (c : Camera Pose7) (schedule : list (list frame)) : World Pose7 :=
  {| cam := c; log := []; syncer_ := []; events := []; sleeps := schedule;
     imuMutexHeld := false |}.

(** The inertial timeline of the end-to-end scenario: samples at 100 and
    200. *)
Definition gyro2 : StdMap.t Vec3 := [(100, (0, 0, 1)); (200, (0, 0, 3))].
Definition acc2 : StdMap.t Vec3 := [(100, (1, 2, 3)); (200, (4, 5, 6))].

(** [n] samples stamped [0 .. n-1], latest first. *)
Definition ramp (n : nat) : list (Q * Vec3) :=
  map (fun i => (inject_Z (Z.of_nat i), (0, 0, inject_Z (Z.of_nat i)))) (rev (seq 0 n)).

Definition gyro_frames (samples : list (Q * Vec3)) : list frame :=
  map (fun s => motion_frame RS2_STREAM_GYRO (fst s) (snd s)) samples.

Definition acc_frames (samples : list (Q * Vec3)) : list frame :=
  map (fun s => motion_frame RS2_STREAM_ACCEL (fst s) (snd s)) samples.

(** [n] poses stamped [0 .. n-1], latest first, moving along x. *)
Definition pose_ramp (n : nat) : list (Q * rs2_pose) :=
  map (fun i => (inject_Z (Z.of_nat i),
                 {| translation := (inject_Z (Z.of_nat i), 0, 0);
                    rotation := (0, 0, 0, 1);
                    tracker_confidence := 3 |}))
    (rev (seq 0 n)).

Definition pose_frames (poses : list (Q * rs2_pose)) : list frame :=
  map (fun s => pose_frame (fst s) (snd s)) poses.

(** What [pose_callback] stores for a pose. *)
Definition stored_poses (poses : list (Q * rs2_pose)) : list (Q * (Pose7 * nat)) :=
  map (fun s => (fst s, (poseT (snd s), tracker_confidence (snd s)))) poses.

(** A camera that takes the odometry of the device. *)
Definition odometry_world : World Pose7 := world (setOdomProvided true Camera_new) [].

Definition identity7 : Pose7 := (0, 0, 0, 0, 0, 0, 1).
Definition pose2 : StdMap.t (Pose7 * nat) :=
  [(100, (identity7, 1%nat)); (200, ((1, 0, 0, 0, 0, 0, 1), 3%nat))].

(** The scenario with [globalTimeSync_] on and off, no callback scheduled. *)
Definition strict_world : World Pose7 := world (camera gyro2 acc2 pose2 true false) [].
Definition lenient_world : World Pose7 := world (camera gyro2 acc2 pose2 false false) [].

(** The same with a gyroscope sample at 300 arriving during the first
    millisecond of a wait. *)
Definition strict_world_late : World Pose7 :=
  world (camera gyro2 acc2 pose2 true false) [[motion_frame RS2_STREAM_GYRO 300 (0, 0, 5)]].

(** The frame set of the end-to-end scenario: color at 500, depth at 503. *)
Definition frameset2 : frameset :=
  {| fs_timestamp := 503;
     fs_frames := [video_frame RS2_STREAM_COLOR 500 1; video_frame RS2_STREAM_DEPTH 503 2] |}.

(** A frame set older than every inertial sample of the scenario. *)
Definition early_frameset : frameset :=
  {| fs_timestamp := 40;
     fs_frames := [video_frame RS2_STREAM_COLOR 40 1; video_frame RS2_STREAM_DEPTH 43 2] |}.

(** A frame set stamped 5000000000 s, far ahead of a host clock at 1 s. *)
Definition future_frameset : frameset :=
  {| fs_timestamp := 5000000000000;
     fs_frames := [video_frame RS2_STREAM_COLOR 5000000000000 1;
                   video_frame RS2_STREAM_DEPTH 5000000000003 2] |}.


Definition got (fs : frameset) : WaitResult := {| delivered := []; result := Some fs |}.

(** Two captures of the early frame set, the host clock at 1 s. *)
Definition two_early_captures : list Op :=
  [Capture (got early_frameset) [] 1 []; Capture (got early_frameset) [] 1 []].

(** The state after one capture of the early frame set in a session begun
    with [globalTimeSync_] off. *)
Definition after_lenient_capture : World Pose7 :=
  run_session [Capture (got early_frameset) [] 1 []]
    (start_session None (camera gyro2 acc2 [] false false)).

(** [globalTimeSync_] is turned on, then the early frame set is captured
    twice. *)
Definition sync_then_early_captures : list Op :=
  SetGlobalTimeSync true :: two_early_captures.

(** Two captures of the frame set from the future. *)
Definition two_future_captures : list Op :=
  [Capture (got future_frameset) [] 1 []; Capture (got future_frameset) [] 1 []].

(** Poses at hand, but no gyroscope sample yet. *)
Definition no_gyro_world : World Pose7 := world (camera [] acc2 pose2 true false) [].

End Sample.

(** ** More of the state: what the buffers and the options go through *)

(** [b'] comes from [b] by callbacks on that buffer: a run of bounded
    inserts. *)
Inductive fed {V : Type} (b : StdMap.t V) : StdMap.t V -> Prop :=
| fed_same : fed b b
| fed_insert b' k v : fed b b' -> fed b (insert_bounded k v b').

(** The first and the last stamp of a buffer. *)
Definition earliest {V : Type} (b : StdMap.t V) : option Q :=
  option_map fst (StdMap.deref b (StdMap.begin b)).

Definition latest {V : Type} (b : StdMap.t V) : option Q :=
  option_map fst (StdMap.rbegin b).

(** The buffer holds a sample at [t] or later: it is not empty and not
    behind [t]. *)
Definition reaches {V : Type} (b : StdMap.t V) (t : Q) : Prop :=
  StdMap.empty b = false /\ behind b t = false.

(** The stamp lies between the first and the last stamp of the buffer; the
    lower end counts only under [strict]. *)
Definition in_range {V : Type} (strict : bool) (b : StdMap.t V) (t : Q) : Prop :=
  exists t0 tn, earliest b = Some t0 /\ latest b = Some tn /\ t <= tn /\
                (strict = true -> t0 <= t).

(** The frames that [multiple_message_callback] hands to [frame_callback]. *)
Definition is_video (f : frame) : bool :=
  match stream_type f with
  | RS2_STREAM_GYRO | RS2_STREAM_ACCEL | RS2_STREAM_POSE => false
  | _ => true
  end.

Definition is_image_stream (f : frame) : bool :=
  match stream_type f with
  | RS2_STREAM_COLOR | RS2_STREAM_INFRARED => true
  | _ => false
  end.

Definition is_depth_stream (f : frame) : bool :=
  match stream_type f with RS2_STREAM_DEPTH => true | _ => false end.

Definition is_fisheye_stream (f : frame) : bool :=
  match stream_type f with RS2_STREAM_FISHEYE => true | _ => false end.

(** Stamps that increase. *)
Fixpoint increasing (l : list Q) : Prop :=
  match l with
  | [] => True
  | t :: rest => (forall t', In t' rest -> t < t') /\ increasing rest
  end.


(** The images of the locals of the loop come from the frames [seen]. *)
Definition carries (seen : list frame) (a : Arrived) : Prop :=
  (is_rgb_arrived a = true \/ is_left_fisheye_arrived a = true ->
   exists f, In f seen /\ rgb_frame a = Some f) /\
  (is_depth_arrived a = true \/ is_right_fisheye_arrived a = true ->
   exists g, In g seen /\ depth_frame a = Some g).

Section MoreState.
Context {Transform : Type} `{Externals Transform}.

Definition options (c : Camera Transform)
  : bool * bool * bool * bool * bool * bool * bool :=
  (ir_ c, irDepth_ c, odometryProvided_ c, globalTimeSync_ c,
   publishInterIMU_ c, dualMode_ c, isL500_ c).

(** Each buffer of [w'] comes from that of [w] by callbacks. *)
Definition grown (w w' : World Transform) : Prop :=
  fed (gyroBuffer_ (cam w)) (gyroBuffer_ (cam w')) /\
  fed (accBuffer_ (cam w)) (accBuffer_ (cam w')) /\
  fed (poseBuffer_ (cam w)) (poseBuffer_ (cam w')).

(** A step that leaves alone the buffers, the options, the sequence counter,
    [lastImuStamp_], the events posted and the frames handed to the syncer:
    it may log, set a latch, take or release the mutex and use up the
    schedule. *)
Definition housekeeping (w w' : World Transform) : Prop :=
  gyroBuffer_ (cam w') = gyroBuffer_ (cam w) /\
  accBuffer_ (cam w') = accBuffer_ (cam w) /\
  poseBuffer_ (cam w') = poseBuffer_ (cam w) /\
  options (cam w') = options (cam w) /\
  seqID_ (cam w') = seqID_ (cam w) /\
  lastImuStamp_ (cam w') = lastImuStamp_ (cam w) /\
  events w' = events w /\
  syncer_ w' = syncer_ w.

(** The options are those of [w]. *)
Definition same_options (w w' : World Transform) : Prop :=
  options (cam w') = options (cam w).

(** What the callbacks leave alone, whatever is logged meanwhile. *)
Definition undisturbed (w w' : World Transform) : Prop :=
  options (cam w') = options (cam w) /\
  seqID_ (cam w') = seqID_ (cam w) /\
  lastImuStamp_ (cam w') = lastImuStamp_ (cam w) /\
  events w' = events w.

(** The options and the sequence counter are those of [w]. *)
Definition keeps_ids (w w' : World Transform) : Prop :=
  options (cam w') = options (cam w) /\ seqID_ (cam w') = seqID_ (cam w).

(** No pose is stored as long as the odometry is not asked for. *)
Definition poses_gated (w w' : World Transform) : Prop :=
  odometryProvided_ (cam w) = false -> poseBuffer_ (cam w) = [] ->
  odometryProvided_ (cam w') = false /\ poseBuffer_ (cam w') = [].

Definition asks_odometry (op : Op) : bool :=
  match op with
  | SetOdomProvided true | SetDualMode true => true
  | _ => false
  end.

(** The dual mode goes with the odometry. *)
Definition dual_has_odometry (c : Camera Transform) : Prop :=
  dualMode_ c = true -> odometryProvided_ c = true.

Definition keeps_dual (w w' : World Transform) : Prop :=
  dual_has_odometry (cam w) -> dual_has_odometry (cam w').

(** The infrared images are asked for as a stereo pair on a D400 (the test
    of line 1227, reached when [isL500_] is off). *)
Definition stereo_ir (c : Camera Transform) : bool :=
  negb (isL500_ c) && ir_ c && negb (irDepth_ c).

(** The frames that the loop of lines 1209-1265 takes for the image outside
    that mode, and those it takes for the depth. *)
Definition takes_rgb (c : Camera Transform) (f : frame) : bool :=
  match stream_type f with
  | RS2_STREAM_COLOR => true
  | RS2_STREAM_INFRARED => negb (isL500_ c)
  | _ => false
  end.

(** The keys of each buffer increase and no buffer is over its capacity. *)
Definition well_kept (c : Camera Transform) : Prop :=
  buffers_ascending c = true /\ within_capacity c.

(** The stamps of the buffer a frame's callback writes to. *)
Definition stamps_of (f : frame) (c : Camera Transform) : list Q :=
  match stream_type f with
  | RS2_STREAM_POSE => map fst (poseBuffer_ c)
  | s => map fst (imuBuffer s c)
  end.

(** The stamp of the frame is already a key of its buffer. *)
Definition known_stamp (f : frame) (c : Camera Transform) : bool :=
  existsb (Qeqb (get_timestamp f)) (stamps_of f c).

(** The buffer of the frame is full and the frame is older than all of it. *)
Definition too_old (f : frame) (c : Camera Transform) : bool :=
  (length (stamps_of f c) =? capacity)%nat &&
  forallb (Qltb (get_timestamp f)) (stamps_of f c).

End MoreState.

(** ** [init]: the devices and the stream profiles

    [init] (lines 464-1075) first picks the devices among those connected
    (lines 471-531), then for each sensor the stream profiles to open (lines
    666-865).  Both are loops over what librealsense lists; the lists are
    inputs here. *)

Module Setup.
Import String.

(** A device of [ctx_->query_devices()]: its serial number, and the number
    that [ss >> pid] reads from its product id in hexadecimal. *)
Record device := {
  serial_number : string;
  pid : Z
}.

(** The errors [init] reports in this part before it returns [false]. *)
Inductive SetupError :=
| ErrNoDevices        (* No RealSense2 devices were found! *)
| ErrNoD400           (* Dual setup is enabled, but a D400 camera is not detected! *)
| ErrDeviceNotFound   (* The requested device ... is NOT found! *)
| ErrNoT265.          (* Dual setup is enabled, but a T265 camera is not detected! *)

(** [deviceId_.empty()]. *)
Definition empty (s : string) : bool :=
  match s with EmptyString => true | _ => false end.

Definition is_set {A} (p : option A) : bool :=
  match p with Some _ => true | None => false end.

(** One turn of the loop of lines 487-509 on [dev_[0]], [dev_[1]] and
    [found]. *)
Definition pick (dualMode_ : bool) (deviceId_ : string)
    (st : option device * option device * bool) (dev : device)
  : option device * option device * bool :=
  let '(dev0, dev1, found) := st in
  if dualMode_ && (pid dev =? 0x0B37)%Z then (dev0, Some dev, found)
  else if negb found && (empty deviceId_ || (deviceId_ =? serial_number dev)%string)
       then (Some dev, dev1, true)
       else (dev0, dev1, found).

(** Lines 471-531: what [dev_[0]] and [dev_[1]] hold afterwards, and the
    error reported when [init] returns [false] there. *)
Definition init_devices (dualMode_ : bool) (deviceId_ : string) (list : list device)
  : (option device * option device) * option SetupError :=
  match list with
  | [] => ((None, None), Some ErrNoDevices)
  | _ =>
      let '(dev0, dev1, found) :=
        fold_left (pick dualMode_ deviceId_) list (None, None, false) in
      if negb found then
        if dualMode_ && is_set dev1 then ((dev0, None), Some ErrNoD400)
        else ((dev0, dev1), Some ErrDeviceNotFound)
      else if dualMode_ && negb (is_set dev1) then ((None, dev1), Some ErrNoT265)
      else ((dev0, dev1), None)
  end.

(** [getSerial] (lines 1086-1095). *)
Definition NA : string := "NA".

Definition getSerial (dev_ : option device * option device) : string :=
  match fst dev_ with
  | Some d => serial_number d
  | None => NA
  end.

(** The device the loop takes for [dev_[0]], and the T265 of a dual setup. *)
Definition wanted (dualMode_ : bool) (deviceId_ : string) (dev : device) : bool :=
  negb (dualMode_ && (pid dev =? 0x0B37)%Z) &&
  (empty deviceId_ || (deviceId_ =? serial_number dev)%string).

Definition is_T265 (dev : device) : bool := (pid dev =? 0x0B37)%Z.

(** *** Stream profiles (lines 692-845) *)

Inductive rs2_format :=
| RS2_FORMAT_Z16
| RS2_FORMAT_RGB8
| RS2_FORMAT_Y8
| RS2_FORMAT_MOTION_XYZ32F
| RS2_FORMAT_6DOF
| RS2_FORMAT_OTHER.

Definition rs2_format_eqb (a b : rs2_format) : bool :=
  match a, b with
  | RS2_FORMAT_Z16, RS2_FORMAT_Z16
  | RS2_FORMAT_RGB8, RS2_FORMAT_RGB8
  | RS2_FORMAT_Y8, RS2_FORMAT_Y8
  | RS2_FORMAT_MOTION_XYZ32F, RS2_FORMAT_MOTION_XYZ32F
  | RS2_FORMAT_6DOF, RS2_FORMAT_6DOF
  | RS2_FORMAT_OTHER, RS2_FORMAT_OTHER => true
  | _, _ => false
  end.

(** What the loop reads of a [rs2::stream_profile]. *)
Record stream_profile := {
  format : rs2_format;
  width : Z;
  height : Z;
  fps : Z;
  stream_index : Z;
  stream_type : rs2_stream
}.

(** The members and the local [stereo] that the loop reads. *)
Record Settings := {
  ir_ : bool;
  irDepth_ : bool;
  dualMode_ : bool;
  isL500_ : bool;
  cameraWidth_ : Z;
  cameraHeight_ : Z;
  cameraFps_ : Z;
  stereo : bool
}.

(** What the loop writes: [profilesPerSensor[i]], the two profiles kept for
    the extrinsics, and [added]. *)
Record Selection := {
  profiles : list stream_profile;
  rgbStreamProfile : option stream_profile;
  depthStreamProfile : option stream_profile;
  added : bool
}.

Definition Selection_init (rgb depth : option stream_profile) : Selection :=
  {| profiles := []; rgbStreamProfile := rgb; depthStreamProfile := depth;
     added := false |}.

(** How a turn of the loop ends: at its end, by [break], or by the
    exception of [UASSERT]. *)
Inductive Flow := Next | Break | Throw.

Definition is_motion_format (p : stream_profile) : bool :=
  rs2_format_eqb (format p) RS2_FORMAT_MOTION_XYZ32F ||
  rs2_format_eqb (format p) RS2_FORMAT_6DOF.

(** The loop over [j] of lines 784-801: an accelerometer profile takes the
    place of a slower one, a gyroscope profile that of a faster one;
    [modified] tells that a profile of the same stream was there. *)
Definition replace_motion (profile q : stream_profile) : stream_profile :=
  if rs2_stream_eqb (stream_type q) (stream_type profile) then
    if rs2_stream_eqb (stream_type profile) RS2_STREAM_ACCEL then
      if (fps q <? fps profile)%Z then profile else q
    else if rs2_stream_eqb (stream_type profile) RS2_STREAM_GYRO then
      if (fps profile <? fps q)%Z then profile else q
    else q
  else q.

Definition modified (profile : stream_profile) (ps : list stream_profile) : bool :=
  existsb (fun q => rs2_stream_eqb (stream_type q) (stream_type profile) &&
                    (rs2_stream_eqb (stream_type profile) RS2_STREAM_ACCEL ||
                     rs2_stream_eqb (stream_type profile) RS2_STREAM_GYRO)) ps.

(** [v.front() = x] on a vector that is not empty. *)
Definition set_front {A} (x : A) (v : list A) : list A :=
  match v with
  | [] => []
  | _ :: rest => x :: rest
  end.

Definition push (p : stream_profile) (sel : Selection) : list stream_profile :=
  profiles sel ++ [p].

(** The two tests of lines 734-735 and 758-759. *)
Definition is_rgb_or_ir_left (s : Settings) (p : stream_profile) : bool :=
  (negb (ir_ s) && rs2_format_eqb (format p) RS2_FORMAT_RGB8
   && rs2_stream_eqb (stream_type p) RS2_STREAM_COLOR)
  || (ir_ s && rs2_format_eqb (format p) RS2_FORMAT_Y8 && (stream_index p =? 1)%Z).

Definition is_depth_or_ir_right (s : Settings) (p : stream_profile) : bool :=
  ((negb (ir_ s) || irDepth_ s) && rs2_format_eqb (format p) RS2_FORMAT_Z16)
  || (ir_ s && negb (irDepth_ s) && rs2_format_eqb (format p) RS2_FORMAT_Y8
      && (stream_index p =? 2)%Z).

(** One turn of the loop over the profiles of sensor [i] (lines 693-845,
    without [++pi]); the buffers, the intrinsics and [model_] set along
    with [rgbStreamProfile] and [depthStreamProfile] are left out. *)
Definition select_profile (s : Settings) (i pi : nat) (sel : Selection)
    (profile : stream_profile) : Selection * Flow :=
  if negb (stereo s) then
    if isL500_ s && ((width profile =? 640)%Z && (height profile =? 480)%Z
                     && (fps profile =? 30)%Z) then
      if (i =? 0)%nat && rs2_format_eqb (format profile) RS2_FORMAT_RGB8
         && rs2_stream_eqb (stream_type profile) RS2_STREAM_COLOR then
        ({| profiles := push profile sel; rgbStreamProfile := Some profile;
            depthStreamProfile := depthStreamProfile sel; added := true |}, Next)
      else if (i =? 1)%nat && rs2_format_eqb (format profile) RS2_FORMAT_Z16
              && rs2_stream_eqb (stream_type profile) RS2_STREAM_DEPTH then
        ({| profiles := push profile sel; rgbStreamProfile := rgbStreamProfile sel;
            depthStreamProfile := Some profile; added := true |}, Next)
      else (sel, Next)
    else if negb (isL500_ s) && ((width profile =? cameraWidth_ s)%Z
                                 && (height profile =? cameraHeight_ s)%Z
                                 && (fps profile =? cameraFps_ s)%Z) then
      if is_rgb_or_ir_left s profile then
        let ps :=
          match profiles sel with
          | [] => push profile sel
          | _ => set_front profile (profiles sel ++ [last (profiles sel) profile])
          end in
        let sel' := {| profiles := ps; rgbStreamProfile := Some profile;
                       depthStreamProfile := depthStreamProfile sel; added := true |} in
        if rs2_format_eqb (format profile) RS2_FORMAT_RGB8 || (List.length ps =? 2)%nat
        then (sel', Break) else (sel', Next)
      else if is_depth_or_ir_right s profile then
        let ps := push profile sel in
        let sel' := {| profiles := ps; rgbStreamProfile := rgbStreamProfile sel;
                       depthStreamProfile := Some profile; added := true |} in
        if negb (ir_ s) || irDepth_ s || (List.length ps =? 2)%nat
        then (sel', Break) else (sel', Next)
      else (sel, Next)
    else if is_motion_format profile then
      let ps := map (replace_motion profile) (profiles sel) in
      let ps := if negb (modified profile (profiles sel)) then ps ++ [profile] else ps in
      ({| profiles := ps; rgbStreamProfile := rgbStreamProfile sel;
          depthStreamProfile := depthStreamProfile sel; added := true |}, Next)
    else (sel, Next)
  else if stereo s || dualMode_ s then
    if negb (dualMode_ s) && rs2_format_eqb (format profile) RS2_FORMAT_Y8
       && (width profile =? 848)%Z && (height profile =? 800)%Z
       && (fps profile =? 30)%Z then
      if (i <? 2)%nat then
        if (pi =? 0)%nat then
          ({| profiles := push profile sel; rgbStreamProfile := Some profile;
              depthStreamProfile := depthStreamProfile sel; added := true |}, Next)
        else
          ({| profiles := push profile sel; rgbStreamProfile := rgbStreamProfile sel;
              depthStreamProfile := Some profile; added := true |}, Next)
      else (sel, Throw)
    else if is_motion_format profile then
      ({| profiles := push profile sel; rgbStreamProfile := rgbStreamProfile sel;
          depthStreamProfile := depthStreamProfile sel; added := true |}, Next)
    else (sel, Next)
  else (sel, Next).

(** The loop of lines 693-845 from [pi] on: the selection, and whether the
    assertion of line 816 threw. *)
Fixpoint select_profiles (s : Settings) (i pi : nat) (sel : Selection)
    (listed : list stream_profile) : Selection * bool :=
  match listed with
  | [] => (sel, false)
  | profile :: rest =>
      match select_profile s i pi sel profile with
      | (sel', Next) => select_profiles s i (S pi) sel' rest
      | (sel', Break) => (sel', false)
      | (sel', Throw) => (sel', true)
      end
  end.

(** The profiles chosen for sensor [i] among those it lists (lines
    667-864): none for the colour sensor when the infrared images are asked
    for, an error when nothing fits. *)
Inductive Chosen :=
| Skipped
| Opened (sel : Selection)
| NotSupported
| Thrown.

Definition sensor_profiles (s : Settings) (i : nat) (rgb depth : option stream_profile)
    (listed : list stream_profile) : Chosen :=
  if (i =? 0)%nat && ir_ s && negb (stereo s) then Skipped
  else
    match select_profiles s i 0 (Selection_init rgb depth) listed with
    | (_, true) => Thrown
    | (sel, false) => if added sel then Opened sel else NotSupported
    end.

(** The test of lines 727-729 on a profile, and the two tests on the
    resolution and the rate together (lines 698-701, 726-729). *)
Definition fits (s : Settings) (p : stream_profile) : bool :=
  (width p =? cameraWidth_ s)%Z && (height p =? cameraHeight_ s)%Z
  && (fps p =? cameraFps_ s)%Z.

Definition video_test (s : Settings) (p : stream_profile) : bool :=
  (isL500_ s && ((width p =? 640)%Z && (height p =? 480)%Z && (fps p =? 30)%Z))
  || (negb (isL500_ s) && fits s p).

(** A profile of stream [k]. *)
Definition of_stream (k : rs2_stream) (p : stream_profile) : bool :=
  rs2_stream_eqb (stream_type p) k.

(** The turn on a motion profile that fails the tests on the resolution
    (lines 772-805). *)
Definition motion_step (sel : Selection) (p : stream_profile) : Selection :=
  {| profiles :=
       if negb (modified p (profiles sel))
       then map (replace_motion p) (profiles sel) ++ [p]
       else map (replace_motion p) (profiles sel);
     rgbStreamProfile := rgbStreamProfile sel;
     depthStreamProfile := depthStreamProfile sel;
     added := true |}.

(** The rate of [q] is as good as that of [p] for stream [k]: not lower for
    the accelerometer, not higher otherwise. *)
Definition at_least (k : rs2_stream) (q p : stream_profile) : Prop :=
  if rs2_stream_eqb k RS2_STREAM_ACCEL then (fps p <= fps q)%Z else (fps q <= fps p)%Z.

(** The test of lines 811-814 on a profile of the T265, and the profiles
    that its branch opens. *)
Definition is_fisheye (p : stream_profile) : bool :=
  rs2_format_eqb (format p) RS2_FORMAT_Y8 && (width p =? 848)%Z
  && (height p =? 800)%Z && (fps p =? 30)%Z.

Definition opened_on_T265 (p : stream_profile) : bool :=
  is_fisheye p || is_motion_format p.

(** An image profile that the D400 branch takes. *)
Definition taken (s : Settings) (p : stream_profile) : bool :=
  fits s p && (is_rgb_or_ir_left s p || is_depth_or_ir_right s p).

End Setup.

(** ** [init]: the sensors (lines 601-659)

    The loop over the sensors of the devices sorts them by module name into
    the vector [sensors], which starts with two entries and is resized on
    the way; [sensors[i] = elem] on a vector with no entry [i] is undefined
    in C++ and ends the run here. *)

Module Modules.
Import String.

(** A sensor of [query_sensors()]: its [RS2_CAMERA_INFO_NAME], and which
    sensor it is. *)
Record sensor := {
  module_name : string;
  handle : nat
}.

(** The locals [sensors] and [stereo], and the member [isL500_]; an entry of
    [sensors] that was never assigned is [None]. *)
Record Sensors := {
  sensors : list (option sensor);
  stereo : bool;
  isL500_ : bool
}.

(** The state before the loop (lines 601-603). *)
Definition Sensors_init : Sensors :=
  {| sensors := [None; None]; stereo := false; isL500_ := false |}.

(** How the loop ends: at its end, with the error of lines 655-656 and
    [return false], or with a write outside [sensors]. *)
Inductive Outcome :=
| Listed (s : Sensors)
| Unsupported (name : string)
| OutOfRange.

(** [v.resize(n)]. *)
Definition resize {A} (n : nat) (v : list (option A)) : list (option A) :=
  firstn n v ++ repeat None (n - List.length v).

(** [v[i] = x]. *)
Definition store {A} (i : nat) (x : A) (v : list (option A)) : option (list (option A)) :=
  if (i <? List.length v)%nat then Some (firstn i v ++ Some x :: skipn (S i) v) else None.

(** [v.back() = x]. *)
Definition store_back {A} (x : A) (v : list (option A)) : option (list (option A)) :=
  store (pred (List.length v)) x v.

Definition with_sensors (s : Sensors) (stereo' l500 : bool)
    (v : option (list (option sensor))) : Outcome :=
  match v with
  | Some v => Listed {| sensors := v; stereo := stereo'; isL500_ := l500 |}
  | None => OutOfRange
  end.

(** One turn of the loop (lines 606-658); the options set on the sensors
    are left out. *)
Definition classify (ir_ dualMode_ : bool) (s : Sensors) (elem : sensor) : Outcome :=
  let name := module_name elem in
  if ("Stereo Module" =? name)%string then
    with_sensors s (stereo s) (isL500_ s) (store 1 elem (sensors s))
  else if ("Coded-Light Depth Sensor" =? name)%string then Listed s
  else if ("RGB Camera" =? name)%string then
    if negb ir_ then with_sensors s (stereo s) (isL500_ s) (store 0 elem (sensors s))
    else Listed s
  else if ("Wide FOV Camera" =? name)%string then Listed s
  else if ("Motion Module" =? name)%string then
    if negb dualMode_
    then with_sensors s (stereo s) (isL500_ s) (store 2 elem (resize 3 (sensors s)))
    else Listed s
  else if ("Tracking Module" =? name)%string then
    if dualMode_
    then with_sensors s (stereo s) (isL500_ s) (store_back elem (resize 3 (sensors s)))
    else with_sensors s true (isL500_ s) (store_back elem (resize 1 (sensors s)))
  else if ("L500 Depth Sensor" =? name)%string then
    with_sensors s (stereo s) true (store 1 elem (sensors s))
  else Unsupported name.

(** The loop of lines 604-659. *)
Fixpoint classify_all (ir_ dualMode_ : bool) (s : Sensors) (dev_sensors : list sensor)
  : Outcome :=
  match dev_sensors with
  | [] => Listed s
  | elem :: rest =>
      match classify ir_ dualMode_ s elem with
      | Listed s' => classify_all ir_ dualMode_ s' rest
      | o => o
      end
  end.

Definition is_tracking (elem : sensor) : bool :=
  ("Tracking Module" =? module_name elem)%string.

(** The sensors of a D435i followed by those of a T265. *)
Definition dual_listing : list sensor :=
  [{| module_name := "Stereo Module"; handle := 0 |};
   {| module_name := "RGB Camera"; handle := 1 |};
   {| module_name := "Motion Module"; handle := 2 |};
   {| module_name := "Tracking Module"; handle := 3 |}].

(** A listing with a tracking module before a stereo module. *)
Definition odd_listing : list sensor :=
  [{| module_name := "Tracking Module"; handle := 0 |};
   {| module_name := "Stereo Module"; handle := 1 |}].

End Modules.

(** ** More inputs for evaluating the model *)

Module Cases.
Import String.

(** A gyroscope frame with the stamp of a stored sample, and a new one. *)
Definition duplicate_gyro : frame := motion_frame RS2_STREAM_GYRO 100 (9, 9, 9).
Definition new_gyro : frame := motion_frame RS2_STREAM_GYRO 150 (0, 0, 2).

(** A gyroscope frame older than the samples of the scenario. *)
Definition old_gyro : frame := motion_frame RS2_STREAM_GYRO 50 (0, 0, 7).

Definition a_pose : rs2_pose :=
  {| translation := (1, 2, 3); rotation := (0, 0, 0, 1); tracker_confidence := 2 |}.

(** A session with callbacks of each kind, a capture during which a
    gyroscope sample arrives, and setters that leave the odometry off. *)
Definition quiet_session : list Op :=
  [Callback (pose_frame 300 a_pose); Callback new_gyro;
   Callback (motion_frame RS2_STREAM_ACCEL 150 (2, 3, 4));
   SetIRFormat true false;
   Capture (Sample.got Sample.frameset2) [] 1 [[motion_frame RS2_STREAM_GYRO 300 (0, 0, 5)]];
   SetOdomProvided false; SetDualMode false].

(** A session that switches the dual mode and the odometry on and off. *)
Definition dual_session : list Op :=
  [SetDualMode true; Callback (pose_frame 300 a_pose); SetOdomProvided false;
   SetDualMode true; SetGlobalTimeSync false;
   Capture (Sample.got Sample.frameset2) [] 1 []].

(** The scenario with [publishInterIMU_] on and [lastImuStamp_] at
    [last]. *)
Definition inter_world (last : Q) : World Sample.Pose7 :=
  Sample.world
    (set_lastImuStamp last
       (publishInterIMU true (Sample.camera Sample.gyro2 Sample.acc2 Sample.pose2 true false)))
    [].

(** Frames of all kinds, as the producers may deliver them. *)
Definition mixed_frames : list frame :=
  [video_frame RS2_STREAM_COLOR 500 1; new_gyro; pose_frame 300 a_pose;
   video_frame RS2_STREAM_DEPTH 503 2].

(** The camera with the infrared pair asked for, and a frame set of two
    infrared frames. *)
Definition stereo_camera : Camera Sample.Pose7 :=
  setIRFormat true false (Sample.camera Sample.gyro2 Sample.acc2 Sample.pose2 true false).

Definition infrared_frameset : frameset :=
  {| fs_timestamp := 500;
     fs_frames := [video_frame RS2_STREAM_INFRARED 500 1;
                   video_frame RS2_STREAM_INFRARED 500 2] |}.

(** The frame set of the scenario with the depth frame first. *)
Definition depth_first_frameset : frameset :=
  {| fs_timestamp := 503;
     fs_frames := [video_frame RS2_STREAM_DEPTH 503 2; video_frame RS2_STREAM_COLOR 500 1] |}.

(** A D435i and two T265. *)
Definition d435 : Setup.device := {| Setup.serial_number := "123"; Setup.pid := 0x0B3A |}.
Definition t265 : Setup.device := {| Setup.serial_number := "905"; Setup.pid := 0x0B37 |}.
Definition t265b : Setup.device := {| Setup.serial_number := "906"; Setup.pid := 0x0B37 |}.

Definition profile (f : Setup.rs2_format) (w h rate index : Z) (k : rs2_stream)
  : Setup.stream_profile :=
  {| Setup.format := f; Setup.width := w; Setup.height := h; Setup.fps := rate;
     Setup.stream_index := index; Setup.stream_type := k |}.

(** The motion profiles of a D435i, as the comment of lines 774-778 lists
    them. *)
Definition gyro200 := profile Setup.RS2_FORMAT_MOTION_XYZ32F 0 0 200 0 RS2_STREAM_GYRO.
Definition gyro400 := profile Setup.RS2_FORMAT_MOTION_XYZ32F 0 0 400 0 RS2_STREAM_GYRO.
Definition accel63 := profile Setup.RS2_FORMAT_MOTION_XYZ32F 0 0 63 0 RS2_STREAM_ACCEL.
Definition accel250 := profile Setup.RS2_FORMAT_MOTION_XYZ32F 0 0 250 0 RS2_STREAM_ACCEL.

(** Infrared and depth profiles of the stereo module. *)
Definition ir_left := profile Setup.RS2_FORMAT_Y8 640 480 30 1 RS2_STREAM_INFRARED.
Definition ir_right := profile Setup.RS2_FORMAT_Y8 640 480 30 2 RS2_STREAM_INFRARED.
Definition ir_right_fast := profile Setup.RS2_FORMAT_Y8 640 480 60 2 RS2_STREAM_INFRARED.
Definition depth640 := profile Setup.RS2_FORMAT_Z16 640 480 30 0 RS2_STREAM_DEPTH.

(** The profiles of a T265. *)
Definition fisheye1 := profile Setup.RS2_FORMAT_Y8 848 800 30 1 RS2_STREAM_FISHEYE.
Definition fisheye2 := profile Setup.RS2_FORMAT_Y8 848 800 30 2 RS2_STREAM_FISHEYE.
Definition gyro_t265 := profile Setup.RS2_FORMAT_MOTION_XYZ32F 0 0 200 0 RS2_STREAM_GYRO.
Definition accel_t265 := profile Setup.RS2_FORMAT_MOTION_XYZ32F 0 0 62 0 RS2_STREAM_ACCEL.
Definition pose_t265 := profile Setup.RS2_FORMAT_6DOF 0 0 200 0 RS2_STREAM_POSE.

(** The settings after the constructor (640 x 480 at 30 Hz), with the
    options given. *)
Definition settings (ir irDepth dual stereo : bool) : Setup.Settings :=
  {| Setup.ir_ := ir; Setup.irDepth_ := irDepth; Setup.dualMode_ := dual;
     Setup.isL500_ := false; Setup.cameraWidth_ := 640; Setup.cameraHeight_ := 480;
     Setup.cameraFps_ := 30; Setup.stereo := stereo |}.

End Cases.

(** ** Tactics *)

(** Case analysis on the innermost scrutinee of the goal, and on the pairs
    a run returns. *)
Ltac break_match :=
  repeat match goal with
         | |- context [match ?x with _ => _ end] =>
             lazymatch x with
             | context [match _ with _ => _ end] => fail
             | _ => destruct x eqn:?
             end
         end.

Ltac invert_pairs :=
  cbn in *;
  repeat match goal with
         | E : (_, _) = (_, _) |- _ => inversion E; subst; clear E
         end;
  cbn.

(** * Properties *)

(** ** Comparisons *)

Lemma Qltb_lt a b : Qltb a b = true <-> a < b.
Proof. unfold Qltb. rewrite Qlt_alt. destruct (a ?= b); split; congruence. Qed.

Lemma Qltb_ge a b : Qltb a b = false <-> b <= a.
Proof.
  unfold Qltb. destruct (Qcompare_spec a b) as [H|H|H]; split; intro; try congruence; try lra.
Qed.

Lemma Qleb_le a b : Qleb a b = true <-> a <= b.
Proof.
  unfold Qleb. destruct (Qcompare_spec a b) as [H|H|H]; split; intro; try congruence; try lra.
Qed.

Lemma Qeqb_eq a b : Qeqb a b = true <-> a == b.
Proof. unfold Qeqb. rewrite Qeq_alt. destruct (a ?= b); split; congruence. Qed.

Lemma Qeqb_neq a b : Qeqb a b = false <-> ~ a == b.
Proof.
  rewrite <- Qeqb_eq. destruct (Qeqb a b); split; intuition congruence.
Qed.

(** ** Ordered maps *)

Section MapFacts.
Context {V : Type}.
Implicit Types (m : StdMap.t V) (k : Q) (v : V).

Lemma ascending_cons k v m :
  StdMap.ascending ((k, v) :: m) = true <->
  above k m /\ StdMap.ascending m = true.
Proof.
  revert k v. induction m as [|[k2 v2] m IH]; intros k v.
  - simpl. split; [intros _; split; [intros e []|reflexivity]|reflexivity].
  - change (StdMap.ascending ((k, v) :: (k2, v2) :: m))
      with (Qltb k k2 && StdMap.ascending ((k2, v2) :: m)).
    rewrite andb_true_iff, Qltb_lt. split.
    + intros [Hlt Hasc]. split; [|exact Hasc].
      intros e [<-|Hin]; [exact Hlt|].
      apply (IH k2 v2) in Hasc. destruct Hasc as [Hab _].
      specialize (Hab e Hin). lra.
    + intros [Hab Hasc]. split; [|exact Hasc].
      apply (Hab (k2, v2)). now left.
Qed.

Lemma ascending_tl m : StdMap.ascending m = true -> StdMap.ascending (tl m) = true.
Proof.
  destruct m as [|[k v] m]; [reflexivity|].
  intros H. apply ascending_cons in H. apply H.
Qed.

Lemma above_insert k k' v m : k < k' -> above k m -> above k (StdMap.insert k' v m).
Proof.
  induction m as [|[k2 v2] m IH]; intros Hlt Hab; simpl.
  - intros e [<-|[]]. exact Hlt.
  - destruct (k' ?= k2).
    + exact Hab.
    + intros e [<-|Hin]; [exact Hlt|now apply Hab].
    + intros e [<-|Hin]; [apply (Hab (k2, v2)); now left|].
      apply IH; [exact Hlt| |exact Hin].
      intros e' He'. apply Hab. now right.
Qed.

Lemma ascending_insert k v m :
  StdMap.ascending m = true -> StdMap.ascending (StdMap.insert k v m) = true.
Proof.
  induction m as [|[k2 v2] m IH]; intros Hasc; [reflexivity|].
  simpl. destruct (Qcompare_spec k k2) as [He|Hl|Hg].
  - exact Hasc.
  - apply ascending_cons. split; [|exact Hasc].
    apply ascending_cons in Hasc. destruct Hasc as [Hab _].
    intros e [<-|Hin]; [exact Hl|]. specialize (Hab e Hin). lra.
  - apply ascending_cons in Hasc. destruct Hasc as [Hab Hasc].
    apply ascending_cons. split; [now apply above_insert|now apply IH].
Qed.

Lemma insert_length_le k v m :
  (length (StdMap.insert k v m) <= S (length m))%nat.
Proof.
  induction m as [|[k2 v2] m IH]; simpl; [lia|].
  destruct (k ?= k2); simpl; lia.
Qed.

Lemma insert_length_fresh k v m :
  StdMap.fresh k m = true -> length (StdMap.insert k v m) = S (length m).
Proof.
  induction m as [|[k2 v2] m IH]; [reflexivity|].
  simpl. unfold Qeqb. destruct (k ?= k2); simpl; intros H.
  - discriminate.
  - reflexivity.
  - now rewrite IH.
Qed.

Lemma fresh_insert k k' v m :
  ~ k == k' -> StdMap.fresh k m = true -> StdMap.fresh k (StdMap.insert k' v m) = true.
Proof.
  intros Hne. induction m as [|[k2 v2] m IH]; simpl.
  - intros _. apply Qeqb_neq in Hne. now rewrite Hne.
  - intros H. apply andb_true_iff in H. destruct H as [H1 H2].
    destruct (k' ?= k2); simpl.
    + now rewrite H1, H2.
    + apply Qeqb_neq in Hne. now rewrite Hne, H1, H2.
    + now rewrite H1, IH.
Qed.

Lemma fresh_app k (l1 l2 : list (Q * V)) :
  StdMap.fresh k (l1 ++ l2) = StdMap.fresh k l1 && StdMap.fresh k l2.
Proof.
  induction l1 as [|[k1 v1] l1 IH]; simpl; [reflexivity|].
  now rewrite IH, andb_assoc.
Qed.

Lemma distinct_snoc (l : list (Q * V)) k v :
  StdMap.distinct (l ++ [(k, v)]) = true ->
  StdMap.distinct l = true /\ StdMap.fresh k l = true.
Proof.
  induction l as [|[k1 v1] l IH]; simpl; [now split|].
  rewrite fresh_app. simpl. rewrite !andb_true_iff.
  intros [[Hf [Hne _]] Hd]. destruct (IH Hd) as [Hd' Hf'].
  repeat split; try assumption.
  apply negb_true_iff, Qeqb_neq. apply negb_true_iff, Qeqb_neq in Hne.
  intro E. apply Hne. now symmetry.
Qed.

Lemma insert_all_snoc (l : list (Q * V)) k v m :
  insert_all (l ++ [(k, v)]) m = StdMap.insert k v (insert_all l m).
Proof. unfold insert_all. now rewrite fold_left_app. Qed.

Lemma ingest_snoc (l : list (Q * V)) k v m :
  ingest (l ++ [(k, v)]) m = insert_bounded k v (ingest l m).
Proof. unfold ingest. now rewrite fold_left_app. Qed.

Lemma insert_all_ascending (l : list (Q * V)) m :
  StdMap.ascending m = true -> StdMap.ascending (insert_all l m) = true.
Proof.
  revert m. induction l as [|[k v] l IH]; intros m H; [exact H|].
  apply IH. now apply ascending_insert.
Qed.

Lemma insert_all_fresh (l : list (Q * V)) k :
  StdMap.fresh k l = true -> StdMap.fresh k (insert_all l []) = true.
Proof.
  induction l as [|[k1 v1] l IH] using rev_ind; [reflexivity|].
  rewrite fresh_app, insert_all_snoc. simpl.
  rewrite !andb_true_iff. intros [Hl [Hne _]].
  apply fresh_insert; [now apply negb_true_iff, Qeqb_neq in Hne|now apply IH].
Qed.

Lemma insert_all_length (l : list (Q * V)) :
  StdMap.distinct l = true -> length (insert_all l []) = length l.
Proof.
  induction l as [|[k v] l IH] using rev_ind; [reflexivity|].
  intros Hd. apply distinct_snoc in Hd. destruct Hd as [Hd Hf].
  rewrite insert_all_snoc, insert_length_fresh by now apply insert_all_fresh.
  rewrite IH by exact Hd. rewrite length_app. simpl. lia.
Qed.

(** Inserting below every key puts the entry first. *)
Lemma insert_above k v m :
  m <> [] -> above k m -> StdMap.insert k v m = (k, v) :: m.
Proof.
  destruct m as [|[k2 v2] m]; [congruence|].
  intros _ Hab. cbn [StdMap.insert].
  assert (H : k < k2) by (apply (Hab (k2, v2)); now left).
  destruct (Qcompare_spec k k2); [lra|reflexivity|lra].
Qed.

Lemma above_skipn k d m : above k m -> above k (skipn d m).
Proof.
  intros Hab e He. apply Hab.
  rewrite <- (firstn_skipn d m). apply in_or_app. now right.
Qed.

(** The eviction step commutes with dropping a prefix of the full
    history: inserting into the suffix and erasing the first entry is
    dropping one more entry of the history with the sample inserted. *)
Lemma erase_insert_skipn k v m d :
  StdMap.ascending m = true -> StdMap.fresh k m = true -> (d < length m)%nat ->
  StdMap.erase_begin (StdMap.insert k v (skipn d m)) = skipn (S d) (StdMap.insert k v m).
Proof.
  revert d. induction m as [|[k2 v2] m IH]; intros d Hasc Hf Hd; [simpl in Hd; lia|].
  apply ascending_cons in Hasc. destruct Hasc as [Hab Hasc].
  simpl in Hf. apply andb_true_iff in Hf. destruct Hf as [Hne Hf].
  apply negb_true_iff, Qeqb_neq in Hne.
  destruct d as [|d].
  - simpl. destruct (k ?= k2); reflexivity.
  - simpl in Hd.
    change (skipn (S d) ((k2, v2) :: m)) with (skipn d m).
    cbn [StdMap.insert]. destruct (Qcompare_spec k k2) as [He|Hl|Hg].
    + contradiction.
    + change (skipn (S (S d)) ((k, v) :: (k2, v2) :: m)) with (skipn d m).
      rewrite insert_above; [reflexivity| |].
      * intro E. apply (f_equal (@length _)) in E.
        rewrite length_skipn in E. simpl in E. lia.
      * apply above_skipn. intros e He. specialize (Hab e He). lra.
    + change (skipn (S (S d)) ((k2, v2) :: StdMap.insert k v m))
        with (skipn (S d) (StdMap.insert k v m)).
      apply IH; [exact Hasc|exact Hf|lia].
Qed.

Lemma insert_bounded_length k v (buf : StdMap.t V) :
  (length buf <= capacity)%nat -> (length (insert_bounded k v buf) <= capacity)%nat.
Proof.
  intros H. unfold insert_bounded, StdMap.size, StdMap.erase_begin.
  pose proof (insert_length_le k v buf) as Hle.
  destruct (Nat.ltb_spec capacity (length (StdMap.insert k v buf))) as [Hlt|Hge];
    [|exact Hge].
  destruct (StdMap.insert k v buf); simpl in *; lia.
Qed.

Lemma insert_bounded_ascending k v (buf : StdMap.t V) :
  StdMap.ascending buf = true -> StdMap.ascending (insert_bounded k v buf) = true.
Proof.
  intros H. unfold insert_bounded, StdMap.erase_begin.
  destruct (_ <? _)%nat; [apply ascending_tl|]; now apply ascending_insert.
Qed.

(** The buffer after any run of fresh stamps is the full history without
    its first entries: only the 1000 largest stamps remain. *)
Lemma ingest_is_suffix (samples : list (Q * V)) :
  StdMap.distinct samples = true ->
  ingest samples [] = skipn (length samples - capacity) (insert_all samples []).
Proof.
  induction samples as [|[k v] l IH] using rev_ind; [reflexivity|].
  intros Hd. apply distinct_snoc in Hd. destruct Hd as [Hd Hf].
  rewrite ingest_snoc, insert_all_snoc, IH by exact Hd.
  pose proof (insert_all_length l Hd) as Hlen.
  pose proof (insert_all_fresh l k Hf) as Hfr.
  pose proof (insert_all_ascending l [] eq_refl) as Hasc.
  rewrite length_app. simpl length.
  unfold insert_bounded, StdMap.size.
  destruct (Nat.le_gt_cases (length l) capacity) as [Hle|Hgt].
  - replace (length l - capacity)%nat with 0%nat by lia.
    simpl skipn. rewrite insert_length_fresh, Hlen by exact Hfr.
    destruct (Nat.ltb_spec capacity (S (length l))) as [Hlt|Hge].
    + replace (length l + 1 - capacity)%nat with 1%nat by lia. reflexivity.
    + replace (length l + 1 - capacity)%nat with 0%nat by lia. reflexivity.
  - rewrite insert_length_fresh.
    2:{ rewrite <- (firstn_skipn (length l - capacity) (insert_all l [])) in Hfr.
        rewrite fresh_app in Hfr. apply andb_true_iff in Hfr. apply Hfr. }
    rewrite length_skipn, Hlen.
    destruct (Nat.ltb_spec capacity (S (length l - (length l - capacity)))) as [Hlt|Hge];
      [|lia].
    replace (length l + 1 - capacity)%nat with (S (length l - capacity)) by lia.
    apply erase_insert_skipn; [exact Hasc|exact Hfr|unfold capacity in *; lia].
Qed.

End MapFacts.

(** ** Ingest *)

Section IngestFacts.
Context {Transform : Type} `{Externals Transform}.
Implicit Types (c : Camera Transform) (w : World Transform) (f : frame).

Lemma imu_callback_capacity f c : within_capacity c -> within_capacity (imu_callback f c).
Proof.
  intros (Hg & Ha & Hp). unfold imu_callback, within_capacity, StdMap.size in *.
  destruct (rs2_stream_eqb _ _); cbn; repeat split; auto using insert_bounded_length.
Qed.

Lemma pose_callback_capacity f c : within_capacity c -> within_capacity (pose_callback f c).
Proof.
  intros (Hg & Ha & Hp). unfold pose_callback, within_capacity, StdMap.size in *.
  cbn; repeat split; auto using insert_bounded_length.
Qed.

Lemma callback_capacity f w :
  within_capacity (cam w) -> within_capacity (cam (snd (multiple_message_callback f w))).
Proof.
  intros Hw. unfold multiple_message_callback.
  destruct (stream_type f); cbn; auto using imu_callback_capacity.
  destruct (odometryProvided_ (cam w)); cbn; auto using pose_callback_capacity.
Qed.

Lemma run_callbacks_cons f fs w :
  run_callbacks (f :: fs) w = run_callbacks fs (snd (multiple_message_callback f w)).
Proof.
  cbn [run_callbacks]. unfold bind.
  now destruct (multiple_message_callback f w) as [[] w'].
Qed.

Lemma run_callbacks_capacity fs w :
  within_capacity (cam w) -> within_capacity (cam (snd (run_callbacks fs w))).
Proof.
  revert w. induction fs as [|f fs IH]; intros w Hw; [exact Hw|].
  rewrite run_callbacks_cons. apply IH. now apply callback_capacity.
Qed.

(** A run of gyroscope frames is a run of bounded inserts on [gyroBuffer_]. *)
Lemma run_callbacks_gyro (samples : list (Q * Vec3)) w :
  gyroBuffer_ (cam (snd (run_callbacks
     (map (fun s => motion_frame RS2_STREAM_GYRO (fst s) (snd s)) samples) w)))
  = ingest samples (gyroBuffer_ (cam w)).
Proof.
  revert w. induction samples as [|[k v] l IH]; intros w; [reflexivity|].
  cbn [map]. rewrite run_callbacks_cons, IH. reflexivity.
Qed.

Lemma run_callbacks_acc (samples : list (Q * Vec3)) w :
  accBuffer_ (cam (snd (run_callbacks
     (map (fun s => motion_frame RS2_STREAM_ACCEL (fst s) (snd s)) samples) w)))
  = ingest samples (accBuffer_ (cam w)).
Proof.
  revert w. induction samples as [|[k v] l IH]; intros w; [reflexivity|].
  cbn [map]. rewrite run_callbacks_cons, IH. reflexivity.
Qed.

Lemma run_callbacks_pose (poses : list (Q * rs2_pose)) w :
  odometryProvided_ (cam w) = true ->
  poseBuffer_ (cam (snd (run_callbacks
     (map (fun s => pose_frame (fst s) (snd s)) poses) w)))
  = ingest (map (fun s => (fst s, (poseT (snd s), tracker_confidence (snd s)))) poses)
      (poseBuffer_ (cam w)).
Proof.
  revert w. induction poses as [|[k v] l IH]; intros w Ho; [reflexivity|].
  cbn [map]. rewrite run_callbacks_cons, IH.
  - cbn. rewrite Ho. reflexivity.
  - cbn. rewrite Ho. exact Ho.
Qed.

(** Whether stamps are pairwise different does not depend on the values. *)
Lemma fresh_map_snd {V W} (g : V -> W) k (l : list (Q * V)) :
  StdMap.fresh k (map (fun s => (fst s, g (snd s))) l) = StdMap.fresh k l.
Proof.
  induction l as [|[k' v] l IH]; [reflexivity|].
  cbn [map StdMap.fresh fst snd]. now rewrite IH.
Qed.

Lemma distinct_map_snd {V W} (g : V -> W) (l : list (Q * V)) :
  StdMap.distinct (map (fun s => (fst s, g (snd s))) l) = StdMap.distinct l.
Proof.
  induction l as [|[k v] l IH]; [reflexivity|].
  cbn [map StdMap.distinct fst snd]. now rewrite fresh_map_snd, IH.
Qed.

(** When the buffer is full, a fresh stamp evicts exactly the entry with the
    smallest stamp of the buffer and the new sample together. *)
Lemma insert_bounded_evicts {V} k (v : V) (buf : StdMap.t V) :
  StdMap.ascending buf = true -> StdMap.size buf = capacity ->
  StdMap.fresh k buf = true ->
  exists e, StdMap.insert k v buf = e :: insert_bounded k v buf /\
            above (fst e) (insert_bounded k v buf) /\
            StdMap.size (insert_bounded k v buf) = capacity.
Proof.
  intros Hasc Hsz Hfr. unfold insert_bounded, StdMap.size in *.
  pose proof (insert_length_fresh k v buf Hfr) as Hlen.
  pose proof (ascending_insert k v buf Hasc) as Hasc'.
  destruct (Nat.ltb_spec capacity (length (StdMap.insert k v buf))) as [_|Hge]; [|lia].
  destruct (StdMap.insert k v buf) as [|[k0 v0] rest]; [discriminate|].
  exists (k0, v0). cbn [StdMap.erase_begin tl fst]. split; [reflexivity|].
  apply ascending_cons in Hasc'. split; [apply Hasc'|].
  cbn [length] in Hlen. lia.
Qed.

(** In an increasing list the entries dropped by [skipn] are not keys of
    what remains. *)
Lemma skipn_fresh {V} (m : StdMap.t V) n e :
  StdMap.ascending m = true -> In e (firstn n m) -> StdMap.fresh (fst e) (skipn n m) = true.
Proof.
  revert n. induction m as [|[k v] m IH]; intros n Hasc Hin.
  - rewrite firstn_nil in Hin. destruct Hin.
  - destruct n as [|n]; [destruct Hin|].
    apply ascending_cons in Hasc. destruct Hasc as [Hab Hasc].
    cbn [firstn skipn] in *. destruct Hin as [<-|Hin]; [|now apply IH].
    cbn [fst]. clear IH. pose proof (above_skipn k n m Hab) as Hab'.
    induction (skipn n m) as [|[k2 v2] r IHr]; [reflexivity|].
    cbn [StdMap.fresh]. apply andb_true_iff. split.
    + apply negb_true_iff, Qeqb_neq. specialize (Hab' (k2, v2) (or_introl eq_refl)).
      cbn [fst] in Hab'. lra.
    + apply IHr. intros e He. apply Hab'. now right.
Qed.

(** C3. However the callbacks of the gyroscope, accelerometer and pose
    streams are interleaved, no buffer holds more than 1000 entries after any
    of them; an insert of a fresh stamp into a full buffer evicts exactly one
    entry, the one with the smallest stamp; and after 1000 + k inserts of
    pairwise different stamps the buffer is the history in stamp order
    without its k first entries, none of which is a key of the buffer any
    more.  The last part is stated for a buffer on its own and, under
    [multiple_message_callback], for each of [gyroBuffer_], [accBuffer_] and
    [poseBuffer_] (the pose stream is stored while [odometryProvided_] is
    on). *)
Theorem C3_buffers_bounded :
  (forall (frames : list frame) w n,
      within_capacity (cam w) ->
      within_capacity (cam (snd (run_callbacks (firstn n frames) w))))
  /\ (forall V k (v : V) (buf : StdMap.t V),
        StdMap.ascending buf = true -> StdMap.size buf = 1000%nat ->
        StdMap.fresh k buf = true ->
        exists e, StdMap.insert k v buf = e :: insert_bounded k v buf /\
                  above (fst e) (insert_bounded k v buf) /\
                  StdMap.size (insert_bounded k v buf) = 1000%nat)
  /\ (forall V (samples : list (Q * V)) (k : nat),
        StdMap.distinct samples = true -> length samples = (1000 + k)%nat ->
        ingest samples [] = skipn k (insert_all samples []) /\
        StdMap.size (ingest samples []) = 1000%nat /\
        forall e, In e (firstn k (insert_all samples [])) ->
                  StdMap.fresh (fst e) (ingest samples []) = true)
  /\ (forall (samples : list (Q * Vec3)) (k : nat) w,
        gyroBuffer_ (cam w) = [] ->
        StdMap.distinct samples = true -> length samples = (1000 + k)%nat ->
        gyroBuffer_ (cam (snd (run_callbacks
           (map (fun s => motion_frame RS2_STREAM_GYRO (fst s) (snd s)) samples) w)))
        = skipn k (insert_all samples []))
  /\ (forall (samples : list (Q * Vec3)) (k : nat) w,
        accBuffer_ (cam w) = [] ->
        StdMap.distinct samples = true -> length samples = (1000 + k)%nat ->
        accBuffer_ (cam (snd (run_callbacks
           (map (fun s => motion_frame RS2_STREAM_ACCEL (fst s) (snd s)) samples) w)))
        = skipn k (insert_all samples []))
  /\ (forall (poses : list (Q * rs2_pose)) (k : nat) w,
        odometryProvided_ (cam w) = true -> poseBuffer_ (cam w) = [] ->
        StdMap.distinct poses = true -> length poses = (1000 + k)%nat ->
        poseBuffer_ (cam (snd (run_callbacks
           (map (fun s => pose_frame (fst s) (snd s)) poses) w)))
        = skipn k (insert_all
                     (map (fun s => (fst s, (poseT (snd s), tracker_confidence (snd s))))
                        poses) [])).
Proof.
  split; [|split; [|split; [|split; [|split]]]]; cycle 3.
  - intros samples k w Hempty Hd Hlen.
    rewrite run_callbacks_gyro, Hempty, (ingest_is_suffix samples Hd).
    f_equal. unfold capacity. lia.
  - intros samples k w Hempty Hd Hlen.
    rewrite run_callbacks_acc, Hempty, (ingest_is_suffix samples Hd).
    f_equal. unfold capacity. lia.
  - intros poses k w Hodom Hempty Hd Hlen.
    rewrite (run_callbacks_pose poses w Hodom), Hempty.
    assert (Hd' : StdMap.distinct
                    (map (fun s => (fst s, (poseT (snd s), tracker_confidence (snd s))))
                       poses) = true).
    { rewrite <- Hd.
      apply (distinct_map_snd (fun p => (poseT p, tracker_confidence p))). }
    rewrite (ingest_is_suffix _ Hd'), length_map. f_equal. unfold capacity. lia.
  - intros frames w n Hw. now apply run_callbacks_capacity.
  - intros V k v buf. apply insert_bounded_evicts.
  - intros V samples k Hd Hlen.
    pose proof (ingest_is_suffix samples Hd) as Hs.
    replace (length samples - capacity)%nat with k in Hs by (unfold capacity; lia).
    split; [exact Hs|]. split.
    + rewrite Hs. unfold StdMap.size.
      rewrite length_skipn, insert_all_length by exact Hd. lia.
    + intros e He. rewrite Hs. apply skipn_fresh; [|exact He].
      now apply insert_all_ascending.
Qed.

End IngestFacts.

(** ** Brackets in an increasing buffer *)

Section BracketFacts.
Context {V : Type}.
Implicit Types (m pre post : StdMap.t V) (k stamp : Q).

Lemma rbegin_cons e m : m <> [] -> StdMap.rbegin (e :: m) = StdMap.rbegin m.
Proof. destruct m; [congruence|reflexivity]. Qed.

Lemma rbegin_app m e' m' : StdMap.rbegin (m ++ e' :: m') = StdMap.rbegin (e' :: m').
Proof.
  induction m as [|e m IH]; [reflexivity|].
  cbn [app]. rewrite rbegin_cons; [exact IH|]. now destruct m.
Qed.

Lemma rbegin_some m : m <> [] -> exists e, StdMap.rbegin m = Some e /\ In e m.
Proof.
  induction m as [|e m IH]; [congruence|]. intros _.
  destruct m as [|e2 m].
  - exists e. split; [reflexivity|now left].
  - destruct IH as (l & Hl & Hin); [congruence|].
    exists l. rewrite rbegin_cons by congruence. split; [exact Hl|now right].
Qed.

(** The last entry has the largest key. *)
Lemma rbegin_largest m e l :
  StdMap.ascending m = true -> In e m -> StdMap.rbegin m = Some l -> fst e <= fst l.
Proof.
  induction m as [|[k v] m IH]; intros Hasc Hin Hl; [destruct Hin|].
  apply ascending_cons in Hasc. destruct Hasc as [Hab Hasc].
  destruct m as [|e2 m].
  - cbn in Hl. injection Hl as <-. destruct Hin as [<-|[]]. lra.
  - rewrite rbegin_cons in Hl by congruence.
    destruct Hin as [<-|Hin]; [|now apply IH].
    destruct (rbegin_some (e2 :: m)) as (l' & Hl' & Hin'); [congruence|].
    rewrite Hl in Hl'. injection Hl' as <-.
    specialize (Hab l Hin'). cbn [fst]. lra.
Qed.

Lemma behind_member m e stamp :
  StdMap.ascending m = true -> In e m -> stamp <= fst e -> behind m stamp = false.
Proof.
  intros Hasc Hin Hle. unfold behind.
  destruct (StdMap.rbegin m) as [[tl vl]|] eqn:Hl; [|reflexivity].
  apply Qltb_ge. pose proof (rbegin_largest m e (tl, vl) Hasc Hin Hl) as Hmax.
  cbn [fst] in Hmax. lra.
Qed.

Lemma lower_bound_first stamp k v m :
  stamp <= k -> StdMap.lower_bound stamp ((k, v) :: m) = 0%nat.
Proof.
  intros Hle. cbn [StdMap.lower_bound].
  apply Qltb_ge in Hle. now rewrite Hle.
Qed.

Lemma lower_bound_between stamp pre tA vA tB vB post :
  StdMap.ascending (pre ++ (tA, vA) :: (tB, vB) :: post) = true ->
  tA < stamp -> stamp <= tB ->
  StdMap.lower_bound stamp (pre ++ (tA, vA) :: (tB, vB) :: post) = S (length pre).
Proof.
  intros Hasc HA HB. induction pre as [|[k v] pre IH].
  - cbn [app length StdMap.lower_bound].
    apply Qltb_lt in HA. apply Qltb_ge in HB. now rewrite HA, HB.
  - cbn [app] in Hasc. apply ascending_cons in Hasc. destruct Hasc as [Hab Hasc].
    cbn [app length StdMap.lower_bound].
    assert (Hk : k < tA).
    { apply (Hab (tA, vA)). apply in_or_app. right. now left. }
    assert (Hlt : Qltb k stamp = true) by (apply Qltb_lt; lra).
    rewrite Hlt. f_equal. now apply IH.
Qed.

(** The two iterators at a stamp equal to or before the first key. *)
Lemma bracket_first stamp k v m :
  stamp <= k -> bracket ((k, v) :: m) stamp = (0%nat, 0%nat).
Proof.
  intros Hle. unfold bracket. rewrite lower_bound_first by exact Hle. reflexivity.
Qed.

(** The two iterators at a stamp after one key and up to the next. *)
Lemma bracket_between stamp pre tA vA tB vB post :
  StdMap.ascending (pre ++ (tA, vA) :: (tB, vB) :: post) = true ->
  tA < stamp -> stamp <= tB ->
  bracket (pre ++ (tA, vA) :: (tB, vB) :: post) stamp = (length pre, S (length pre)).
Proof.
  intros Hasc HA HB. unfold bracket.
  rewrite lower_bound_between by assumption.
  unfold StdMap.begin, StdMap.end_.
  rewrite length_app. cbn [length].
  destruct (Nat.eqb_spec (S (length pre)) (length pre + S (S (length post)))) as [E|_];
    [lia|].
  reflexivity.
Qed.

Lemma deref_app pre e post : StdMap.deref (pre ++ e :: post) (length pre) = Some e.
Proof. unfold StdMap.deref. rewrite nth_error_app2, Nat.sub_diag by lia. reflexivity. Qed.

Lemma deref_app_next pre e e' post :
  StdMap.deref (pre ++ e :: e' :: post) (S (length pre)) = Some e'.
Proof.
  unfold StdMap.deref. rewrite nth_error_app2 by lia.
  replace (S (length pre) - length pre)%nat with 1%nat by lia. reflexivity.
Qed.

(** A buffer that is not empty always yields two valid iterators. *)
Lemma bracket_valid m stamp :
  m <> [] ->
  exists a b, StdMap.deref m (fst (bracket m stamp)) = Some a /\
              StdMap.deref m (snd (bracket m stamp)) = Some b.
Proof.
  intros Hne. unfold bracket, StdMap.begin, StdMap.end_, StdMap.deref. cbn [fst snd].
  assert (Hlb : (StdMap.lower_bound stamp m <= length m)%nat).
  { clear Hne. induction m as [|[k v] m IH]; cbn; [lia|].
    destruct (Qltb k stamp); cbn; lia. }
  assert (Hlen : (0 < length m)%nat) by (destruct m; [congruence|cbn; lia]).
  set (lb := StdMap.lower_bound stamp m) in *.
  destruct (nth_error m (if negb (lb =? 0)%nat then pred lb else lb)) as [a|] eqn:Ea.
  - destruct (nth_error m (if (lb =? length m)%nat then pred lb else lb)) as [b|] eqn:Eb.
    + now exists a, b.
    + exfalso. apply nth_error_None in Eb.
      destruct (Nat.eqb_spec lb (length m)); lia.
  - exfalso. apply nth_error_None in Ea.
    destruct (Nat.eqb_spec lb 0); cbn [negb] in Ea; lia.
Qed.

(** Where a stamp can lie in a buffer that is not empty: after the last
    key, at or before the first, or after one key and up to the next. *)
Lemma buffer_cases m stamp :
  StdMap.ascending m = true -> m <> [] ->
  behind m stamp = true \/
  (exists t0 v0 rest, m = (t0, v0) :: rest /\ stamp <= t0) \/
  (exists pre tA vA tB vB post,
      m = pre ++ (tA, vA) :: (tB, vB) :: post /\ tA < stamp /\ stamp <= tB).
Proof.
  induction m as [|[t0 v0] m IH]; intros Hasc Hne; [congruence|].
  destruct (Qlt_le_dec t0 stamp) as [Hlt|Hle].
  2:{ right. left. now exists t0, v0, m. }
  destruct m as [|[t1 v1] m'].
  - left. unfold behind. cbn. now apply Qltb_lt.
  - apply ascending_cons in Hasc. destruct Hasc as [_ Hasc].
    destruct (IH Hasc) as [Hb|[(t & v & rest & E & Hle)|(pre & tA & vA & tB & vB & post & E & HA & HB)]];
      [congruence| | |].
    + left. unfold behind in *. now rewrite rbegin_cons by congruence.
    + injection E as <- <- <-. right. right.
      exists [], t0, v0, t1, v1, m'. now repeat split.
    + right. right. exists ((t0, v0) :: pre), tA, vA, tB, vB, post.
      cbn [app]. rewrite E. now repeat split.
Qed.

(** A callback never leaves its buffer empty. *)
Lemma insert_bounded_nonempty k (v : V) m : insert_bounded k v m <> [].
Proof.
  unfold insert_bounded, StdMap.size, StdMap.erase_begin.
  destruct (Nat.ltb_spec capacity (length (StdMap.insert k v m))) as [Hlt|Hge].
  - destruct (StdMap.insert k v m) as [|e [|e' r]]; cbn in *;
      [unfold capacity in Hlt; lia|unfold capacity in Hlt; lia|discriminate].
  - destruct m as [|[k' v'] m]; cbn; [discriminate|]. destruct (k ?= k'); discriminate.
Qed.

End BracketFacts.

(** ** Waiting *)

Section WaitFacts.
Context {Transform : Type} `{Externals Transform}.
Implicit Types (c : Camera Transform) (w : World Transform) (f : frame).

Lemma producers_only_refl w : producers_only w w.
Proof. unfold producers_only. repeat split. Qed.

Lemma producers_only_trans w1 w2 w3 :
  producers_only w1 w2 -> producers_only w2 w3 -> producers_only w1 w3.
Proof. unfold producers_only. intuition congruence. Qed.

Lemma callback_producers f w : producers_only w (snd (multiple_message_callback f w)).
Proof.
  unfold multiple_message_callback, imu_callback, pose_callback.
  destruct (stream_type f); cbn;
    try (destruct (rs2_stream_eqb _ _)); try (destruct (odometryProvided_ (cam w)));
    cbn; unfold producers_only; cbn; repeat split.
Qed.

Lemma run_callbacks_producers fs w : producers_only w (snd (run_callbacks fs w)).
Proof.
  revert w. induction fs as [|f fs IH]; intros w; [apply producers_only_refl|].
  rewrite run_callbacks_cons.
  eapply producers_only_trans; [apply callback_producers|apply IH].
Qed.

Lemma uSleep_producers w : producers_only w (snd (uSleep w)).
Proof.
  unfold uSleep. destruct (sleeps w) as [|batch rest]; [apply producers_only_refl|].
  eapply producers_only_trans; [|apply run_callbacks_producers].
  unfold producers_only. cbn. repeat split.
Qed.

Lemma wait_while_step lagging tries w :
  wait_while lagging (S tries) w =
  if lagging (cam w) then wait_while lagging tries (snd (uSleep w)) else (tt, w).
Proof.
  cbn [wait_while]. unfold bind, get_cam.
  destruct (lagging (cam w)); [|reflexivity].
  now destruct (uSleep w) as [[] w'].
Qed.

Lemma wait_while_producers lagging tries w :
  producers_only w (snd (wait_while lagging tries w)).
Proof.
  revert w. induction tries as [|tries IH]; intros w; [apply producers_only_refl|].
  rewrite wait_while_step. destruct (lagging (cam w)); [|apply producers_only_refl].
  eapply producers_only_trans; [apply uSleep_producers|apply IH].
Qed.

(** No wait when the buffer already reaches the stamp. *)
Lemma wait_while_idle lagging tries w :
  lagging (cam w) = false -> wait_while lagging tries w = (tt, w).
Proof.
  intros Hl. destruct tries; [reflexivity|]. now rewrite wait_while_step, Hl.
Qed.

(** With no callback scheduled, waiting changes nothing. *)
Lemma wait_while_quiet lagging tries w :
  sleeps w = [] -> wait_while lagging tries w = (tt, w).
Proof.
  intros Hs. induction tries as [|tries IH]; [reflexivity|].
  rewrite wait_while_step. destruct (lagging (cam w)); [|reflexivity].
  unfold uSleep. rewrite Hs. exact IH.
Qed.

(** The callbacks keep the keys of each buffer increasing. *)
Lemma callback_ascending f w :
  buffers_ascending (cam w) = true ->
  buffers_ascending (cam (snd (multiple_message_callback f w))) = true.
Proof.
  unfold buffers_ascending. rewrite !andb_true_iff. intros [[Hg Ha] Hp].
  unfold multiple_message_callback, imu_callback, pose_callback.
  destruct (stream_type f); cbn;
    try (destruct (rs2_stream_eqb _ _)); try (destruct (odometryProvided_ (cam w)));
    cbn; rewrite ?andb_true_iff; repeat split;
    auto using insert_bounded_ascending.
Qed.

Lemma run_callbacks_ascending fs w :
  buffers_ascending (cam w) = true ->
  buffers_ascending (cam (snd (run_callbacks fs w))) = true.
Proof.
  revert w. induction fs as [|f fs IH]; intros w Hw; [exact Hw|].
  rewrite run_callbacks_cons. apply IH. now apply callback_ascending.
Qed.

Lemma uSleep_ascending w :
  buffers_ascending (cam w) = true -> buffers_ascending (cam (snd (uSleep w))) = true.
Proof.
  intros Hw. unfold uSleep. destruct (sleeps w) as [|batch rest]; [exact Hw|].
  now apply run_callbacks_ascending.
Qed.

Lemma wait_while_ascending lagging tries w :
  buffers_ascending (cam w) = true ->
  buffers_ascending (cam (snd (wait_while lagging tries w))) = true.
Proof.
  revert w. induction tries as [|tries IH]; intros w Hw; [exact Hw|].
  rewrite wait_while_step. destruct (lagging (cam w)); [|exact Hw].
  apply IH. now apply uSleep_ascending.
Qed.

End WaitFacts.

(** ** The lookups of [getPoseAndIMU] *)

Section LookupFacts.
Context {Transform : Type} `{Externals Transform}.
Implicit Types (c : Camera Transform) (w : World Transform) (s : rs2_stream).

Lemma interpolateImu_unfold s stamp maxWaitTimeMs w :
  interpolateImu s stamp maxWaitTimeMs w =
  lookupImu s stamp maxWaitTimeMs
    (snd (wait_while (fun c => behind (imuBuffer s c) stamp) (Z.to_nat maxWaitTimeMs) w)).
Proof.
  unfold interpolateImu, bind. now destruct (wait_while _ _ w) as [[] w'].
Qed.

Lemma interpolatePose_unfold stamp maxWaitTimeMs w :
  interpolatePose stamp maxWaitTimeMs w =
  lookupPose stamp maxWaitTimeMs
    (snd (wait_while (fun c => behind (poseBuffer_ c) stamp) (Z.to_nat maxWaitTimeMs) w)).
Proof.
  unfold interpolatePose, bind. now destruct (wait_while _ _ w) as [[] w'].
Qed.

(** The stream is still behind the stamp: nothing is returned, in either
    mode, and only the log may grow. *)
Lemma lookupImu_behind s stamp maxWaitTimeMs w :
  behind (imuBuffer s (cam w)) stamp = true ->
  fst (lookupImu s stamp maxWaitTimeMs w) = None /\
  cam (snd (lookupImu s stamp maxWaitTimeMs w)) = cam w.
Proof.
  intros Hb. unfold lookupImu, bind, get_cam. rewrite Hb.
  destruct (0 <? maxWaitTimeMs)%Z; cbn; split; reflexivity.
Qed.

Lemma lookupPose_behind stamp maxWaitTimeMs w :
  behind (poseBuffer_ (cam w)) stamp = true ->
  fst (lookupPose stamp maxWaitTimeMs w) = None /\
  cam (snd (lookupPose stamp maxWaitTimeMs w)) = cam w.
Proof.
  intros Hb. unfold lookupPose, bind, get_cam. rewrite Hb.
  destruct (0 <? maxWaitTimeMs)%Z; cbn; split; reflexivity.
Qed.

(** The stamp is the first key: the first sample as stored. *)
Lemma lookupImu_first s stamp maxWaitTimeMs w t0 v0 rest :
  imuBuffer s (cam w) = (t0, v0) :: rest ->
  StdMap.ascending (imuBuffer s (cam w)) = true -> stamp == t0 ->
  lookupImu s stamp maxWaitTimeMs w = (Some v0, w).
Proof.
  intros Hbuf Hasc Heq. unfold lookupImu, bind, get_cam.
  rewrite (behind_member _ (t0, v0) stamp Hasc);
    [|rewrite Hbuf; now left|cbn [fst]; lra].
  rewrite Hbuf, bracket_first by lra.
  cbn [StdMap.deref nth_error Nat.eqb andb].
  apply Qeqb_eq in Heq. now rewrite Heq.
Qed.

(** The stamp is after one key and up to the next: the linear mix of the
    two samples. *)
Lemma lookupImu_between s stamp maxWaitTimeMs w pre tA vA tB vB post :
  imuBuffer s (cam w) = pre ++ (tA, vA) :: (tB, vB) :: post ->
  StdMap.ascending (imuBuffer s (cam w)) = true -> tA < stamp -> stamp <= tB ->
  lookupImu s stamp maxWaitTimeMs w
  = (Some (lerp ((stamp - tA) / (tB - tA)) vA vB), w).
Proof.
  intros Hbuf Hasc HA HB. unfold lookupImu, bind, get_cam.
  rewrite (behind_member _ (tB, vB) stamp Hasc);
    [|rewrite Hbuf; apply in_or_app; right; right; now left|exact HB].
  rewrite Hbuf in Hasc |- *. rewrite bracket_between by assumption.
  rewrite deref_app, deref_app_next.
  replace (length pre =? S (length pre))%nat with false
    by (symmetry; apply Nat.eqb_neq; lia).
  cbn [andb].
  assert (E1 : Qleb tA stamp = true) by (apply Qleb_le; lra).
  assert (E2 : Qleb stamp tB = true) by (apply Qleb_le; lra).
  now rewrite E1, E2.
Qed.

(** The stamp is before the first key: nothing under [globalTimeSync_], the
    last sample without it. *)
Lemma lookupImu_before s stamp maxWaitTimeMs w t0 v0 rest :
  imuBuffer s (cam w) = (t0, v0) :: rest ->
  StdMap.ascending (imuBuffer s (cam w)) = true -> stamp < t0 ->
  fst (lookupImu s stamp maxWaitTimeMs w) =
  if globalTimeSync_ (cam w) then None
  else option_map snd (StdMap.rbegin (imuBuffer s (cam w))).
Proof.
  intros Hbuf Hasc Hlt. unfold lookupImu, bind, get_cam.
  rewrite (behind_member _ (t0, v0) stamp Hasc);
    [|rewrite Hbuf; now left|cbn [fst]; lra].
  rewrite Hbuf, bracket_first by lra.
  cbn [StdMap.deref nth_error Nat.eqb andb].
  assert (E0 : Qeqb stamp t0 = false) by (apply Qeqb_neq; lra).
  assert (E1 : Qleb t0 stamp = false).
  { destruct (Qleb t0 stamp) eqn:E; [apply Qleb_le in E; lra|reflexivity]. }
  assert (E2 : Qltb stamp t0 = true) by (now apply Qltb_lt).
  rewrite E0, E1, E2. cbn [andb].
  generalize (StdMap.rbegin ((t0, v0) :: rest)). intros lst.
  destruct (globalTimeSync_ (cam w)), (imuGlobalSyncWarningShown_ (cam w));
    try destruct lst as [[tl vl]|]; reflexivity.
Qed.

Lemma lookupPose_first stamp maxWaitTimeMs w t0 p0 rest :
  poseBuffer_ (cam w) = (t0, p0) :: rest ->
  StdMap.ascending (poseBuffer_ (cam w)) = true -> stamp == t0 ->
  lookupPose stamp maxWaitTimeMs w = (Some p0, w).
Proof.
  intros Hbuf Hasc Heq. unfold lookupPose, bind, get_cam.
  rewrite (behind_member _ (t0, p0) stamp Hasc);
    [|rewrite Hbuf; now left|cbn [fst]; lra].
  rewrite Hbuf, bracket_first by lra.
  cbn [StdMap.deref nth_error Nat.eqb andb]. destruct p0 as [pose0 conf0].
  apply Qeqb_eq in Heq. now rewrite Heq.
Qed.

Lemma lookupPose_between stamp maxWaitTimeMs w pre tA poseA confA tB poseB confB post :
  poseBuffer_ (cam w) = pre ++ (tA, (poseA, confA)) :: (tB, (poseB, confB)) :: post ->
  StdMap.ascending (poseBuffer_ (cam w)) = true -> tA < stamp -> stamp <= tB ->
  lookupPose stamp maxWaitTimeMs w
  = (Some (Transform_interpolate poseA ((stamp - tA) / (tB - tA)) poseB, confA), w).
Proof.
  intros Hbuf Hasc HA HB. unfold lookupPose, bind, get_cam.
  rewrite (behind_member _ (tB, (poseB, confB)) stamp Hasc);
    [|rewrite Hbuf; apply in_or_app; right; right; now left|exact HB].
  rewrite Hbuf in Hasc |- *. rewrite bracket_between by assumption.
  rewrite deref_app, deref_app_next.
  replace (length pre =? S (length pre))%nat with false
    by (symmetry; apply Nat.eqb_neq; lia).
  cbn [andb].
  assert (E1 : Qleb tA stamp = true) by (apply Qleb_le; lra).
  assert (E2 : Qleb stamp tB = true) by (apply Qleb_le; lra).
  now rewrite E1, E2.
Qed.

Lemma lookupPose_before stamp maxWaitTimeMs w t0 p0 rest :
  poseBuffer_ (cam w) = (t0, p0) :: rest ->
  StdMap.ascending (poseBuffer_ (cam w)) = true -> stamp < t0 ->
  fst (lookupPose stamp maxWaitTimeMs w) = None.
Proof.
  intros Hbuf Hasc Hlt. unfold lookupPose, bind, get_cam.
  rewrite (behind_member _ (t0, p0) stamp Hasc);
    [|rewrite Hbuf; now left|cbn [fst]; lra].
  rewrite Hbuf, bracket_first by lra.
  cbn [StdMap.deref nth_error Nat.eqb andb]. destruct p0 as [pose0 conf0].
  assert (E0 : Qeqb stamp t0 = false) by (apply Qeqb_neq; lra).
  assert (E1 : Qleb t0 stamp = false).
  { destruct (Qleb t0 stamp) eqn:E; [apply Qleb_le in E; lra|reflexivity]. }
  assert (E2 : Qltb stamp t0 = true) by (now apply Qltb_lt).
  rewrite E0, E1, E2. reflexivity.
Qed.

End LookupFacts.

(** ** [getPoseAndIMU] on the edges of a buffer *)

Section EdgeFacts.
Context {Transform : Type} `{Externals Transform}.
Implicit Types (c : Camera Transform) (w : World Transform) (s : rs2_stream).

Lemma ascending_app_r {V} (pre m : StdMap.t V) :
  StdMap.ascending (pre ++ m) = true -> StdMap.ascending m = true.
Proof.
  induction pre as [|[k v] pre IH]; [trivial|].
  cbn [app]. intros Hasc. apply ascending_cons in Hasc. now apply IH.
Qed.

(** The lookups leave the buffers, the options and the schedule alone. *)
Lemma lookupImu_frame s stamp maxWaitTimeMs w :
  let w' := snd (lookupImu s stamp maxWaitTimeMs w) in
  gyroBuffer_ (cam w') = gyroBuffer_ (cam w) /\
  accBuffer_ (cam w') = accBuffer_ (cam w) /\
  poseBuffer_ (cam w') = poseBuffer_ (cam w) /\
  globalTimeSync_ (cam w') = globalTimeSync_ (cam w) /\
  sleeps w' = sleeps w.
Proof.
  cbv zeta. unfold lookupImu, bind, get_cam, when, say, modify_cam, ret.
  break_match; invert_pairs; repeat split.
Qed.

Lemma lookupPose_frame stamp maxWaitTimeMs w :
  let w' := snd (lookupPose stamp maxWaitTimeMs w) in
  cam w' = cam w /\ sleeps w' = sleeps w.
Proof.
  cbv zeta. unfold lookupPose, bind, get_cam, when, say, modify_cam, ret.
  break_match; invert_pairs; repeat split.
Qed.

(** At the stamp of a stored sample the vector found is that sample's, as
    numbers; it is the stored value itself when the sample is the first. *)
Lemma interpolateImu_at_key s stamp maxWaitTimeMs w pre t v post :
  imuBuffer s (cam w) = pre ++ (t, v) :: post ->
  StdMap.ascending (imuBuffer s (cam w)) = true -> stamp == t ->
  exists r, interpolateImu s stamp maxWaitTimeMs w = (Some r, w) /\
            Vec3_eq r v /\ (pre = [] -> r = v).
Proof.
  intros Hbuf Hasc Heq.
  rewrite interpolateImu_unfold, wait_while_idle.
  2:{ apply (behind_member _ (t, v)); [exact Hasc| |cbn [fst]; lra].
      rewrite Hbuf. apply in_or_app. right. now left. }
  cbn [snd].
  destruct pre as [|e pre] using rev_ind.
  - exists v. rewrite (lookupImu_first s stamp _ w t v post) by assumption.
    repeat split; reflexivity.
  - clear IHpre. destruct e as [tP vP]. rewrite <- app_assoc in Hbuf. cbn [app] in Hbuf.
    assert (HP : tP < t).
    { rewrite Hbuf in Hasc. apply ascending_app_r in Hasc.
      apply ascending_cons in Hasc. destruct Hasc as [Hab _].
      apply (Hab (t, v)). now left. }
    exists (lerp ((stamp - tP) / (t - tP)) vP v).
    rewrite (lookupImu_between s stamp _ w pre tP vP t v post) by (assumption || lra).
    split; [reflexivity|]. split.
    + assert (E : (stamp - tP) / (t - tP) == 1) by (rewrite Heq; field; lra).
      unfold Vec3_eq, lerp, vx, vy, vz. cbn [fst snd].
      rewrite E. repeat split; ring.
    + intros E. destruct pre; discriminate.
Qed.

(** Below the first key there is no wait, and the outcome depends on
    [globalTimeSync_] alone. *)
Lemma interpolateImu_before s stamp maxWaitTimeMs w t0 v0 rest :
  imuBuffer s (cam w) = (t0, v0) :: rest ->
  StdMap.ascending (imuBuffer s (cam w)) = true -> stamp < t0 ->
  fst (interpolateImu s stamp maxWaitTimeMs w) =
  if globalTimeSync_ (cam w) then None
  else option_map snd (StdMap.rbegin (imuBuffer s (cam w))).
Proof.
  intros Hbuf Hasc Hlt. rewrite interpolateImu_unfold, wait_while_idle.
  - cbn [snd]. now apply (lookupImu_before s stamp maxWaitTimeMs w t0 v0 rest).
  - apply (behind_member _ (t0, v0)); [exact Hasc| |cbn [fst]; lra].
    rewrite Hbuf. now left.
Qed.

(** The value of the last sample is only handed out for a stamp below the
    first key: everywhere else in a buffer the lookup finds the first sample
    or mixes two neighbours, and "between" is never logged. *)
Lemma lookupImu_cases s stamp maxWaitTimeMs w :
  StdMap.ascending (imuBuffer s (cam w)) = true -> imuBuffer s (cam w) <> [] ->
  (behind (imuBuffer s (cam w)) stamp = true /\
   fst (lookupImu s stamp maxWaitTimeMs w) = None) \/
  (exists t0 v0 rest, imuBuffer s (cam w) = (t0, v0) :: rest /\ stamp == t0 /\
                      lookupImu s stamp maxWaitTimeMs w = (Some v0, w)) \/
  (exists t0 v0 rest, imuBuffer s (cam w) = (t0, v0) :: rest /\ stamp < t0 /\
                      fst (lookupImu s stamp maxWaitTimeMs w) =
                      if globalTimeSync_ (cam w) then None
                      else option_map snd (StdMap.rbegin (imuBuffer s (cam w)))) \/
  (exists pre tA vA tB vB post,
      imuBuffer s (cam w) = pre ++ (tA, vA) :: (tB, vB) :: post /\
      tA < stamp /\ stamp <= tB /\
      lookupImu s stamp maxWaitTimeMs w
      = (Some (lerp ((stamp - tA) / (tB - tA)) vA vB), w)).
Proof.
  intros Hasc Hne.
  destruct (buffer_cases _ stamp Hasc Hne)
    as [Hb|[(t0 & v0 & rest & E & Hle)|(pre & tA & vA & tB & vB & post & E & HA & HB)]].
  - left. split; [exact Hb|]. now apply lookupImu_behind.
  - right. destruct (Qeq_dec stamp t0) as [Heq|Hneq].
    + left. exists t0, v0, rest. repeat split; try assumption.
      now apply (lookupImu_first s stamp _ w t0 v0 rest).
    + right. left. exists t0, v0, rest. assert (Hlt : stamp < t0) by lra.
      repeat split; try assumption. now apply (lookupImu_before s stamp _ w t0 v0 rest).
  - right. right. right. exists pre, tA, vA, tB, vB, post.
    repeat split; try assumption.
    now apply (lookupImu_between s stamp _ w pre tA vA tB vB post).
Qed.

(** C1, as the code has it.  When the stream is still behind the stamp after
    the wait, the accelerometer or gyroscope lookup returns nothing and the
    pose lookup leaves the pose null, whatever [globalTimeSync_] is; with no
    callback arriving during the call, [getPoseAndIMU] returns an empty IMU
    as soon as one of the two inertial buffers is behind. *)
Theorem C1_behind_is_unavailable :
  (forall s stamp maxWaitTimeMs w,
      behind (imuBuffer s (cam (snd (wait_while (fun c => behind (imuBuffer s c) stamp)
                                       (Z.to_nat maxWaitTimeMs) w)))) stamp = true ->
      fst (interpolateImu s stamp maxWaitTimeMs w) = None)
  /\ (forall stamp maxWaitTimeMs w,
        behind (poseBuffer_ (cam (snd (wait_while (fun c => behind (poseBuffer_ c) stamp)
                                         (Z.to_nat maxWaitTimeMs) w)))) stamp = true ->
        fst (interpolatePose stamp maxWaitTimeMs w) = None)
  /\ (forall stamp maxWaitTimeMs w,
        sleeps w = [] ->
        behind (accBuffer_ (cam w)) stamp = true \/
        behind (gyroBuffer_ (cam w)) stamp = true ->
        snd (fst (getPoseAndIMU stamp maxWaitTimeMs w)) = None).
Proof.
  split; [|split].
  - intros s stamp mw w Hb. rewrite interpolateImu_unfold.
    now apply lookupImu_behind.
  - intros stamp mw w Hb. rewrite interpolatePose_unfold.
    now apply lookupPose_behind.
  - intros stamp mw w Hq Hb. unfold getPoseAndIMU, bind, get_cam.
    destruct (StdMap.empty (accBuffer_ (cam w)) || StdMap.empty (gyroBuffer_ (cam w)));
      [reflexivity|].
    set (found := (if negb (StdMap.empty (poseBuffer_ (cam w)))
                   then interpolatePose stamp mw else ret None) w).
    assert (Hf : cam (snd found) = cam w /\ sleeps (snd found) = []).
    { unfold found. destruct (negb _); [|now split].
      rewrite interpolatePose_unfold, wait_while_quiet by exact Hq. cbn [snd].
      destruct (lookupPose_frame stamp mw w) as [Hc Hs]. split; [exact Hc|congruence]. }
    destruct found as [fp w1]. cbn [snd] in Hf. destruct Hf as [Hc1 Hs1].
    rewrite interpolateImu_unfold, wait_while_quiet by exact Hs1. cbn [snd].
    pose proof (lookupImu_frame RS2_STREAM_ACCEL stamp mw w1) as Hfr. cbn zeta in Hfr.
    destruct Hfr as (Hg2 & Ha2 & _ & _ & Hs2).
    destruct (lookupImu RS2_STREAM_ACCEL stamp mw w1) as [acc w2] eqn:Eacc.
    cbn [snd] in *.
    destruct acc as [acc|]; [|reflexivity].
    rewrite interpolateImu_unfold, wait_while_quiet by congruence. cbn [snd].
    destruct Hb as [Hb|Hb].
    + exfalso. assert (Hn : fst (lookupImu RS2_STREAM_ACCEL stamp mw w1) = None).
      { apply lookupImu_behind. unfold imuBuffer. cbn. now rewrite Hc1. }
      rewrite Eacc in Hn. discriminate.
    + assert (Hn : fst (lookupImu RS2_STREAM_GYRO stamp mw w2) = None).
      { apply lookupImu_behind. unfold imuBuffer. cbn. now rewrite Hg2, Hc1. }
      destruct (lookupImu RS2_STREAM_GYRO stamp mw w2) as [gyro w3].
      cbn [fst] in Hn. subst gyro. reflexivity.
Qed.

(** C2, as the code has it.  At a stamp before the first key of a buffer the
    pose lookup leaves the pose null in both modes; the accelerometer or
    gyroscope lookup returns nothing under [globalTimeSync_] and the value
    of the last sample of the buffer without it.  Under [globalTimeSync_]
    and with no callback arriving during the call, [getPoseAndIMU] returns
    an empty IMU for a stamp before the first accelerometer sample. *)
Theorem C2_before_earliest :
  (forall s stamp maxWaitTimeMs w t0 v0 rest,
      imuBuffer s (cam w) = (t0, v0) :: rest ->
      StdMap.ascending (imuBuffer s (cam w)) = true -> stamp < t0 ->
      (globalTimeSync_ (cam w) = true ->
       fst (interpolateImu s stamp maxWaitTimeMs w) = None) /\
      (globalTimeSync_ (cam w) = false ->
       exists tl vl, StdMap.rbegin (imuBuffer s (cam w)) = Some (tl, vl) /\
                     fst (interpolateImu s stamp maxWaitTimeMs w) = Some vl))
  /\ (forall stamp maxWaitTimeMs w t0 p0 rest,
        poseBuffer_ (cam w) = (t0, p0) :: rest ->
        StdMap.ascending (poseBuffer_ (cam w)) = true -> stamp < t0 ->
        fst (interpolatePose stamp maxWaitTimeMs w) = None)
  /\ (forall stamp maxWaitTimeMs w t0 v0 rest,
        sleeps w = [] ->
        accBuffer_ (cam w) = (t0, v0) :: rest ->
        StdMap.ascending (accBuffer_ (cam w)) = true -> stamp < t0 ->
        globalTimeSync_ (cam w) = true ->
        snd (fst (getPoseAndIMU stamp maxWaitTimeMs w)) = None).
Proof.
  split; [|split].
  - intros s stamp mw w t0 v0 rest Hbuf Hasc Hlt.
    rewrite (interpolateImu_before s stamp mw w t0 v0 rest) by assumption.
    split; intros Hs; rewrite Hs; [reflexivity|].
    destruct (rbegin_some (imuBuffer s (cam w))) as ([tl vl] & Hl & _);
      [rewrite Hbuf; discriminate|].
    exists tl, vl. rewrite Hl. split; reflexivity.
  - intros stamp mw w t0 p0 rest Hbuf Hasc Hlt.
    rewrite interpolatePose_unfold, wait_while_idle.
    2:{ apply (behind_member _ (t0, p0)); [exact Hasc| |cbn [fst]; lra].
        rewrite Hbuf. now left. }
    cbn [snd]. now apply (lookupPose_before stamp mw w t0 p0 rest).
  - intros stamp mw w t0 v0 rest Hq Hbuf Hasc Hlt Hsync.
    unfold getPoseAndIMU, bind, get_cam.
    destruct (StdMap.empty (accBuffer_ (cam w)) || StdMap.empty (gyroBuffer_ (cam w)));
      [reflexivity|].
    set (found := (if negb (StdMap.empty (poseBuffer_ (cam w)))
                   then interpolatePose stamp mw else ret None) w).
    assert (Hf : cam (snd found) = cam w).
    { unfold found. destruct (negb _); [|reflexivity].
      rewrite interpolatePose_unfold, wait_while_quiet by exact Hq. cbn [snd].
      apply lookupPose_frame. }
    destruct found as [fp w1]. cbn [snd] in Hf.
    assert (Hn : fst (interpolateImu RS2_STREAM_ACCEL stamp mw w1) = None).
    { rewrite (interpolateImu_before RS2_STREAM_ACCEL stamp mw w1 t0 v0 rest);
        unfold imuBuffer; cbn [rs2_stream_eqb]; rewrite ?Hf; try assumption.
      now rewrite Hsync. }
    destruct (interpolateImu RS2_STREAM_ACCEL stamp mw w1) as [acc w2].
    cbn [fst] in Hn. subst acc. reflexivity.
Qed.

(** C4.  With two neighbouring samples [(t0, v0)] and [(t1, v1)] in the
    accelerometer or gyroscope buffer (the only two, or two among others),
    the lookup at [t0 + f * (t1 - t0)], [0 <= f <= 1], finds
    [v0 + f * (v1 - v0)] on each component, as rational numbers. *)
Theorem C4_linear_between_samples s stamp maxWaitTimeMs w pre t0 v0 t1 v1 post f :
  imuBuffer s (cam w) = pre ++ (t0, v0) :: (t1, v1) :: post ->
  StdMap.ascending (imuBuffer s (cam w)) = true ->
  0 <= f -> f <= 1 -> stamp == t0 + f * (t1 - t0) ->
  exists r, fst (interpolateImu s stamp maxWaitTimeMs w) = Some r /\
            vx r == vx v0 + f * (vx v1 - vx v0) /\
            vy r == vy v0 + f * (vy v1 - vy v0) /\
            vz r == vz v0 + f * (vz v1 - vz v0).
Proof.
  intros Hbuf Hasc Hf0 Hf1 Hst.
  assert (Ht : t0 < t1).
  { rewrite Hbuf in Hasc. apply ascending_app_r in Hasc.
    apply ascending_cons in Hasc. destruct Hasc as [Hab _].
    apply (Hab (t1, v1)). now left. }
  destruct (Qlt_le_dec 0 f) as [Hpos|Hzero].
  - assert (HA : t0 < stamp) by (rewrite Hst; nra).
    assert (HB : stamp <= t1) by (rewrite Hst; nra).
    rewrite interpolateImu_unfold, wait_while_idle.
    2:{ apply (behind_member _ (t1, v1)); [exact Hasc| |exact HB].
        rewrite Hbuf. apply in_or_app. right. right. now left. }
    cbn [snd]. rewrite (lookupImu_between s stamp _ w pre t0 v0 t1 v1 post) by assumption.
    eexists. split; [reflexivity|].
    assert (E : (stamp - t0) / (t1 - t0) == f) by (rewrite Hst; field; lra).
    unfold lerp, vx, vy, vz. cbn [fst snd]. rewrite E. repeat split; reflexivity.
  - assert (E : f == 0) by lra.
    destruct (interpolateImu_at_key s stamp maxWaitTimeMs w pre t0 v0 ((t1, v1) :: post))
      as (r & Hr & (Hx & Hy & Hz) & _); [assumption|assumption|rewrite Hst, E; ring|].
    exists r. rewrite Hr. split; [reflexivity|].
    rewrite Hx, Hy, Hz, E. repeat split; ring.
Qed.

(** C5, as the code has it.  At the stamp of a stored sample the
    accelerometer or gyroscope lookup finds that sample's vector (as stored
    when it is the first entry, equal as numbers otherwise); the pose lookup
    returns the first entry as stored, and at a later entry the
    interpolation at ratio 1 from the entry before it, with the confidence
    of the entry before it. *)
Theorem C5_exact_match :
  (forall s stamp maxWaitTimeMs w pre t v post,
      imuBuffer s (cam w) = pre ++ (t, v) :: post ->
      StdMap.ascending (imuBuffer s (cam w)) = true -> stamp == t ->
      exists r, fst (interpolateImu s stamp maxWaitTimeMs w) = Some r /\
                Vec3_eq r v /\ (pre = [] -> r = v))
  /\ (forall stamp maxWaitTimeMs w t p rest,
        poseBuffer_ (cam w) = (t, p) :: rest ->
        StdMap.ascending (poseBuffer_ (cam w)) = true -> stamp == t ->
        fst (interpolatePose stamp maxWaitTimeMs w) = Some p)
  /\ (forall stamp maxWaitTimeMs w pre tP poseP confP t pose conf post,
        poseBuffer_ (cam w) = pre ++ (tP, (poseP, confP)) :: (t, (pose, conf)) :: post ->
        StdMap.ascending (poseBuffer_ (cam w)) = true -> stamp == t ->
        (stamp - tP) / (t - tP) == 1 /\
        fst (interpolatePose stamp maxWaitTimeMs w)
        = Some (Transform_interpolate poseP ((stamp - tP) / (t - tP)) pose, confP)).
Proof.
  split; [|split].
  - intros s stamp mw w pre t v post Hbuf Hasc Heq.
    destruct (interpolateImu_at_key s stamp mw w pre t v post Hbuf Hasc Heq)
      as (r & Hr & Hv & Hfirst).
    exists r. rewrite Hr. split; [reflexivity|split; assumption].
  - intros stamp mw w t p rest Hbuf Hasc Heq.
    rewrite interpolatePose_unfold, wait_while_idle.
    2:{ apply (behind_member _ (t, p)); [exact Hasc| |cbn [fst]; lra].
        rewrite Hbuf. now left. }
    cbn [snd]. now rewrite (lookupPose_first stamp mw w t p rest).
  - intros stamp mw w pre tP poseP confP t pose conf post Hbuf Hasc Heq.
    assert (HP : tP < t).
    { rewrite Hbuf in Hasc. apply ascending_app_r in Hasc.
      apply ascending_cons in Hasc. destruct Hasc as [Hab _].
      apply (Hab (t, (pose, conf))). now left. }
    split; [rewrite Heq; field; lra|].
    rewrite interpolatePose_unfold, wait_while_idle.
    2:{ apply (behind_member _ (t, (pose, conf))); [exact Hasc| |cbn [fst]; lra].
        rewrite Hbuf. apply in_or_app. right. right. now left. }
    cbn [snd].
    rewrite (lookupPose_between stamp mw w pre tP poseP confP t pose conf post)
      by (assumption || lra).
    reflexivity.
Qed.

(** C10.  With an empty accelerometer or gyroscope buffer [getPoseAndIMU]
    returns at once: the pose is null, the confidence 0 and the IMU empty,
    whatever the pose buffer holds, and nothing else has happened. *)
Theorem C10_empty_inertial_buffer stamp maxWaitTimeMs (w : World Transform) :
  accBuffer_ (cam w) = [] \/ gyroBuffer_ (cam w) = [] ->
  getPoseAndIMU stamp maxWaitTimeMs w = ((None, 0%nat, None), w).
Proof.
  intros Hempty. unfold getPoseAndIMU, bind, get_cam.
  destruct Hempty as [E|E]; rewrite E; cbn [StdMap.empty orb];
    [|rewrite orb_true_r]; reflexivity.
Qed.

End EdgeFacts.

(** ** [captureImage]: the frame set and its stamp *)

Section CaptureFacts.
Context {Transform : Type} `{Externals Transform}.
Implicit Types (c : Camera Transform) (w : World Transform) (fs : frameset).

Lemma arrive_stamp c a f :
  stamp (arrive c a f)
  = if Qltb (get_timestamp f) (stamp a) then get_timestamp f else stamp a.
Proof. unfold arrive. break_match; reflexivity. Qed.

Lemma arrivals_stamp c fs : stamp (arrivals c fs) = frameset_stamp fs.
Proof.
  unfold arrivals, frameset_stamp.
  change (fs_timestamp fs) with (stamp (Arrived_init fs)).
  generalize (Arrived_init fs). induction (fs_frames fs) as [|f l IH]; intros a.
  - reflexivity.
  - cbn [fold_left]. rewrite IH, arrive_stamp. reflexivity.
Qed.

Lemma fold_min_le_init (l : list frame) (t : Q) :
  fold_left (fun stamp f => if Qltb (get_timestamp f) stamp then get_timestamp f else stamp)
    l t <= t.
Proof.
  revert t. induction l as [|f l IH]; intros t; cbn [fold_left]; [lra|].
  destruct (Qltb (get_timestamp f) t) eqn:E.
  - apply Qltb_lt in E. specialize (IH (get_timestamp f)). lra.
  - apply IH.
Qed.

Lemma fold_min_le_each (l : list frame) (t : Q) f :
  In f l ->
  fold_left (fun stamp f => if Qltb (get_timestamp f) stamp then get_timestamp f else stamp)
    l t <= get_timestamp f.
Proof.
  revert t. induction l as [|g l IH]; intros t Hin; [destruct Hin|].
  cbn [fold_left]. destruct Hin as [->|Hin]; [|now apply IH].
  destruct (Qltb (get_timestamp f) t) eqn:E.
  - apply fold_min_le_init.
  - apply Qltb_ge in E. pose proof (fold_min_le_init l t). lra.
Qed.

Lemma fold_min_attained (l : list frame) (t : Q) :
  let r := fold_left (fun stamp f => if Qltb (get_timestamp f) stamp
                                     then get_timestamp f else stamp) l t in
  r = t \/ In r (map get_timestamp l).
Proof.
  revert t. induction l as [|f l IH]; intros t; cbn [fold_left map]; [now left|].
  destruct (Qltb (get_timestamp f) t).
  - destruct (IH (get_timestamp f)) as [E|Hin]; right; [left; now symmetry|now right].
  - destruct (IH t) as [E|Hin]; [now left|right; now right].
Qed.

(** C7.  The stamp the loop over a frame set ends with is the least of the
    stamps of its frames, the composite's own stamp being the stamp of one
    of them: it is the stamp of a frame of the set and no frame of the set
    has a smaller one.  [captureImage] converts it to seconds (line 1267)
    before the host clock check. *)
Theorem C7_stamp_is_minimum c fs :
  In (fs_timestamp fs) (map get_timestamp (fs_frames fs)) ->
  stamp (arrivals c fs) = frameset_stamp fs /\
  In (frameset_stamp fs) (map get_timestamp (fs_frames fs)) /\
  (forall f, In f (fs_frames fs) -> frameset_stamp fs <= get_timestamp f).
Proof.
  intros Hown. split; [apply arrivals_stamp|]. split.
  - destruct (fold_min_attained (fs_frames fs) (fs_timestamp fs)) as [E|Hin].
    + unfold frameset_stamp. rewrite E. exact Hown.
    + exact Hin.
  - intros f Hin. now apply fold_min_le_each.
Qed.

Lemma wait_for_frames_spec (r : WaitResult) w :
  fst (wait_for_frames r w) = result r /\
  producers_only w (snd (wait_for_frames r w)).
Proof.
  unfold wait_for_frames, bind, ret.
  pose proof (run_callbacks_producers (delivered r) w) as Hp.
  destruct (run_callbacks (delivered r) w) as [[] w']. now split.
Qed.

Lemma retry_frames_producers desired retries fs w :
  producers_only w (snd (retry_frames desired fs retries w)).
Proof.
  revert fs w. induction retries as [|r retries IH]; intros fs w; cbn [retry_frames].
  - destruct (_ =? _)%nat; apply producers_only_refl.
  - destruct (_ =? _)%nat; [apply producers_only_refl|].
    unfold bind. destruct (wait_for_frames_spec r w) as [Hr Hp].
    destruct (wait_for_frames r w) as [got w1]. cbn [fst snd] in *.
    destruct got as [fs'|]; [|exact Hp].
    eapply producers_only_trans; [exact Hp|apply IH].
Qed.

(** A frame set the retry loop ends with is the first one or the outcome
    of a retry. *)
Lemma retry_frames_origin desired retries fs0 w fs :
  fst (retry_frames desired fs0 retries w) = Some fs ->
  fs = fs0 \/ In (Some fs) (map result retries).
Proof.
  revert fs0 w. induction retries as [|r retries IH]; intros fs0 w; cbn [retry_frames].
  - destruct (_ =? _)%nat; cbn; intros E; injection E as <-; now left.
  - destruct (_ =? _)%nat; [cbn; intros E; injection E as <-; now left|].
    unfold bind. destruct (wait_for_frames_spec r w) as [Hr _].
    destruct (wait_for_frames r w) as [got w1]. cbn [fst] in Hr. subst got.
    destruct (result r) as [fs'|] eqn:Er; [|discriminate].
    intros E. right. cbn [map]. rewrite Er.
    destruct (IH _ _ E) as [->|Hin]; [now left|now right].
Qed.

Lemma last_cons_default {A} (x d : A) (l : list A) : last (x :: l) d = last l x.
Proof.
  revert x d. induction l as [|y l IH]; intros x d; [reflexivity|].
  change (last (x :: y :: l) d) with (last (y :: l) d). now rewrite !IH.
Qed.



End CaptureFacts.

(** ** Steps of a session *)

Section Steps.
Context {Transform : Type} `{Externals Transform}.
Implicit Types (c : Camera Transform) (w : World Transform).

Lemma silent_refl w : silent w w.
Proof. unfold silent. repeat split. Qed.

Lemma producers_silent w w' : producers_only w w' -> silent w w'.
Proof. unfold producers_only, silent. intuition. Qed.

(** A relation on states that composes, holds of silent steps, and holds of
    the three places where latched or unlatched warnings are written. *)
Variable R : World Transform -> World Transform -> Prop.
Hypothesis R_trans : forall w1 w2 w3, R w1 w2 -> R w2 w3 -> R w1 w3.
Hypothesis R_silent : forall w w', silent w w' -> R w w'.
Hypothesis R_lookupImu : forall s stamp maxWaitTimeMs, steps R (lookupImu s stamp maxWaitTimeMs).
Hypothesis R_lookupPose : forall stamp maxWaitTimeMs, steps R (lookupPose stamp maxWaitTimeMs).
Hypothesis R_clock_check : forall stamp now, steps R (clock_check stamp now).
Hypothesis R_error :
  forall m w, match m with
              | ErrNotReceived | ErrMissingFrames _ | ErrFrameCallback
              | ErrDualModeDisabled => True
              | _ => False
              end -> R w (snd (say m w)).

Lemma steps_ret {A} (a : A) : steps R (ret a).
Proof. intros w. apply R_silent, silent_refl. Qed.

Lemma steps_bind {A B} (m : M Transform A) (k : A -> M Transform B) :
  steps R m -> (forall a, steps R (k a)) -> steps R (bind m k).
Proof.
  intros Hm Hk w. unfold bind. specialize (Hm w).
  destruct (m w) as [a w1]. cbn [snd] in Hm.
  eapply R_trans; [exact Hm|apply Hk].
Qed.

Lemma steps_when b (m : M Transform unit) : steps R m -> steps R (when b m).
Proof. intros Hm. destruct b; [exact Hm|apply steps_ret]. Qed.

Lemma steps_get_cam : steps R get_cam.
Proof. intros w. apply R_silent, silent_refl. Qed.

Lemma steps_silent_cam (f : Camera Transform -> Camera Transform) :
  (forall c, clockSyncWarningShown_ (f c) = clockSyncWarningShown_ c /\
             imuGlobalSyncWarningShown_ (f c) = imuGlobalSyncWarningShown_ c /\
             globalTimeSync_ (f c) = globalTimeSync_ c) ->
  steps R (modify_cam f).
Proof.
  intros Hf w. apply R_silent. unfold silent. cbn.
  destruct (Hf (cam w)) as (H1 & H2 & H3). now repeat split.
Qed.

Lemma steps_post e : steps R (post e).
Proof. intros w. apply R_silent. unfold silent. cbn. repeat split. Qed.

Lemma steps_set_imuMutexHeld b : steps R (set_imuMutexHeld b).
Proof. intros w. apply R_silent. unfold silent. cbn. repeat split. Qed.

Lemma steps_set_sleeps schedule : steps R (set_sleeps schedule).
Proof. intros w. apply R_silent. unfold silent. cbn. repeat split. Qed.

Lemma steps_callback f : steps R (multiple_message_callback f).
Proof. intros w. apply R_silent, producers_silent, callback_producers. Qed.

Lemma steps_run_callbacks fs : steps R (run_callbacks fs).
Proof. intros w. apply R_silent, producers_silent, run_callbacks_producers. Qed.

Lemma steps_wait_while lagging tries : steps R (wait_while lagging tries).
Proof. intros w. apply R_silent, producers_silent, wait_while_producers. Qed.

Lemma steps_wait_for_frames r : steps R (wait_for_frames r).
Proof. intros w. apply R_silent, producers_silent, wait_for_frames_spec. Qed.

Lemma steps_retry_frames desired fs retries : steps R (retry_frames desired fs retries).
Proof. intros w. apply R_silent, producers_silent, retry_frames_producers. Qed.

Lemma steps_getNextSeqID : steps R getNextSeqID.
Proof.
  unfold getNextSeqID. apply steps_bind; [apply steps_get_cam|intros c].
  apply steps_bind; [|intros; apply steps_ret].
  apply steps_silent_cam. intros c'. cbn. repeat split.
Qed.

Lemma steps_interpolateImu s stamp maxWaitTimeMs :
  steps R (interpolateImu s stamp maxWaitTimeMs).
Proof.
  unfold interpolateImu. apply steps_bind; [apply steps_wait_while|intros; apply R_lookupImu].
Qed.

Lemma steps_interpolatePose stamp maxWaitTimeMs :
  steps R (interpolatePose stamp maxWaitTimeMs).
Proof.
  unfold interpolatePose. apply steps_bind; [apply steps_wait_while|intros; apply R_lookupPose].
Qed.

Lemma steps_getPoseAndIMU stamp maxWaitTimeMs : steps R (getPoseAndIMU stamp maxWaitTimeMs).
Proof.
  unfold getPoseAndIMU. apply steps_bind; [apply steps_get_cam|intros c].
  destruct (_ || _); [apply steps_ret|].
  apply steps_bind.
  { destruct (negb _); [apply steps_interpolatePose|apply steps_ret]. }
  intros found. apply steps_bind; [apply steps_interpolateImu|intros [acc|]].
  - apply steps_bind; [apply steps_interpolateImu|intros [gyro|]]; apply steps_ret.
  - apply steps_ret.
Qed.

Lemma steps_publish_loop stamps : steps R (publish_loop stamps).
Proof.
  induction stamps as [|t rest IH]; cbn [publish_loop]; [apply steps_ret|].
  apply steps_bind; [apply steps_getPoseAndIMU|intros r].
  destruct (snd r); [|apply steps_ret].
  apply steps_bind; [apply steps_post|intros _; exact IH].
Qed.

Lemma steps_publish_inter_imu imuStamp : steps R (publish_inter_imu imuStamp).
Proof.
  unfold publish_inter_imu. apply steps_bind; [apply steps_get_cam|intros c].
  destruct (Qltb 0 _).
  - destruct (Qltb _ _); [|apply steps_ret].
    apply steps_bind; [apply steps_set_imuMutexHeld|intros _].
    apply steps_bind; [apply steps_when, steps_publish_loop|intros _].
    apply steps_bind; [apply steps_set_imuMutexHeld|intros _].
    apply steps_bind; [|intros _; apply steps_ret].
    apply steps_silent_cam. intros c'. cbn. repeat split.
  - apply steps_bind; [|intros _; apply steps_ret].
    apply steps_silent_cam. intros c'. cbn. repeat split.
Qed.

Lemma steps_say_error m :
  match m with
  | ErrNotReceived | ErrMissingFrames _ | ErrFrameCallback | ErrDualModeDisabled => True
  | _ => False
  end -> steps R (say m).
Proof. intros Hm w. now apply R_error. Qed.

Lemma steps_assemble a stamp : steps R (assemble a stamp).
Proof.
  unfold assemble. apply steps_bind; [apply steps_get_cam|intros c].
  destruct (_ && _).
  - apply steps_bind; [apply steps_getNextSeqID|intros; apply steps_ret].
  - destruct (_ && _).
    + apply steps_bind; [apply steps_getNextSeqID|intros; apply steps_ret].
    + apply steps_bind; [now apply steps_say_error|intros; apply steps_ret].
Qed.

Lemma steps_fuse a stamp : steps R (fuse a stamp).
Proof.
  unfold fuse.
  apply steps_bind; [apply steps_assemble|intros data].
  apply steps_bind; [apply steps_getPoseAndIMU|intros r].
  apply steps_bind; [apply steps_get_cam|intros c'].
  destruct (_ && _); [apply steps_ret|].
  destruct (_ && _); [|apply steps_ret].
  apply steps_bind; [apply steps_publish_inter_imu|intros ok].
  apply steps_bind; [|intros; apply steps_ret].
  apply steps_when. now apply steps_say_error.
Qed.

Lemma steps_on_frameset fs now : steps R (on_frameset fs now).
Proof.
  unfold on_frameset. apply steps_bind; [apply steps_get_cam|intros c].
  apply steps_bind; [apply R_clock_check|intros stamp']. apply steps_fuse.
Qed.

Lemma steps_captureImage first retries now : steps R (captureImage first retries now).
Proof.
  unfold captureImage. apply steps_bind; [apply steps_wait_for_frames|intros [fs0|]].
  - apply steps_bind; [apply steps_get_cam|intros c].
    apply steps_bind; [apply steps_retry_frames|intros [fs|]].
    + destruct (_ =? _)%nat; [apply steps_on_frameset|].
      apply steps_bind; [now apply steps_say_error|intros; apply steps_ret].
    + apply steps_bind; [now apply steps_say_error|intros; apply steps_ret].
  - apply steps_bind; [now apply steps_say_error|intros; apply steps_ret].
Qed.

(** Sessions made of operations that [R] admits. *)
Variable admitted : Op -> bool.
Hypothesis R_set_sync :
  forall e w, admitted (SetGlobalTimeSync e) = true ->
              R w (snd (modify_cam (setGlobalTimeSync e) w)).

Lemma steps_run_op op w : admitted op = true -> R w (run_op op w).
Proof.
  intros Hop. destruct op; cbn [run_op].
  - apply steps_callback.
  - apply steps_bind; [apply steps_set_sleeps|intros _; apply steps_captureImage].
  - apply steps_silent_cam. intros c'. cbn. repeat split.
  - now apply R_set_sync.
  - apply steps_silent_cam. intros c'. cbn. repeat split.
  - apply steps_silent_cam. intros c'. cbn. repeat split.
  - unfold callSetOdomProvided.
    apply steps_bind; [apply steps_get_cam|intros c].
    apply steps_bind; [apply steps_when; intros w'; now apply R_error|intros _].
    apply steps_silent_cam. intros c'. cbn. repeat split.
Qed.

Lemma steps_run_session ops w :
  forallb admitted ops = true -> R w (run_session ops w).
Proof.
  revert w. induction ops as [|op ops IH]; intros w Hops.
  - apply R_silent, silent_refl.
  - cbn [forallb] in Hops. apply andb_true_iff in Hops. destruct Hops as [Hop Hops].
    cbn [run_session fold_left]. eapply R_trans; [apply steps_run_op, Hop|].
    now apply IH.
Qed.

End Steps.

(** ** What each place that logs does *)

Section Effects.
Context {Transform : Type} `{Externals Transform}.
Implicit Types (c : Camera Transform) (w : World Transform).

Lemma count_app kind (l1 l2 : list Msg) :
  count kind (l1 ++ l2) = (count kind l1 + count kind l2)%nat.
Proof. unfold count. now rewrite filter_app, length_app. Qed.

Lemma once_trans latch kind w1 w2 w3 :
  once latch kind w1 w2 -> once latch kind w2 w3 -> once latch kind w1 w3.
Proof.
  intros (Hm1 & msgs1 & Hl1 & Hc1 & Hs1) (Hm2 & msgs2 & Hl2 & Hc2 & Hs2).
  split; [auto|]. exists (msgs1 ++ msgs2).
  split; [now rewrite Hl2, Hl1, app_assoc|].
  rewrite count_app. destruct (latch (cam w1)) eqn:E1.
  - rewrite Hm1 in Hc2 by reflexivity. split; [lia|]. intros _. auto.
  - destruct (Nat.eq_dec (count kind msgs1) 0) as [Z1|NZ1].
    + rewrite Z1. split; [destruct (latch (cam w2)); lia|]. cbn. exact Hs2.
    + assert (L2 : latch (cam w2) = true) by (apply Hs1; lia).
      rewrite L2 in Hc2. split; [lia|]. intros _. auto.
Qed.

(** A step that keeps the latch and adds no message of the kind. *)
Lemma once_quiet latch kind w w' msgs :
  latch (cam w') = latch (cam w) -> log w' = log w ++ msgs -> count kind msgs = 0%nat ->
  once latch kind w w'.
Proof.
  intros Hl Hlog Hc. split; [congruence|]. exists msgs.
  split; [exact Hlog|]. rewrite Hc. split; [destruct (latch (cam w)); lia|lia].
Qed.

Lemma once_lenient_trans latch kind w1 w2 w3 :
  once_lenient latch kind w1 w2 -> once_lenient latch kind w2 w3 ->
  once_lenient latch kind w1 w3.
Proof.
  intros H12 H23 Hs. destruct (H12 Hs) as [Hs2 Ho12]. destruct (H23 Hs2) as [Hs3 Ho23].
  split; [exact Hs3|]. eapply once_trans; eassumption.
Qed.

(** The accelerometer and gyroscope lookups: the clock latch and
    [globalTimeSync_] stay; the messages are none of the clock's; "only
    shown once" is shown under the latch; and so are the "Are sensors
    synchronized?" warnings while [globalTimeSync_] is off. *)
Lemma lookupImu_effect s stamp maxWaitTimeMs w :
  let w' := snd (lookupImu s stamp maxWaitTimeMs w) in
  clockSyncWarningShown_ (cam w') = clockSyncWarningShown_ (cam w) /\
  globalTimeSync_ (cam w') = globalTimeSync_ (cam w) /\
  (imuGlobalSyncWarningShown_ (cam w) = true ->
   imuGlobalSyncWarningShown_ (cam w') = true) /\
  exists msgs,
    log w' = log w ++ msgs /\
    count is_clock_warning msgs = 0%nat /\
    (count is_restamp_warning msgs
     <= if imuGlobalSyncWarningShown_ (cam w) then 0 else 1)%nat /\
    (0 < count is_restamp_warning msgs -> imuGlobalSyncWarningShown_ (cam w') = true)%nat /\
    (globalTimeSync_ (cam w) = false ->
     (count is_desync_warning msgs
      <= if imuGlobalSyncWarningShown_ (cam w) then 0 else 1)%nat /\
     (0 < count is_desync_warning msgs ->
      imuGlobalSyncWarningShown_ (cam w') = true)%nat).
Proof.
  cbv zeta. unfold lookupImu, bind, get_cam, when, say, modify_cam, ret.
  destruct (imuGlobalSyncWarningShown_ (cam w)) eqn:Elatch;
    destruct (globalTimeSync_ (cam w)) eqn:Esync; cbn [negb];
    break_match; invert_pairs;
    (split; [reflexivity|]); (split; [assumption || reflexivity|]);
    (split; [congruence|]);
    first [ exists []; split; [now rewrite app_nil_r|]
          | eexists; split; [rewrite <- ?app_assoc; reflexivity|] ];
    destruct s; cbn; repeat split; intros; try assumption; try reflexivity;
    try discriminate; try lia.
Qed.

(** Once the latch is set, the accelerometer and gyroscope lookups log no
    "Are sensors synchronized?" any more, whatever [globalTimeSync_] is
    (lines 346 and 427). *)
Lemma lookupImu_latched s stamp maxWaitTimeMs :
  steps (stays_quiet imuGlobalSyncWarningShown_ is_desync_warning)
    (lookupImu (Transform := Transform) s stamp maxWaitTimeMs).
Proof.
  intros w Hl. unfold lookupImu, bind, get_cam, when, say, modify_cam, ret.
  rewrite Hl. cbn [negb].
  break_match; invert_pairs; cbn [cam log snd]; (split; [exact Hl|]);
    unfold count; cbn [log]; rewrite ?filter_app, ?length_app; cbn; lia.
Qed.

(** Only the path without [globalTimeSync_] sets the latch (lines 357-363
    and 438-444). *)
Lemma lookupImu_strict s stamp maxWaitTimeMs :
  steps strict_keeps_latch (lookupImu (Transform := Transform) s stamp maxWaitTimeMs).
Proof.
  intros w Hsync. unfold lookupImu, bind, get_cam, when, say, modify_cam, ret.
  rewrite Hsync. cbn [negb].
  break_match; invert_pairs; cbn [cam snd]; split; first [exact Hsync|reflexivity].
Qed.

(** Under [globalTimeSync_] with the latch clear, a lookup below the first
    key logs "(earliest is ...). Are sensors synchronized?" and changes
    nothing else: the latch stays clear. *)
Lemma interpolateImu_unlatched s stamp maxWaitTimeMs w t0 v0 rest :
  globalTimeSync_ (cam w) = true -> imuGlobalSyncWarningShown_ (cam w) = false ->
  imuBuffer s (cam w) = (t0, v0) :: rest ->
  StdMap.ascending (imuBuffer s (cam w)) = true -> stamp < t0 ->
  interpolateImu s stamp maxWaitTimeMs w = (None, snd (say (WarnEarliest s) w)).
Proof.
  intros Hsync Hlatch Hbuf Hasc Hlt.
  assert (Hb : behind (imuBuffer s (cam w)) stamp = false).
  { apply (behind_member _ (t0, v0)); [exact Hasc| |cbn [fst]; lra].
    rewrite Hbuf. now left. }
  rewrite interpolateImu_unfold, wait_while_idle by exact Hb. cbn [snd].
  unfold lookupImu, bind, get_cam. rewrite Hb, Hbuf, bracket_first by lra.
  cbn [StdMap.deref nth_error Nat.eqb andb].
  assert (E0 : Qeqb stamp t0 = false) by (apply Qeqb_neq; lra).
  assert (E1 : Qleb t0 stamp = false).
  { destruct (Qleb t0 stamp) eqn:E; [apply Qleb_le in E; lra|reflexivity]. }
  assert (E2 : Qltb stamp t0 = true) by (now apply Qltb_lt).
  rewrite E0, E1, E2, Hsync, Hlatch. reflexivity.
Qed.

(** The pose lookup only logs, and only the warnings of the pose. *)
Lemma lookupPose_effect stamp maxWaitTimeMs w :
  let w' := snd (lookupPose stamp maxWaitTimeMs w) in
  cam w' = cam w /\
  exists msgs,
    log w' = log w ++ msgs /\
    count is_clock_warning msgs = 0%nat /\
    count is_restamp_warning msgs = 0%nat /\
    count is_desync_warning msgs = 0%nat.
Proof.
  cbv zeta. unfold lookupPose, bind, get_cam, when, say, modify_cam, ret.
  break_match; invert_pairs; (split; [reflexivity|]);
    first [ exists []; split; [now rewrite app_nil_r|]
          | eexists; split; [rewrite <- ?app_assoc; reflexivity|] ];
    cbn; repeat split.
Qed.

(** The host clock check: the warning is logged exactly when the stamp is
    too far ahead and the latch is not set; the latch is set then. *)
Lemma clock_check_effect stamp now w :
  let w' := snd (clock_check stamp now w) in
  fst (clock_check stamp now w) = (if Qltb 1000000000 (stamp - now) then now else stamp) /\
  imuGlobalSyncWarningShown_ (cam w') = imuGlobalSyncWarningShown_ (cam w) /\
  globalTimeSync_ (cam w') = globalTimeSync_ (cam w) /\
  clockSyncWarningShown_ (cam w')
  = clockSyncWarningShown_ (cam w) || Qltb 1000000000 (stamp - now) /\
  log w' = log w ++ (if Qltb 1000000000 (stamp - now) && negb (clockSyncWarningShown_ (cam w))
                     then [WarnClocksNotSync] else []).
Proof.
  cbv zeta. unfold clock_check, bind, get_cam, when, say, modify_cam, ret.
  destruct (Qltb 1000000000 (stamp - now)); cbn [andb].
  - destruct (clockSyncWarningShown_ (cam w)) eqn:E; cbn; rewrite ?E;
      repeat split; now rewrite ?app_nil_r.
  - cbn. rewrite orb_false_r, app_nil_r. repeat split.
Qed.

Lemma clock_check_once stamp now :
  steps (once clockSyncWarningShown_ is_clock_warning)
    (clock_check (Transform := Transform) stamp now).
Proof.
  intros w. destruct (clock_check_effect stamp now w) as (_ & _ & _ & Hl & Hlog).
  split; [intros E; rewrite Hl, E; reflexivity|].
  eexists. split; [exact Hlog|].
  destruct (Qltb _ _), (clockSyncWarningShown_ (cam w)) eqn:E; cbn;
    rewrite ?Hl, ?E; cbn; split; auto; lia.
Qed.

End Effects.

(** ** The latched warnings over a session *)

Section SessionFacts.
Context {Transform : Type} `{Externals Transform}.
Implicit Types (c : Camera Transform) (w : World Transform).


Lemma adds_none_once latch kind w w' : adds_none latch kind w w' -> once latch kind w w'.
Proof. intros (Hl & msgs & Hlog & Hc). now apply (once_quiet latch kind w w' msgs). Qed.

(** *** The clock warning *)

Lemma clock_silent w w' : silent w w' -> adds_none clockSyncWarningShown_ is_clock_warning w w'.
Proof.
  intros (Hlog & Hc & _). split; [exact Hc|]. exists []. now rewrite app_nil_r.
Qed.

Lemma clock_lookupImu s stamp maxWaitTimeMs :
  steps (adds_none clockSyncWarningShown_ is_clock_warning)
    (lookupImu (Transform := Transform) s stamp maxWaitTimeMs).
Proof.
  intros w. destruct (lookupImu_effect s stamp maxWaitTimeMs w)
    as (Hc & _ & _ & msgs & Hlog & Hk & _).
  split; [exact Hc|]. now exists msgs.
Qed.

Lemma clock_lookupPose stamp maxWaitTimeMs :
  steps (adds_none clockSyncWarningShown_ is_clock_warning)
    (lookupPose (Transform := Transform) stamp maxWaitTimeMs).
Proof.
  intros w. destruct (lookupPose_effect stamp maxWaitTimeMs w)
    as (Hc & msgs & Hlog & Hk & _).
  split; [now rewrite Hc|]. now exists msgs.
Qed.

Lemma clock_error m w :
  match m with
  | ErrNotReceived | ErrMissingFrames _ | ErrFrameCallback | ErrDualModeDisabled => True
  | _ => False
  end -> adds_none clockSyncWarningShown_ is_clock_warning w (snd (say m w)).
Proof.
  intros Hm. split; [reflexivity|]. exists [m]. split; [reflexivity|].
  destruct m; try destruct Hm; reflexivity.
Qed.


Lemma session_clock_once ops w :
  once clockSyncWarningShown_ is_clock_warning w (run_session ops w).
Proof.
  apply (steps_run_session (once clockSyncWarningShown_ is_clock_warning)) with
    (admitted := fun _ => true).
  - apply once_trans.
  - intros w1 w2 Hs. now apply adds_none_once, clock_silent.
  - intros s stamp mw w1. apply adds_none_once, clock_lookupImu.
  - intros stamp mw w1. apply adds_none_once, clock_lookupPose.
  - apply clock_check_once.
  - intros m w1 Hm. now apply adds_none_once, clock_error.
  - intros e w1 _. apply adds_none_once. split; [reflexivity|].
    exists []. cbn. now rewrite app_nil_r.
  - now induction ops.
Qed.

(** *** "This message is only shown once" *)

Lemma restamp_silent w w' :
  silent w w' -> adds_none imuGlobalSyncWarningShown_ is_restamp_warning w w'.
Proof.
  intros (Hlog & _ & Hi & _). split; [exact Hi|]. exists []. now rewrite app_nil_r.
Qed.

Lemma restamp_lookupImu s stamp maxWaitTimeMs :
  steps (once imuGlobalSyncWarningShown_ is_restamp_warning)
    (lookupImu (Transform := Transform) s stamp maxWaitTimeMs).
Proof.
  intros w. destruct (lookupImu_effect s stamp maxWaitTimeMs w)
    as (_ & _ & Hm & msgs & Hlog & _ & Hle & Hset & _).
  split; [exact Hm|]. now exists msgs.
Qed.

Lemma session_restamp_once ops w :
  once imuGlobalSyncWarningShown_ is_restamp_warning w (run_session ops w).
Proof.
  apply (steps_run_session (once imuGlobalSyncWarningShown_ is_restamp_warning)) with
    (admitted := fun _ => true).
  - apply once_trans.
  - intros w1 w2 Hs. now apply adds_none_once, restamp_silent.
  - apply restamp_lookupImu.
  - intros stamp mw w1. destruct (lookupPose_effect stamp mw w1)
      as (Hc & msgs & Hlog & _ & Hk & _).
    apply (once_quiet _ _ _ _ msgs); [now rewrite Hc|exact Hlog|exact Hk].
  - intros stamp now w1.
    destruct (clock_check_effect stamp now w1) as (_ & Hi & _ & _ & Hlog).
    eapply once_quiet; [exact Hi|exact Hlog|].
    destruct (_ && _); reflexivity.
  - intros m w1 Hm. apply (once_quiet _ _ _ _ [m]); [reflexivity|reflexivity|].
    destruct m; try destruct Hm; reflexivity.
  - intros e w1 _. apply (once_quiet _ _ _ _ []); [reflexivity| |reflexivity].
    cbn. now rewrite app_nil_r.
  - now induction ops.
Qed.

(** *** "Are sensors synchronized?" while [globalTimeSync_] is off *)

Lemma lenient_quiet w w' msgs :
  globalTimeSync_ (cam w') = globalTimeSync_ (cam w) ->
  imuGlobalSyncWarningShown_ (cam w') = imuGlobalSyncWarningShown_ (cam w) ->
  log w' = log w ++ msgs -> count is_desync_warning msgs = 0%nat ->
  once_lenient imuGlobalSyncWarningShown_ is_desync_warning w w'.
Proof.
  intros Hs Hi Hlog Hk Hoff. split; [congruence|].
  now apply (once_quiet _ _ _ _ msgs).
Qed.

Lemma session_desync_once ops w :
  forallb (fun op => negb (enables_sync op)) ops = true ->
  once_lenient imuGlobalSyncWarningShown_ is_desync_warning w (run_session ops w).
Proof.
  apply (steps_run_session (once_lenient imuGlobalSyncWarningShown_ is_desync_warning)).
  - apply once_lenient_trans.
  - intros w1 w2 (Hlog & _ & Hi & Hs).
    apply (lenient_quiet _ _ []); [exact Hs|exact Hi| |reflexivity].
    now rewrite app_nil_r.
  - intros s stamp mw w1 Hoff. destruct (lookupImu_effect s stamp mw w1)
      as (_ & Hs & Hm & msgs & Hlog & _ & _ & _ & Hd).
    split; [congruence|]. destruct (Hd Hoff) as [Hle Hset].
    split; [exact Hm|]. now exists msgs.
  - intros stamp mw w1. destruct (lookupPose_effect stamp mw w1)
      as (Hc & msgs & Hlog & _ & _ & Hk).
    apply (lenient_quiet _ _ msgs); [now rewrite Hc|now rewrite Hc|exact Hlog|exact Hk].
  - intros stamp now w1.
    destruct (clock_check_effect stamp now w1) as (_ & Hi & Hs & _ & Hlog).
    eapply lenient_quiet; [exact Hs|exact Hi|exact Hlog|].
    destruct (_ && _); reflexivity.
  - intros m w1 Hm. apply (lenient_quiet _ _ [m]); [reflexivity|reflexivity|reflexivity|].
    destruct m; try destruct Hm; reflexivity.
  - intros e w1 He. destruct e; [discriminate|].
    intros Hoff. split; [reflexivity|].
    apply (once_quiet _ _ _ _ []); [reflexivity| |reflexivity].
    cbn. now rewrite app_nil_r.
Qed.

(** *** "Are sensors synchronized?" once the latch is set *)

Lemma stays_quiet_same latch kind w w' msgs :
  latch (cam w') = latch (cam w) -> log w' = log w ++ msgs -> count kind msgs = 0%nat ->
  stays_quiet latch kind w w'.
Proof.
  intros Hl Hlog Hk Hset. split; [congruence|]. rewrite Hlog, count_app. lia.
Qed.

Lemma session_stays_quiet ops w :
  stays_quiet imuGlobalSyncWarningShown_ is_desync_warning w (run_session ops w).
Proof.
  apply (steps_run_session (stays_quiet imuGlobalSyncWarningShown_ is_desync_warning)) with
    (admitted := fun _ => true).
  - intros w1 w2 w3 H12 H23 Hset. destruct (H12 Hset) as [Hset2 E2].
    destruct (H23 Hset2) as [Hset3 E3]. split; [exact Hset3|congruence].
  - intros w1 w2 (Hlog & _ & Hi & _).
    apply (stays_quiet_same _ _ _ _ []); [exact Hi|now rewrite app_nil_r|reflexivity].
  - apply lookupImu_latched.
  - intros stamp mw w1. destruct (lookupPose_effect stamp mw w1)
      as (Hc & msgs & Hlog & _ & _ & Hk).
    apply (stays_quiet_same _ _ _ _ msgs); [now rewrite Hc|exact Hlog|exact Hk].
  - intros stamp now w1.
    destruct (clock_check_effect stamp now w1) as (_ & Hi & _ & _ & Hlog).
    eapply stays_quiet_same; [exact Hi|exact Hlog|].
    destruct (_ && _); reflexivity.
  - intros m w1 Hm. apply (stays_quiet_same _ _ _ _ [m]); [reflexivity|reflexivity|].
    destruct m; try destruct Hm; reflexivity.
  - intros e w1 _. apply (stays_quiet_same _ _ _ _ []); [reflexivity| |reflexivity].
    cbn. now rewrite app_nil_r.
  - now induction ops.
Qed.

(** *** The latch under [globalTimeSync_] *)

Lemma session_strict_keeps_latch ops w :
  forallb (fun op => negb (disables_sync op)) ops = true ->
  strict_keeps_latch w (run_session ops w).
Proof.
  apply (steps_run_session strict_keeps_latch).
  - intros w1 w2 w3 H12 H23 Hs. destruct (H12 Hs) as [Hs2 E2].
    destruct (H23 Hs2) as [Hs3 E3]. split; [exact Hs3|congruence].
  - intros w1 w2 (_ & _ & Hi & Hs) Hon. split; congruence.
  - apply lookupImu_strict.
  - intros stamp mw w1 Hon. destruct (lookupPose_effect stamp mw w1) as (Hc & _).
    rewrite Hc. now split.
  - intros stamp now w1 Hon.
    destruct (clock_check_effect stamp now w1) as (_ & Hi & Hs & _). split; congruence.
  - intros m w1 _ Hon. now split.
  - intros e w1 He Hon. destruct e; [|discriminate]. now split.
Qed.

(** From a state with an empty log and the latch clear, at most one. *)
Lemma once_from_start latch kind w w' :
  log w = [] -> once latch kind w w' -> (count kind (log w') <= 1)%nat.
Proof.
  intros Hlog (_ & msgs & Hl & Hc & _). rewrite Hl, Hlog. cbn [app].
  destruct (latch (cam w)); lia.
Qed.

(** C6, as the code has it.  In a session, that is after [init] and until
    the next one, the clock warning is logged at most once, and so is "This
    message is only shown once".  The "Are sensors synchronized?" warnings of
    the accelerometer and the gyroscope are written under the latch
    [imuGlobalSyncWarningShown_] in both modes, and only the path without
    [globalTimeSync_] sets it: they are logged at most once as long as
    [globalTimeSync_] is off; once the latch is set none is logged any more,
    whatever [globalTimeSync_] becomes; and under [globalTimeSync_] with the
    latch clear, every lookup below the first key of its buffer logs the
    warning again and leaves the latch clear, as does every session that
    does not turn [globalTimeSync_] off.  No operation of a session clears a
    latch, and [init] clears both. *)
Theorem C6_latched_warnings :
  (forall l500 c ops,
      (count is_clock_warning (log (run_session ops (start_session l500 c))) <= 1)%nat /\
      (count is_restamp_warning (log (run_session ops (start_session l500 c))) <= 1)%nat)
  /\ (forall l500 c ops,
        globalTimeSync_ c = false ->
        forallb (fun op => negb (enables_sync op)) ops = true ->
        (count is_desync_warning (log (run_session ops (start_session l500 c))) <= 1)%nat)
  /\ (forall ops w,
        (clockSyncWarningShown_ (cam w) = true ->
         clockSyncWarningShown_ (cam (run_session ops w)) = true) /\
        (imuGlobalSyncWarningShown_ (cam w) = true ->
         imuGlobalSyncWarningShown_ (cam (run_session ops w)) = true))
  /\ (forall l500 c,
        clockSyncWarningShown_ (init l500 c) = false /\
        imuGlobalSyncWarningShown_ (init l500 c) = false)
  /\ (forall ops w,
        imuGlobalSyncWarningShown_ (cam w) = true ->
        count is_desync_warning (log (run_session ops w))
        = count is_desync_warning (log w))
  /\ (forall s stamp maxWaitTimeMs w t0 v0 rest,
        globalTimeSync_ (cam w) = true -> imuGlobalSyncWarningShown_ (cam w) = false ->
        imuBuffer s (cam w) = (t0, v0) :: rest ->
        StdMap.ascending (imuBuffer s (cam w)) = true -> stamp < t0 ->
        let w' := snd (interpolateImu s stamp maxWaitTimeMs w) in
        fst (interpolateImu s stamp maxWaitTimeMs w) = None /\
        log w' = log w ++ [WarnEarliest s] /\
        cam w' = cam w)
  /\ (forall ops w,
        globalTimeSync_ (cam w) = true ->
        forallb (fun op => negb (disables_sync op)) ops = true ->
        imuGlobalSyncWarningShown_ (cam (run_session ops w))
        = imuGlobalSyncWarningShown_ (cam w)).
Proof.
  split; [|split; [|split; [|split; [|split; [|split]]]]].
  - intros l500 c ops. split.
    + apply (once_from_start clockSyncWarningShown_ _ (start_session l500 c));
        [reflexivity|apply session_clock_once].
    + apply (once_from_start imuGlobalSyncWarningShown_ _ (start_session l500 c));
        [reflexivity|apply session_restamp_once].
  - intros l500 c ops Hoff Hops.
    destruct (session_desync_once ops (start_session l500 c) Hops) as [_ Ho].
    + cbn. destruct l500; exact Hoff.
    + now apply (once_from_start imuGlobalSyncWarningShown_ _ (start_session l500 c)).
  - intros ops w. split.
    + apply (session_clock_once ops w).
    + apply (session_restamp_once ops w).
  - intros l500 c. destruct l500; split; reflexivity.
  - intros ops w Hset. now apply (session_stays_quiet ops w).
  - intros s stamp mw w t0 v0 rest Hsync Hlatch Hbuf Hasc Hlt. cbv zeta.
    rewrite (interpolateImu_unlatched s stamp mw w t0 v0 rest) by assumption.
    repeat split.
  - intros ops w Hon Hops. now apply (session_strict_keeps_latch ops w Hops).
Qed.




End SessionFacts.

(** ** Instances on concrete inputs *)

Lemma C3_buffers_bounded_witness :
  within_capacity
    (cam (snd (run_callbacks (firstn 2 (Sample.gyro_frames (Sample.ramp 3)))
                 (Sample.world Camera_new []))))
  /\ (exists e,
        StdMap.insert (1 # 2) (0, 0, 7) (insert_all (Sample.ramp 1000) [])
        = e :: insert_bounded (1 # 2) (0, 0, 7) (insert_all (Sample.ramp 1000) []) /\
        above (fst e) (insert_bounded (1 # 2) (0, 0, 7) (insert_all (Sample.ramp 1000) [])) /\
        StdMap.size (insert_bounded (1 # 2) (0, 0, 7) (insert_all (Sample.ramp 1000) []))
        = 1000%nat)
  /\ (ingest (Sample.ramp 1002) [] = skipn 2 (insert_all (Sample.ramp 1002) []) /\
      StdMap.size (ingest (Sample.ramp 1002) []) = 1000%nat /\
      forall e, In e (firstn 2 (insert_all (Sample.ramp 1002) [])) ->
                StdMap.fresh (fst e) (ingest (Sample.ramp 1002) []) = true)
  /\ gyroBuffer_ (cam (snd (run_callbacks (Sample.gyro_frames (Sample.ramp 1002))
                              (Sample.world Camera_new []))))
     = skipn 2 (insert_all (Sample.ramp 1002) [])
  /\ accBuffer_ (cam (snd (run_callbacks (Sample.acc_frames (Sample.ramp 1002))
                             (Sample.world Camera_new []))))
     = skipn 2 (insert_all (Sample.ramp 1002) [])
  /\ poseBuffer_ (cam (snd (run_callbacks (Sample.pose_frames (Sample.pose_ramp 1002))
                              Sample.odometry_world)))
     = skipn 2 (insert_all (Sample.stored_poses (Sample.pose_ramp 1002)) []).
Proof.
  destruct (@C3_buffers_bounded Sample.Pose7 _) as (Ha & Hb & Hc & Hd & He & Hf).
  split; [|split; [|split; [|split; [|split]]]].
  - apply Ha. unfold within_capacity, capacity. simpl. lia.
  - apply Hb; vm_compute; reflexivity.
  - apply (Hc _ (Sample.ramp 1002) 2%nat); vm_compute; reflexivity.
  - apply (Hd (Sample.ramp 1002) 2%nat (Sample.world Camera_new []));
      vm_compute; reflexivity.
  - apply (He (Sample.ramp 1002) 2%nat (Sample.world Camera_new []));
      vm_compute; reflexivity.
  - apply (Hf (Sample.pose_ramp 1002) 2%nat Sample.odometry_world);
      vm_compute; reflexivity.
Defined.

(** C1 as stated fails: with [globalTimeSync_] off and the latest
    accelerometer sample at 200, the lookup at 250 returns nothing (not the
    sample of 200) once the wait of 5 ms has brought nothing, and the IMU of
    the call is empty. *)
Lemma C1_counterexample :
  globalTimeSync_ (cam Sample.lenient_world) = false /\
  StdMap.rbegin (accBuffer_ (cam Sample.lenient_world)) = Some (200, (4, 5, 6)) /\
  fst (interpolateImu RS2_STREAM_ACCEL 250 5 Sample.lenient_world) = None /\
  snd (fst (getPoseAndIMU 250 5 Sample.lenient_world)) = None.
Proof. repeat split; vm_compute; reflexivity. Qed.

Lemma C1_behind_is_unavailable_witness :
  (behind (imuBuffer RS2_STREAM_ACCEL
             (cam (snd (wait_while (fun c => behind (imuBuffer RS2_STREAM_ACCEL c) 250)
                          (Z.to_nat 3) Sample.strict_world_late)))) 250 = true /\
   fst (interpolateImu RS2_STREAM_ACCEL 250 3 Sample.strict_world_late) = None)
  /\ (behind (poseBuffer_
                (cam (snd (wait_while (fun c => behind (poseBuffer_ c) 250)
                             (Z.to_nat 3) Sample.lenient_world)))) 250 = true /\
      fst (interpolatePose 250 3 Sample.lenient_world) = None)
  /\ (sleeps Sample.lenient_world = [] /\
      behind (accBuffer_ (cam Sample.lenient_world)) 250 = true /\
      snd (fst (getPoseAndIMU 250 3 Sample.lenient_world)) = None).
Proof.
  destruct (@C1_behind_is_unavailable Sample.Pose7 _) as (Himu & Hpose & Hcall).
  split; [|split].
  - split; [reflexivity|]. apply Himu. reflexivity.
  - split; [reflexivity|]. apply Hpose. reflexivity.
  - split; [reflexivity|]. split; [reflexivity|].
    apply Hcall; [reflexivity|left; reflexivity].
Defined.

(** C2 as stated fails: with [globalTimeSync_] off and the earliest samples
    at 100, the lookup at 50 does not fail; it returns the samples of 200. *)
Lemma C2_counterexample :
  globalTimeSync_ (cam Sample.lenient_world) = false /\
  StdMap.deref (accBuffer_ (cam Sample.lenient_world)) 0%nat = Some (100, (1, 2, 3)) /\
  fst (interpolateImu RS2_STREAM_ACCEL 50 0 Sample.lenient_world) = Some (4, 5, 6) /\
  snd (fst (getPoseAndIMU 50 0 Sample.lenient_world))
  = Some {| angularVelocity := (0, 0, 3); linearAcceleration := (4, 5, 6) |}.
Proof. repeat split; vm_compute; reflexivity. Qed.

Lemma C2_before_earliest_witness :
  (50 < 100 /\
   fst (interpolateImu RS2_STREAM_GYRO 50 0 Sample.strict_world) = None /\
   exists tl vl,
     StdMap.rbegin (imuBuffer RS2_STREAM_GYRO (cam Sample.lenient_world)) = Some (tl, vl) /\
     fst (interpolateImu RS2_STREAM_GYRO 50 0 Sample.lenient_world) = Some vl)
  /\ fst (interpolatePose 50 0 Sample.lenient_world) = None
  /\ snd (fst (getPoseAndIMU 50 0 Sample.strict_world)) = None.
Proof.
  destruct (@C2_before_earliest Sample.Pose7 _) as (Himu & Hpose & Hcall).
  assert (Hlt : 50 < 100) by reflexivity.
  split; [split; [exact Hlt|split]|split].
  - apply (Himu RS2_STREAM_GYRO 50 0%Z Sample.strict_world 100 (0, 0, 1) [(200, (0, 0, 3))]);
      [reflexivity|reflexivity|exact Hlt|reflexivity].
  - apply (Himu RS2_STREAM_GYRO 50 0%Z Sample.lenient_world 100 (0, 0, 1) [(200, (0, 0, 3))]);
      [reflexivity|reflexivity|exact Hlt|reflexivity].
  - apply (Hpose 50 0%Z Sample.lenient_world 100 (Sample.identity7, 1%nat)
             [(200, ((1, 0, 0, 0, 0, 0, 1), 3%nat))]);
      [reflexivity|reflexivity|exact Hlt].
  - apply (Hcall 50 0%Z Sample.strict_world 100 (1, 2, 3) [(200, (4, 5, 6))]);
      [reflexivity|reflexivity|reflexivity|exact Hlt|reflexivity].
Defined.

Lemma C4_linear_between_samples_witness :
  150 == 100 + (1 # 2) * (200 - 100) /\
  exists r, fst (interpolateImu RS2_STREAM_GYRO 150 0 Sample.lenient_world) = Some r /\
            vx r == 0 + (1 # 2) * (0 - 0) /\
            vy r == 0 + (1 # 2) * (0 - 0) /\
            vz r == 1 + (1 # 2) * (3 - 1).
Proof.
  assert (Hst : 150 == 100 + (1 # 2) * (200 - 100)) by reflexivity.
  split; [exact Hst|].
  apply (@C4_linear_between_samples Sample.Pose7 _ RS2_STREAM_GYRO 150 0%Z
           Sample.lenient_world [] 100 (0, 0, 1) 200 (0, 0, 3) [] (1 # 2));
    [reflexivity|reflexivity|discriminate|discriminate|exact Hst].
Defined.

(** C5 as stated fails on the pose buffer: the sample stored at 200 has
    confidence 3, and the lookup at 200 reports the confidence 1 of the
    sample before it. *)
Lemma C5_counterexample :
  StdMap.deref (poseBuffer_ (cam Sample.strict_world)) 1%nat
  = Some (200, ((1, 0, 0, 0, 0, 0, 1), 3%nat)) /\
  option_map snd (fst (interpolatePose 200 0 Sample.strict_world)) = Some 1%nat /\
  snd (fst (fst (getPoseAndIMU 200 0 Sample.strict_world))) = 1%nat.
Proof. repeat split; vm_compute; reflexivity. Qed.

Lemma C5_exact_match_witness :
  (exists r, fst (interpolateImu RS2_STREAM_ACCEL 200 0 Sample.strict_world) = Some r /\
             Vec3_eq r (4, 5, 6) /\ ([(100, (1, 2, 3))] = [] -> r = (4, 5, 6)))
  /\ fst (interpolatePose 100 0 Sample.strict_world) = Some (Sample.identity7, 1%nat)
  /\ ((200 - 100) / (200 - 100) == 1 /\
      fst (interpolatePose 200 0 Sample.strict_world)
      = Some (Transform_interpolate Sample.identity7 ((200 - 100) / (200 - 100))
                (1, 0, 0, 0, 0, 0, 1), 1%nat)).
Proof.
  destruct (@C5_exact_match Sample.Pose7 _) as (Himu & Hfirst & Hlater).
  split; [|split].
  - apply (Himu RS2_STREAM_ACCEL 200 0%Z Sample.strict_world
             [(100, (1, 2, 3))] 200 (4, 5, 6) []); reflexivity.
  - apply (Hfirst 100 0%Z Sample.strict_world 100 (Sample.identity7, 1%nat)
             [(200, ((1, 0, 0, 0, 0, 0, 1), 3%nat))]); reflexivity.
  - apply (Hlater 200 0%Z Sample.strict_world [] 100 Sample.identity7 1%nat
             200 (1, 0, 0, 0, 0, 0, 1) 3%nat []); reflexivity.
Defined.

Lemma C10_empty_inertial_buffer_witness :
  gyroBuffer_ (cam Sample.no_gyro_world) = [] /\
  StdMap.deref (poseBuffer_ (cam Sample.no_gyro_world)) 0%nat
  = Some (100, (Sample.identity7, 1%nat)) /\
  getPoseAndIMU 150 0 Sample.no_gyro_world = ((None, 0%nat, None), Sample.no_gyro_world).
Proof.
  split; [reflexivity|]. split; [reflexivity|].
  apply (@C10_empty_inertial_buffer Sample.Pose7 _ 150 0%Z Sample.no_gyro_world).
  right. reflexivity.
Defined.

(** C6 as stated fails under [globalTimeSync_]: in one session two captures
    of a frame set older than the accelerometer buffer log "Could not find
    acc data ... (earliest is ...). Are sensors synchronized?" twice, and
    the latch stays clear. *)
Lemma C6_counterexample :
  globalTimeSync_ (Sample.camera Sample.gyro2 Sample.acc2 [] true false) = true /\
  log (run_session Sample.two_early_captures
         (start_session None (Sample.camera Sample.gyro2 Sample.acc2 [] true false)))
  = [WarnEarliest RS2_STREAM_ACCEL; WarnEarliest RS2_STREAM_ACCEL] /\
  imuGlobalSyncWarningShown_
    (cam (run_session Sample.two_early_captures
            (start_session None (Sample.camera Sample.gyro2 Sample.acc2 [] true false))))
  = false.
Proof. repeat split; vm_compute; reflexivity. Qed.

Lemma C6_latched_warnings_witness :
  ((count is_clock_warning
      (log (run_session Sample.two_future_captures
              (start_session None (Sample.camera Sample.gyro2 Sample.acc2 [] true false))))
    <= 1)%nat /\
   (count is_restamp_warning
      (log (run_session Sample.two_early_captures
              (start_session None (Sample.camera Sample.gyro2 Sample.acc2 [] false false))))
    <= 1)%nat)
  /\ (globalTimeSync_ (Sample.camera Sample.gyro2 Sample.acc2 [] false false) = false /\
      forallb (fun op => negb (enables_sync op)) Sample.two_early_captures = true /\
      (count is_desync_warning
         (log (run_session Sample.two_early_captures
                 (start_session None (Sample.camera Sample.gyro2 Sample.acc2 [] false false))))
       <= 1)%nat)
  /\ (imuGlobalSyncWarningShown_
        (cam (Sample.world (Sample.camera Sample.gyro2 Sample.acc2 [] false true) [])) = true /\
      imuGlobalSyncWarningShown_
        (cam (run_session Sample.two_early_captures
                (Sample.world (Sample.camera Sample.gyro2 Sample.acc2 [] false true) [])))
      = true)
  /\ (imuGlobalSyncWarningShown_ (cam Sample.after_lenient_capture) = true /\
      log Sample.after_lenient_capture
      = [WarnEarliest RS2_STREAM_ACCEL; WarnRestamped RS2_STREAM_ACCEL] /\
      count is_desync_warning
        (log (run_session Sample.sync_then_early_captures Sample.after_lenient_capture))
      = count is_desync_warning (log Sample.after_lenient_capture))
  /\ (40 < 100 /\
      fst (interpolateImu RS2_STREAM_ACCEL 40 0 Sample.strict_world) = None /\
      log (snd (interpolateImu RS2_STREAM_ACCEL 40 0 Sample.strict_world))
      = log Sample.strict_world ++ [WarnEarliest RS2_STREAM_ACCEL] /\
      cam (snd (interpolateImu RS2_STREAM_ACCEL 40 0 Sample.strict_world))
      = cam Sample.strict_world)
  /\ (forallb (fun op => negb (disables_sync op)) Sample.two_early_captures = true /\
      imuGlobalSyncWarningShown_
        (cam (run_session Sample.two_early_captures Sample.strict_world))
      = imuGlobalSyncWarningShown_ (cam Sample.strict_world)).
Proof.
  destruct (@C6_latched_warnings Sample.Pose7 _)
    as (Hboth & Hlenient & Hmono & _ & Hquiet & Hstrict & Hclear).
  split; [|split; [|split; [|split; [|split]]]].
  - split.
    + apply (Hboth None (Sample.camera Sample.gyro2 Sample.acc2 [] true false)
               Sample.two_future_captures).
    + apply (Hboth None (Sample.camera Sample.gyro2 Sample.acc2 [] false false)
               Sample.two_early_captures).
  - split; [reflexivity|]. split; [reflexivity|].
    apply Hlenient; reflexivity.
  - split; [reflexivity|].
    apply (Hmono Sample.two_early_captures
             (Sample.world (Sample.camera Sample.gyro2 Sample.acc2 [] false true) [])).
    reflexivity.
  - split; [vm_compute; reflexivity|]. split; [vm_compute; reflexivity|].
    apply (Hquiet Sample.sync_then_early_captures Sample.after_lenient_capture).
    vm_compute. reflexivity.
  - assert (Hlt : 40 < 100) by reflexivity.
    split; [exact Hlt|].
    apply (Hstrict RS2_STREAM_ACCEL 40 0%Z Sample.strict_world 100 (1, 2, 3)
             [(200, (4, 5, 6))]); [reflexivity|reflexivity|reflexivity|reflexivity|exact Hlt].
  - split; [reflexivity|].
    apply (Hclear Sample.two_early_captures Sample.strict_world); reflexivity.
Defined.

Lemma C7_stamp_is_minimum_witness :
  In (fs_timestamp Sample.frameset2) (map get_timestamp (fs_frames Sample.frameset2)) /\
  stamp (arrivals (Sample.camera Sample.gyro2 Sample.acc2 [] true false) Sample.frameset2)
  = frameset_stamp Sample.frameset2 /\
  frameset_stamp Sample.frameset2 = 500 /\
  (forall f, In f (fs_frames Sample.frameset2) ->
             frameset_stamp Sample.frameset2 <= get_timestamp f).
Proof.
  assert (Hown : In (fs_timestamp Sample.frameset2)
                    (map get_timestamp (fs_frames Sample.frameset2)))
    by (right; left; reflexivity).
  destruct (@C7_stamp_is_minimum Sample.Pose7
              (Sample.camera Sample.gyro2 Sample.acc2 [] true false) Sample.frameset2 Hown)
    as (Hloop & _ & Hleast).
  split; [exact Hown|]. split; [exact Hloop|]. split; [reflexivity|exact Hleast].
Defined.



(** * Further properties *)

(** ** Walking through the calls with a relation on states *)

(** A call of [setOdomProvided] sets the members and at most logs. *)
Lemma callSetOdomProvided_world {Transform : Type} `{Externals Transform}
    e (w : World Transform) :
  let w' := snd (callSetOdomProvided e w) in
  cam w' = setOdomProvided e (cam w) /\
  log w' = log w ++ (if dualMode_ (cam w) && negb e then [ErrDualModeDisabled] else []) /\
  syncer_ w' = syncer_ w /\ events w' = events w /\ sleeps w' = sleeps w /\
  imuMutexHeld w' = imuMutexHeld w.
Proof.
  cbv zeta. unfold callSetOdomProvided, bind, get_cam, when, say, modify_cam, ret.
  destruct (dualMode_ (cam w) && negb e); cbn; rewrite ?app_nil_r; repeat split.
Qed.

Section Walk.
Context {Transform : Type} `{Externals Transform}.
Implicit Types (c : Camera Transform) (w : World Transform).

Lemma housekeeping_refl w : housekeeping w w.
Proof. unfold housekeeping. repeat split. Qed.

(** A relation that composes and holds of the callbacks and of the
    housekeeping steps; where a call posts an event, draws a sequence id or
    writes [lastImuStamp_], it has to hold of that as well. *)
Variable R : World Transform -> World Transform -> Prop.
Hypothesis R_trans : forall w1 w2 w3, R w1 w2 -> R w2 w3 -> R w1 w3.
Hypothesis R_house : forall w w', housekeeping w w' -> R w w'.
Hypothesis R_callback : forall f w, R w (snd (multiple_message_callback f w)).
Hypothesis R_post : forall e, steps R (post e).
Hypothesis R_seq : forall n, steps R (modify_cam (set_seqID n)).
Hypothesis R_last : forall t, steps R (modify_cam (set_lastImuStamp t)).

Lemma walk_ret {A} (a : A) : steps R (ret a).
Proof. intros w. apply R_house, housekeeping_refl. Qed.

Lemma walk_bind {A B} (m : M Transform A) (k : A -> M Transform B) :
  steps R m -> (forall a, steps R (k a)) -> steps R (bind m k).
Proof.
  intros Hm Hk w. unfold bind. specialize (Hm w).
  destruct (m w) as [a w1]. cbn [snd] in Hm.
  eapply R_trans; [exact Hm|apply Hk].
Qed.

Lemma walk_when b (m : M Transform unit) : steps R m -> steps R (when b m).
Proof. intros Hm. destruct b; [exact Hm|apply walk_ret]. Qed.

Lemma walk_get_cam : steps R get_cam.
Proof. intros w. apply R_house, housekeeping_refl. Qed.

Lemma walk_say m : steps R (say m).
Proof. intros w. apply R_house. unfold housekeeping. cbn. repeat split. Qed.

Lemma walk_set_imuMutexHeld b : steps R (set_imuMutexHeld b).
Proof. intros w. apply R_house. unfold housekeeping. cbn. repeat split. Qed.

Lemma walk_set_sleeps schedule : steps R (set_sleeps schedule).
Proof. intros w. apply R_house. unfold housekeeping. cbn. repeat split. Qed.

Lemma walk_modify (f : Camera Transform -> Camera Transform) :
  (forall c, gyroBuffer_ (f c) = gyroBuffer_ c /\ accBuffer_ (f c) = accBuffer_ c /\
             poseBuffer_ (f c) = poseBuffer_ c /\ options (f c) = options c /\
             seqID_ (f c) = seqID_ c /\ lastImuStamp_ (f c) = lastImuStamp_ c) ->
  steps R (modify_cam f).
Proof.
  intros Hf w. apply R_house. unfold housekeeping. cbn.
  destruct (Hf (cam w)) as (? & ? & ? & ? & ? & ?). repeat split; assumption.
Qed.

Ltac walk :=
  repeat (intros;
          match goal with
          | |- steps _ (bind _ _) => apply walk_bind
          | |- steps _ (ret _) => apply walk_ret
          | |- steps _ (when _ _) => apply walk_when
          | |- steps _ get_cam => apply walk_get_cam
          | |- steps _ (say _) => apply walk_say
          | |- steps _ (set_imuMutexHeld _) => apply walk_set_imuMutexHeld
          | |- steps _ (post _) => apply R_post
          | |- steps _ (modify_cam (set_seqID _)) => apply R_seq
          | |- steps _ (modify_cam (set_lastImuStamp _)) => apply R_last
          | |- steps _ (modify_cam _) => apply walk_modify; intros; cbn; repeat split
          | |- steps _ (match ?x with _ => _ end) => destruct x
          end).

Lemma walk_run_callbacks fs : steps R (run_callbacks fs).
Proof.
  induction fs as [|f fs IH]; cbn [run_callbacks]; [apply walk_ret|].
  apply walk_bind; [intros w; apply R_callback|intros _; exact IH].
Qed.

Lemma walk_uSleep : steps R uSleep.
Proof.
  intros w. unfold uSleep. destruct (sleeps w) as [|batch rest].
  - apply R_house, housekeeping_refl.
  - eapply R_trans; [|apply walk_run_callbacks].
    apply R_house. unfold housekeeping. cbn. repeat split.
Qed.

Lemma walk_wait_while lagging tries : steps R (wait_while lagging tries).
Proof.
  induction tries as [|tries IH]; cbn [wait_while]; [apply walk_ret|].
  apply walk_bind; [apply walk_get_cam|intros c].
  destruct (lagging c); [|apply walk_ret].
  apply walk_bind; [apply walk_uSleep|intros _; exact IH].
Qed.

Lemma walk_lookupImu s stamp maxWaitTimeMs : steps R (lookupImu s stamp maxWaitTimeMs).
Proof. unfold lookupImu. walk. Qed.

Lemma walk_lookupPose stamp maxWaitTimeMs : steps R (lookupPose stamp maxWaitTimeMs).
Proof. unfold lookupPose. walk. Qed.

Lemma walk_interpolateImu s stamp maxWaitTimeMs :
  steps R (interpolateImu s stamp maxWaitTimeMs).
Proof.
  unfold interpolateImu. apply walk_bind; [apply walk_wait_while|intros; apply walk_lookupImu].
Qed.

Lemma walk_interpolatePose stamp maxWaitTimeMs :
  steps R (interpolatePose stamp maxWaitTimeMs).
Proof.
  unfold interpolatePose.
  apply walk_bind; [apply walk_wait_while|intros; apply walk_lookupPose].
Qed.

Lemma walk_getPoseAndIMU stamp maxWaitTimeMs : steps R (getPoseAndIMU stamp maxWaitTimeMs).
Proof.
  unfold getPoseAndIMU. apply walk_bind; [apply walk_get_cam|intros c].
  destruct (_ || _); [apply walk_ret|].
  apply walk_bind.
  { destruct (negb _); [apply walk_interpolatePose|apply walk_ret]. }
  intros found. apply walk_bind; [apply walk_interpolateImu|intros [acc|]].
  - apply walk_bind; [apply walk_interpolateImu|intros [gyro|]]; apply walk_ret.
  - apply walk_ret.
Qed.

Lemma walk_publish_loop stamps : steps R (publish_loop stamps).
Proof.
  induction stamps as [|t rest IH]; cbn [publish_loop]; [apply walk_ret|].
  apply walk_bind; [apply walk_getPoseAndIMU|intros r].
  destruct (snd r); [|apply walk_ret].
  apply walk_bind; [apply R_post|intros _; exact IH].
Qed.

Lemma walk_publish_inter_imu imuStamp : steps R (publish_inter_imu imuStamp).
Proof.
  unfold publish_inter_imu. apply walk_bind; [apply walk_get_cam|intros c].
  destruct (Qltb 0 _).
  - destruct (Qltb _ _); [|apply walk_ret].
    apply walk_bind; [apply walk_set_imuMutexHeld|intros _].
    apply walk_bind; [apply walk_when, walk_publish_loop|intros _].
    walk.
  - walk.
Qed.

Lemma walk_getNextSeqID : steps R getNextSeqID.
Proof. unfold getNextSeqID. walk. Qed.

Lemma walk_assemble a st : steps R (assemble a st).
Proof.
  unfold assemble. apply walk_bind; [apply walk_get_cam|intros c].
  destruct (_ && _).
  - apply walk_bind; [apply walk_getNextSeqID|intros; apply walk_ret].
  - destruct (_ && _).
    + apply walk_bind; [apply walk_getNextSeqID|intros; apply walk_ret].
    + walk.
Qed.

Lemma walk_clock_check st now : steps R (clock_check st now).
Proof. unfold clock_check. walk. Qed.

Lemma walk_fuse a st : steps R (fuse a st).
Proof.
  unfold fuse.
  apply walk_bind; [apply walk_assemble|intros data].
  apply walk_bind; [apply walk_getPoseAndIMU|intros r].
  apply walk_bind; [apply walk_get_cam|intros c'].
  destruct (_ && _); [apply walk_ret|].
  destruct (_ && _); [|apply walk_ret].
  apply walk_bind; [apply walk_publish_inter_imu|intros ok]. walk.
Qed.

Lemma walk_on_frameset fs now : steps R (on_frameset fs now).
Proof.
  unfold on_frameset. apply walk_bind; [apply walk_get_cam|intros c].
  apply walk_bind; [apply walk_clock_check|intros; apply walk_fuse].
Qed.

Lemma walk_wait_for_frames r : steps R (wait_for_frames r).
Proof.
  unfold wait_for_frames. apply walk_bind; [apply walk_run_callbacks|intros; apply walk_ret].
Qed.

Lemma walk_retry_frames desired retries : forall fs, steps R (retry_frames desired fs retries).
Proof.
  induction retries as [|r retries IH]; intros fs; cbn [retry_frames].
  - destruct (_ =? _)%nat; apply walk_ret.
  - destruct (_ =? _)%nat; [apply walk_ret|].
    apply walk_bind; [apply walk_wait_for_frames|intros [fs'|]]; [apply IH|apply walk_ret].
Qed.

Lemma walk_captureImage first retries now : steps R (captureImage first retries now).
Proof.
  unfold captureImage. apply walk_bind; [apply walk_wait_for_frames|intros [fs0|]].
  - apply walk_bind; [apply walk_get_cam|intros c].
    apply walk_bind; [apply walk_retry_frames|intros [fs|]].
    + destruct (_ =? _)%nat; [apply walk_on_frameset|]. walk.
    + walk.
  - walk.
Qed.

(** Sessions: the setters are the business of each relation. *)
Variable admitted : Op -> bool.
Hypothesis R_setter :
  forall op w, admitted op = true ->
               match op with Callback _ | Capture _ _ _ _ => True | _ => R w (run_op op w) end.

Lemma walk_run_op op w : admitted op = true -> R w (run_op op w).
Proof.
  intros Hop. pose proof (R_setter op w Hop) as Hset.
  destruct op; try exact Hset; cbn [run_op].
  - apply R_callback.
  - apply walk_bind; [apply walk_set_sleeps|intros _; apply walk_captureImage].
Qed.

Lemma walk_run_session ops w :
  forallb admitted ops = true -> R w (run_session ops w).
Proof.
  revert w. induction ops as [|op ops IH]; intros w Hops.
  - apply R_house, housekeeping_refl.
  - cbn [forallb] in Hops. apply andb_true_iff in Hops. destruct Hops as [Hop Hops].
    cbn [run_session fold_left]. eapply R_trans; [apply walk_run_op, Hop|].
    now apply IH.
Qed.

End Walk.

(** ** Runs of bounded inserts *)

Section FedFacts.
Context {V : Type}.
Implicit Types (b m : StdMap.t V).

Lemma fed_trans b1 b2 b3 : fed b1 b2 -> fed b2 b3 -> fed b1 b3.
Proof. induction 2; [assumption|now constructor]. Qed.

Lemma fed_one k v b : fed b (insert_bounded k v b).
Proof. constructor. constructor. Qed.

Lemma fed_ascending b b' :
  fed b b' -> StdMap.ascending b = true -> StdMap.ascending b' = true.
Proof. induction 1; intros Hasc; [assumption|]. now apply insert_bounded_ascending, IHfed. Qed.

Lemma fed_capacity b b' :
  fed b b' -> (StdMap.size b <= capacity)%nat -> (StdMap.size b' <= capacity)%nat.
Proof.
  induction 1; intros Hsz; [assumption|]. unfold StdMap.size in *.
  now apply insert_bounded_length, IHfed.
Qed.

(** The last entry after an insert is not before the last entry before. *)
Lemma rbegin_insert k v m :
  exists e, StdMap.rbegin (StdMap.insert k v m) = Some e /\
            forall e0, StdMap.rbegin m = Some e0 -> fst e0 <= fst e.
Proof.
  induction m as [|[k' v'] m IH].
  - exists (k, v). split; [reflexivity|]. discriminate.
  - cbn [StdMap.insert]. destruct (Qcompare_spec k k') as [Heq|Hlt|Hgt].
    + destruct (rbegin_some ((k', v') :: m)) as (e & He & _); [discriminate|].
      exists e. split; [exact He|]. intros e0 He0. rewrite He in He0.
      injection He0 as <-. lra.
    + destruct (rbegin_some ((k', v') :: m)) as (e & He & _); [discriminate|].
      exists e. split; [rewrite rbegin_cons by discriminate; exact He|].
      intros e0 He0. rewrite He in He0. injection He0 as <-. lra.
    + destruct IH as (e & He & Hle). exists e. split.
      * rewrite rbegin_cons; [exact He|]. destruct m as [|[k2 v2] m]; [discriminate|].
        cbn [StdMap.insert]. destruct (k ?= k2); discriminate.
      * intros e0 He0. destruct m as [|e2 m].
        -- cbn in He0, He. injection He0 as <-. injection He as <-. cbn [fst]. lra.
        -- rewrite rbegin_cons in He0 by discriminate. now apply Hle.
Qed.

Lemma rbegin_tl m : (1 < length m)%nat -> StdMap.rbegin (tl m) = StdMap.rbegin m.
Proof.
  destruct m as [|e [|e' m]]; cbn [length]; try lia. intros _.
  cbn [tl]. now rewrite (rbegin_cons e) by discriminate.
Qed.

Lemma rbegin_insert_bounded k v m :
  exists e, StdMap.rbegin (insert_bounded k v m) = Some e /\
            forall e0, StdMap.rbegin m = Some e0 -> fst e0 <= fst e.
Proof.
  destruct (rbegin_insert k v m) as (e & He & Hle). exists e. split; [|exact Hle].
  unfold insert_bounded, StdMap.size, StdMap.erase_begin.
  destruct (Nat.ltb_spec capacity (length (StdMap.insert k v m))) as [Hlt|_]; [|exact He].
  rewrite rbegin_tl; [exact He|]. unfold capacity in Hlt. lia.
Qed.

Lemma reaches_spec m t :
  reaches m t <-> exists e, StdMap.rbegin m = Some e /\ t <= fst e.
Proof.
  unfold reaches, behind. split.
  - intros [Hne Hb]. destruct (StdMap.rbegin m) as [[l v]|] eqn:E.
    + exists (l, v). split; [reflexivity|]. cbn [fst]. now apply Qltb_ge.
    + destruct m; [discriminate|]. destruct (rbegin_some (p :: m)) as (e & He & _);
        [discriminate|congruence].
  - intros (e & He & Hle). rewrite He. destruct e as [l v]. split.
    + destruct m; [discriminate|reflexivity].
    + now apply Qltb_ge.
Qed.

(** Once a buffer holds a sample at [t] or later, it does so after any run
    of inserts. *)
Lemma fed_reaches b b' t : fed b b' -> reaches b t -> reaches b' t.
Proof.
  induction 1; intros Hr; [assumption|]. specialize (IHfed Hr).
  apply reaches_spec in IHfed. destruct IHfed as (e0 & He0 & Hle0).
  destruct (rbegin_insert_bounded k v b') as (e & He & Hle).
  apply reaches_spec. exists e. split; [exact He|]. specialize (Hle e0 He0). lra.
Qed.

(** A key that is present is not inserted again. *)
Lemma insert_known k v m :
  StdMap.ascending m = true -> existsb (Qeqb k) (map fst m) = true ->
  StdMap.insert k v m = m.
Proof.
  induction m as [|[k' v'] m IH]; [discriminate|]. intros Hasc Hin.
  apply ascending_cons in Hasc. destruct Hasc as [Hab Hasc].
  cbn [map existsb fst] in Hin. cbn [StdMap.insert].
  destruct (Qcompare_spec k k') as [Heq|Hlt|Hgt]; [reflexivity| |].
  - exfalso. apply orb_true_iff in Hin. destruct Hin as [Hin|Hin].
    + apply Qeqb_eq in Hin. lra.
    + apply existsb_exists in Hin. destruct Hin as (x & Hx & Hxe).
      apply in_map_iff in Hx. destruct Hx as (e & <- & He).
      apply Qeqb_eq in Hxe. specialize (Hab e He). lra.
  - f_equal. apply IH; [exact Hasc|]. apply orb_true_iff in Hin.
    destruct Hin as [Hin|Hin]; [|exact Hin]. apply Qeqb_eq in Hin. lra.
Qed.

Lemma insert_bounded_known k v m :
  StdMap.ascending m = true -> (StdMap.size m <= capacity)%nat ->
  existsb (Qeqb k) (map fst m) = true -> insert_bounded k v m = m.
Proof.
  intros Hasc Hsz Hin. unfold insert_bounded. rewrite insert_known by assumption.
  destruct (Nat.ltb_spec capacity (StdMap.size m)); [lia|reflexivity].
Qed.

(** A sample older than all of a full buffer is evicted at once. *)
Lemma insert_bounded_too_old k v m :
  length (map fst m) = capacity -> forallb (Qltb k) (map fst m) = true ->
  insert_bounded k v m = m.
Proof.
  intros Hlen Hall. rewrite length_map in Hlen.
  destruct m as [|[k' v'] m]; [discriminate|].
  cbn [map forallb fst] in Hall. apply andb_true_iff in Hall. destruct Hall as [Hlt _].
  apply Qltb_lt in Hlt. unfold insert_bounded. cbn [StdMap.insert].
  destruct (Qcompare_spec k k') as [Heq|_|Hgt]; [lra| |lra].
  unfold StdMap.size. cbn [length] in *.
  destruct (Nat.ltb_spec capacity (S (S (length m)))); [reflexivity|lia].
Qed.

End FedFacts.

(** ** What a session does to the buffers *)

Section BufferFacts.
Context {Transform : Type} `{Externals Transform}.
Implicit Types (c : Camera Transform) (w : World Transform).

Lemma grown_buffers w w' :
  gyroBuffer_ (cam w') = gyroBuffer_ (cam w) ->
  accBuffer_ (cam w') = accBuffer_ (cam w) ->
  poseBuffer_ (cam w') = poseBuffer_ (cam w) -> grown w w'.
Proof. intros Hg Ha Hp. unfold grown. rewrite Hg, Ha, Hp. repeat split; constructor. Qed.

Lemma grown_trans w1 w2 w3 : grown w1 w2 -> grown w2 w3 -> grown w1 w3.
Proof.
  intros (Hg & Ha & Hp) (Hg' & Ha' & Hp'). repeat split; eapply fed_trans; eassumption.
Qed.

Lemma grown_house w w' : housekeeping w w' -> grown w w'.
Proof. intros (Hg & Ha & Hp & _). now apply grown_buffers. Qed.

Lemma grown_callback f w : grown w (snd (multiple_message_callback f w)).
Proof.
  unfold multiple_message_callback, imu_callback, pose_callback, frame_callback,
    bind, get_cam, modify_cam, ret.
  destruct (stream_type f); cbn; try (apply grown_buffers; reflexivity).
  - repeat split; first [apply fed_one|apply fed_same].
  - repeat split; first [apply fed_one|apply fed_same].
  - destruct (odometryProvided_ (cam w)); cbn; [|apply grown_buffers; reflexivity].
    repeat split; first [apply fed_one|apply fed_same].
Qed.

Lemma grown_modify (f : Camera Transform -> Camera Transform) :
  (forall c, gyroBuffer_ (f c) = gyroBuffer_ c /\ accBuffer_ (f c) = accBuffer_ c /\
             poseBuffer_ (f c) = poseBuffer_ c) ->
  steps grown (modify_cam f).
Proof. intros Hf w. destruct (Hf (cam w)) as (? & ? & ?). now apply grown_buffers. Qed.

Lemma grown_post e : steps (grown (Transform := Transform)) (post e).
Proof. intros w. now apply grown_buffers. Qed.

Lemma grown_getPoseAndIMU stamp maxWaitTimeMs :
  steps grown (getPoseAndIMU stamp maxWaitTimeMs).
Proof. exact (walk_getPoseAndIMU grown grown_trans grown_house grown_callback _ _). Qed.

Lemma grown_captureImage first retries now : steps grown (captureImage first retries now).
Proof.
  apply (walk_captureImage grown grown_trans grown_house grown_callback grown_post);
    intros; apply grown_modify; intros; repeat split.
Qed.

Lemma grown_session ops w : grown w (run_session ops w).
Proof.
  apply (walk_run_session grown grown_trans grown_house grown_callback grown_post)
    with (admitted := fun _ => true).
  - intros; apply grown_modify; intros; repeat split.
  - intros; apply grown_modify; intros; repeat split.
  - intros op w0 _. destruct op; try exact I; apply grown_buffers; cbn [run_op];
      rewrite ?(proj1 (callSetOdomProvided_world _ _)); reflexivity.
  - induction ops; [reflexivity|assumption].
Qed.

Lemma grown_well_kept w w' : grown w w' -> well_kept (cam w) -> well_kept (cam w').
Proof.
  intros (Hg & Ha & Hp) [Hasc (Cg & Ca & Cp)]. unfold well_kept, buffers_ascending in *.
  rewrite !andb_true_iff in *. destruct Hasc as [[Ag Aa] Ap].
  repeat split; eauto using fed_ascending, fed_capacity.
Qed.

Lemma imuBuffer_fed s w w' :
  grown w w' -> fed (imuBuffer s (cam w)) (imuBuffer s (cam w')).
Proof. intros (Hg & Ha & _). unfold imuBuffer. now destruct (rs2_stream_eqb _ _). Qed.

(** X1. A callback leaves the camera as it is when the stamp of its frame is
    already a key of the buffer it writes to (the stored sample is kept, the
    new one is lost), and when that buffer is full and the frame is older
    than everything in it (it is inserted at the front and erased at
    once). *)
Theorem X1_callback_drops_sample f w :
  well_kept (cam w) ->
  known_stamp f (cam w) = true \/ too_old f (cam w) = true ->
  cam (snd (multiple_message_callback f w)) = cam w.
Proof.
  intros [Hasc (Cg & Ca & Cp)] Hcase.
  unfold buffers_ascending in Hasc. rewrite !andb_true_iff in Hasc.
  destruct Hasc as [[Ag Aa] Ap].
  assert (Hsame : forall V k (v : V) (m : StdMap.t V),
             StdMap.ascending m = true -> (StdMap.size m <= capacity)%nat ->
             existsb (Qeqb k) (map fst m) = true \/
             (length (map fst m) =? capacity)%nat && forallb (Qltb k) (map fst m) = true ->
             insert_bounded k v m = m).
  { intros V k v m Hm Hsz [Hk|Ho]; [now apply insert_bounded_known|].
    apply andb_true_iff in Ho. destruct Ho as [Hl Ho]. apply Nat.eqb_eq in Hl.
    now apply insert_bounded_too_old. }
  unfold known_stamp, too_old, stamps_of, imuBuffer in Hcase.
  unfold multiple_message_callback, imu_callback, pose_callback, frame_callback,
    bind, get_cam, modify_cam, ret.
  destruct (stream_type f); cbn in Hcase |- *; try reflexivity.
  - rewrite Hsame by assumption. now destruct (cam w).
  - rewrite Hsame by assumption. now destruct (cam w).
  - destruct (odometryProvided_ (cam w)); cbn; [|reflexivity].
    rewrite Hsame by assumption. now destruct (cam w).
Qed.

(** X2. From [init] on and whatever the session does (callbacks, captures
    with callbacks arriving during their waits, setters), the keys of each
    buffer keep increasing and no buffer grows beyond 1000 entries. *)
Theorem X2_session_keeps_buffers l500 ops (c : Camera Transform) :
  well_kept c -> well_kept (cam (run_session ops (start_session l500 c))).
Proof.
  intros Hc. apply (grown_well_kept (start_session l500 c)); [apply grown_session|].
  unfold start_session, init. cbn [cam].
  destruct Hc as [Hasc Hcap]. destruct l500; split; assumption.
Qed.

(** X3. A stream never falls back: once a buffer holds a sample at a stamp
    or later (it is not empty and not behind the stamp), it still does after
    any session, so that a wait for that stamp ends at once. *)
Theorem X3_stream_keeps_up ops w t :
  (forall s, reaches (imuBuffer s (cam w)) t ->
             reaches (imuBuffer s (cam (run_session ops w))) t) /\
  (reaches (poseBuffer_ (cam w)) t -> reaches (poseBuffer_ (cam (run_session ops w))) t).
Proof.
  pose proof (grown_session ops w) as Hg. split.
  - intros s. apply fed_reaches. now apply imuBuffer_fed.
  - apply fed_reaches. apply Hg.
Qed.

End BufferFacts.

(** ** Lookups: round trip, range and bounds *)

Section RangeFacts.
Context {V : Type}.
Implicit Types (m : StdMap.t V).

Lemma insert_member k v m :
  existsb (Qeqb k) (map fst m) = false ->
  exists pre post, StdMap.insert k v m = pre ++ (k, v) :: post /\ m = pre ++ post.
Proof.
  induction m as [|[k' v'] m IH]; intros Hn.
  - exists [], []. split; reflexivity.
  - cbn [map existsb fst] in Hn. apply orb_false_iff in Hn. destruct Hn as [Hk Hn].
    apply Qeqb_neq in Hk. cbn [StdMap.insert].
    destruct (Qcompare_spec k k') as [Heq|Hlt|Hgt]; [contradiction| |].
    + exists [], ((k', v') :: m). split; reflexivity.
    + destruct (IH Hn) as (pre & post & E1 & E2). exists ((k', v') :: pre), post.
      rewrite E1. split; [reflexivity|]. cbn [app]. now rewrite <- E2.
Qed.

(** A new sample stays in the buffer unless the buffer is full and the
    sample is older than all of it. *)
Lemma insert_bounded_member k v m :
  StdMap.ascending m = true ->
  existsb (Qeqb k) (map fst m) = false ->
  (length (map fst m) < capacity)%nat \/
  existsb (fun t => Qltb t k) (map fst m) = true ->
  exists pre post, insert_bounded k v m = pre ++ (k, v) :: post.
Proof.
  intros Hasc Hn Hroom. destruct (insert_member k v m Hn) as (pre & post & E1 & E2).
  unfold insert_bounded, StdMap.size, StdMap.erase_begin.
  destruct (Nat.ltb_spec capacity (length (StdMap.insert k v m))) as [Hlt|Hge].
  - destruct pre as [|e pre].
    + exfalso. cbn [app] in E1, E2. subst post.
      destruct Hroom as [Hroom|Hroom].
      * rewrite length_map in Hroom. rewrite E1 in Hlt. cbn [length] in Hlt. lia.
      * pose proof (ascending_insert k v m Hasc) as Hi. rewrite E1 in Hi.
        apply ascending_cons in Hi. destruct Hi as [Hab _].
        apply existsb_exists in Hroom. destruct Hroom as (t & Ht & Hlt').
        apply in_map_iff in Ht. destruct Ht as (e & <- & He).
        apply Qltb_lt in Hlt'. specialize (Hab e He). lra.
    + rewrite E1. cbn [app tl]. now exists pre, post.
  - rewrite E1. now exists pre, post.
Qed.

Lemma earliest_cons k v m : earliest ((k, v) :: m) = Some k.
Proof. reflexivity. Qed.

Lemma latest_some m e : StdMap.rbegin m = Some e -> latest m = Some (fst e).
Proof. unfold latest. now intros ->. Qed.

Lemma behind_latest m t :
  behind m t = true <-> exists tn, latest m = Some tn /\ tn < t.
Proof.
  unfold behind, latest. destruct (StdMap.rbegin m) as [[l v]|]; cbn [option_map fst].
  - rewrite Qltb_lt. split; [intros Hl; now exists l|]. intros (tn & E & Hl).
    now injection E as ->.
  - split; [discriminate|]. now intros (tn & E & _).
Qed.

End RangeFacts.

Lemma fraction_in_unit (a b x : Q) : a < x -> x <= b -> 0 <= (x - a) / (b - a) <= 1.
Proof.
  intros Ha Hb. assert (Hd : 0 < b - a) by lra. split.
  - apply Qle_shift_div_l; [exact Hd|]. lra.
  - apply Qle_shift_div_r; [exact Hd|]. lra.
Qed.

(** A sample older than all of a buffer with room becomes its first entry. *)
Lemma insert_bounded_front {V} k (v : V) (m : StdMap.t V) :
  forallb (Qltb k) (map fst m) = true -> (length (map fst m) < capacity)%nat ->
  insert_bounded k v m = (k, v) :: m.
Proof.
  intros Hall Hroom.
  assert (E : StdMap.insert k v m = (k, v) :: m).
  { destruct m as [|[k' v'] m]; [reflexivity|]. cbn [map forallb fst] in Hall.
    apply andb_true_iff in Hall. destruct Hall as [Hk _]. apply Qltb_lt in Hk.
    cbn [StdMap.insert]. destruct (Qcompare_spec k k'); [lra|reflexivity|lra]. }
  unfold insert_bounded. rewrite E. unfold StdMap.size. cbn [length].
  rewrite length_map in Hroom.
  destruct (Nat.ltb_spec capacity (S (length m))); [lia|reflexivity].
Qed.

(** No stamp is below one that is below all. *)
Lemma below_all_none_older k (l : list Q) :
  forallb (Qltb k) l = true -> existsb (fun t => Qltb t k) l = false.
Proof.
  induction l as [|t l IH]; [reflexivity|]. cbn [forallb existsb].
  intros Hall. apply andb_true_iff in Hall. destruct Hall as [Hk Hall].
  rewrite (IH Hall), orb_false_r. apply Qltb_lt in Hk.
  destruct (Qltb t k) eqn:E; [apply Qltb_lt in E; lra|reflexivity].
Qed.

Section LookupMore.
Context {Transform : Type} `{Externals Transform}.
Implicit Types (c : Camera Transform) (w : World Transform).

Lemma imuBuffer_ascending s c :
  buffers_ascending c = true -> StdMap.ascending (imuBuffer s c) = true.
Proof.
  unfold buffers_ascending, imuBuffer. rewrite !andb_true_iff. intros [[Hg Ha] _].
  now destruct (rs2_stream_eqb _ _).
Qed.

(** What a motion frame's callback does to the buffer of its stream. *)
Lemma callback_imuBuffer f w :
  is_motion f = true ->
  imuBuffer (stream_type f) (cam (snd (multiple_message_callback f w)))
  = insert_bounded (get_timestamp f) (crnt_reading f) (imuBuffer (stream_type f) (cam w)).
Proof.
  unfold is_motion, multiple_message_callback, imu_callback, imuBuffer.
  destruct (stream_type f); try discriminate; intros _; reflexivity.
Qed.

(** X4. Insert, then look up.  After the callback of a gyroscope or
    accelerometer frame whose stamp is new to its buffer, and which is not
    evicted at once (the buffer has room, or holds an older sample), the
    lookup at the stamp of the frame finds a vector, without waiting, without
    logging and without changing the state, whatever [globalTimeSync_] is.
    When the stamp is below every stamp of the buffer, the vector is the
    reading of the frame itself: the first sample is copied (lines 331-336
    and 412-417).  At a later stamp the vector is computed by the
    interpolation formula, and nothing is said of its value here. *)
Theorem X4_callback_then_lookup f maxWaitTimeMs w :
  is_motion f = true ->
  buffers_ascending (cam w) = true ->
  known_stamp f (cam w) = false ->
  (length (stamps_of f (cam w)) < capacity)%nat \/
  existsb (fun t => Qltb t (get_timestamp f)) (stamps_of f (cam w)) = true ->
  let w1 := snd (multiple_message_callback f w) in
  (exists r, interpolateImu (stream_type f) (get_timestamp f) maxWaitTimeMs w1
             = (Some r, w1)) /\
  (forallb (Qltb (get_timestamp f)) (stamps_of f (cam w)) = true ->
   interpolateImu (stream_type f) (get_timestamp f) maxWaitTimeMs w1
   = (Some (crnt_reading f), w1)).
Proof.
  intros Hm Hasc Hnew Hroom w1.
  assert (Hst : stamps_of f (cam w) = map fst (imuBuffer (stream_type f) (cam w))).
  { unfold stamps_of, is_motion in *. destruct (stream_type f); try discriminate; reflexivity. }
  unfold known_stamp in Hnew. rewrite Hst in Hnew, Hroom |- *.
  pose proof (imuBuffer_ascending (stream_type f) _ Hasc) as Hs.
  assert (Hbuf : imuBuffer (stream_type f) (cam w1)
                 = insert_bounded (get_timestamp f) (crnt_reading f)
                     (imuBuffer (stream_type f) (cam w))).
  { unfold w1. now rewrite callback_imuBuffer. }
  assert (Hs1 : StdMap.ascending (imuBuffer (stream_type f) (cam w1)) = true).
  { rewrite Hbuf. now apply insert_bounded_ascending. }
  split.
  - destruct (insert_bounded_member (get_timestamp f) (crnt_reading f) _ Hs Hnew Hroom)
      as (pre & post & E).
    destruct (interpolateImu_at_key (stream_type f) (get_timestamp f) maxWaitTimeMs w1
                pre (get_timestamp f) (crnt_reading f) post) as (r & Hr & _).
    + now rewrite Hbuf.
    + exact Hs1.
    + reflexivity.
    + now exists r.
  - intros Hall.
    assert (Hlen : (length (map fst (imuBuffer (stream_type f) (cam w))) < capacity)%nat).
    { destruct Hroom as [Hroom|Hroom]; [exact Hroom|].
      rewrite (below_all_none_older _ _ Hall) in Hroom. discriminate. }
    destruct (interpolateImu_at_key (stream_type f) (get_timestamp f) maxWaitTimeMs w1
                [] (get_timestamp f) (crnt_reading f)
                (imuBuffer (stream_type f) (cam w))) as (r & Hr & _ & Hfirst).
    + rewrite Hbuf. now apply insert_bounded_front.
    + exact Hs1.
    + reflexivity.
    + now rewrite <- (Hfirst eq_refl).
Qed.

(** A lookup succeeds exactly on the stamps in the range of the buffer. *)
Lemma lookupImu_some_iff s stamp maxWaitTimeMs w :
  StdMap.ascending (imuBuffer s (cam w)) = true ->
  fst (lookupImu s stamp maxWaitTimeMs w) <> None <->
  in_range (globalTimeSync_ (cam w)) (imuBuffer s (cam w)) stamp.
Proof.
  intros Hasc. destruct (imuBuffer s (cam w)) as [|e0 m0] eqn:Ebuf.
  - split.
    + intros Hne. exfalso. apply Hne. unfold lookupImu, bind, get_cam. rewrite Ebuf.
      reflexivity.
    + intros (t0 & tn & E & _). discriminate.
  - assert (Hne : imuBuffer s (cam w) <> []) by (rewrite Ebuf; discriminate).
    rewrite <- Ebuf in *. clear Ebuf e0 m0.
    destruct (rbegin_some _ Hne) as ([tn vn] & Hl & Hin).
    pose proof (latest_some _ _ Hl) as Hlat. cbn [fst] in Hlat.
    assert (Hlast : forall e, In e (imuBuffer s (cam w)) -> fst e <= tn).
    { intros e He. apply (rbegin_largest _ e (tn, vn) Hasc He Hl). }
    destruct (lookupImu_cases s stamp maxWaitTimeMs w Hasc Hne)
      as [[Hb Hr]|[(t0 & v0 & rest & E & Heq & Hr)|[(t0 & v0 & rest & E & Hlt & Hr)
         |(pre & tA & vA & tB & vB & post & E & HA & HB & Hr)]]].
    + rewrite Hr. split; [congruence|]. intros (t0 & tn' & _ & Hl' & Hle & _).
      apply behind_latest in Hb. destruct Hb as (tn2 & E2 & Hlt).
      rewrite Hl' in E2. injection E2 as ->. lra.
    + rewrite Hr. split; [|discriminate]. intros _. exists t0, tn.
      rewrite E at 1. rewrite earliest_cons. repeat split; try assumption; try lra.
      specialize (Hlast (t0, v0)). rewrite E in Hlast. specialize (Hlast (or_introl eq_refl)).
      cbn [fst] in Hlast. lra.
    + rewrite Hr. assert (Htn : t0 <= tn).
      { specialize (Hlast (t0, v0)). rewrite E in Hlast.
        apply (Hlast (or_introl eq_refl)). }
      destruct (globalTimeSync_ (cam w)).
      * split; [congruence|]. intros (t0' & tn' & E0 & _ & _ & Hstrict).
        rewrite E, earliest_cons in E0. injection E0 as <-.
        specialize (Hstrict eq_refl). lra.
      * rewrite Hl. split; [|discriminate]. intros _. exists t0, tn.
        rewrite E at 1. rewrite earliest_cons. repeat split; try assumption; try lra;
          discriminate.
    + rewrite Hr. split; [|discriminate]. intros _.
      assert (HB' : tB <= tn).
      { apply (Hlast (tB, vB)). rewrite E. apply in_or_app. right. right. now left. }
      destruct pre as [|[t0 v0] pre].
      * exists tA, tn. rewrite E at 1. cbn [app]. rewrite earliest_cons.
        repeat split; try assumption; try lra.
      * exists t0, tn. rewrite E at 1. cbn [app]. rewrite earliest_cons.
        repeat split; try assumption; try lra. intros _.
        rewrite E in Hasc. cbn [app] in Hasc. apply ascending_cons in Hasc.
        destruct Hasc as [Hab _]. specialize (Hab (tA, vA)). cbn [fst] in Hab.
        assert (t0 < tA) by (apply Hab, in_or_app; right; now left). lra.
Qed.

(** X5. With no callback arriving during the call, [getPoseAndIMU] hands
    out an IMU reading exactly when the stamp is in the range of both the
    accelerometer and the gyroscope buffer: not after the last stamp of
    either and, while [globalTimeSync_] is on, not before the first one. *)
Theorem X5_imu_available_iff stamp maxWaitTimeMs w :
  buffers_ascending (cam w) = true -> sleeps w = [] ->
  snd (fst (getPoseAndIMU stamp maxWaitTimeMs w)) <> None <->
  in_range (globalTimeSync_ (cam w)) (accBuffer_ (cam w)) stamp /\
  in_range (globalTimeSync_ (cam w)) (gyroBuffer_ (cam w)) stamp.
Proof.
  intros Hasc Hq.
  pose proof (imuBuffer_ascending RS2_STREAM_ACCEL _ Hasc) as HascA.
  pose proof (imuBuffer_ascending RS2_STREAM_GYRO _ Hasc) as HascG.
  unfold getPoseAndIMU, bind, get_cam.
  destruct (StdMap.empty (accBuffer_ (cam w)) || StdMap.empty (gyroBuffer_ (cam w))) eqn:Eempty.
  - unfold ret. cbn [fst snd]. split; [intros Hn; now elim Hn|].
    intros [(a0 & an & Ea & _) (g0 & gn & Eg & _)].
    apply orb_true_iff in Eempty.
    destruct Eempty as [E|E]; [destruct (accBuffer_ (cam w))|destruct (gyroBuffer_ (cam w))];
      discriminate.
  - set (found := (if negb (StdMap.empty (poseBuffer_ (cam w)))
                   then interpolatePose stamp maxWaitTimeMs else ret None) w).
    assert (Hf : cam (snd found) = cam w /\ sleeps (snd found) = []).
    { unfold found. destruct (negb _); [|now split].
      rewrite interpolatePose_unfold, wait_while_quiet by exact Hq. cbn [snd].
      destruct (lookupPose_frame stamp maxWaitTimeMs w) as [Hc Hs].
      split; [exact Hc|congruence]. }
    destruct found as [fp w1]. cbn [snd] in Hf. destruct Hf as [Hc1 Hs1].
    rewrite interpolateImu_unfold, wait_while_quiet by exact Hs1. cbn [snd].
    pose proof (lookupImu_frame RS2_STREAM_ACCEL stamp maxWaitTimeMs w1) as Hfr.
    cbn zeta in Hfr. destruct Hfr as (Hg2 & Ha2 & _ & Hy2 & Hs2).
    pose proof (lookupImu_some_iff RS2_STREAM_ACCEL stamp maxWaitTimeMs w1) as HA.
    rewrite Hc1 in HA. specialize (HA HascA).
    destruct (lookupImu RS2_STREAM_ACCEL stamp maxWaitTimeMs w1) as [acc w2] eqn:Eacc.
    cbn [fst snd] in *.
    destruct acc as [acc|].
    + rewrite interpolateImu_unfold, wait_while_quiet by congruence. cbn [snd].
      pose proof (lookupImu_some_iff RS2_STREAM_GYRO stamp maxWaitTimeMs w2) as HG.
      unfold imuBuffer in HG, HA. cbn [rs2_stream_eqb] in HG, HA.
      rewrite Hg2, Hy2, Hc1 in HG. specialize (HG HascG).
      destruct (lookupImu RS2_STREAM_GYRO stamp maxWaitTimeMs w2) as [gyro w3].
      cbn [fst snd] in *. destruct gyro as [gyro|]; unfold ret; cbn [fst snd].
      * split; [|discriminate]. intros _. split; [apply HA|apply HG]; discriminate.
      * split; [intros Hn; now elim Hn|]. intros [_ HGr]. apply HG in HGr. now elim HGr.
    + unfold ret. cbn [fst snd]. split; [intros Hn; now elim Hn|].
      intros [HAr _]. apply HA in HAr. now elim HAr.
Qed.

(** What a lookup that finds a vector has done: copied the sample at the
    stamp, copied the last sample where [globalTimeSync_] is off, or mixed
    the two samples around the stamp. *)
Lemma lookupImu_sources s stamp maxWaitTimeMs w r :
  StdMap.ascending (imuBuffer s (cam w)) = true ->
  fst (lookupImu s stamp maxWaitTimeMs w) = Some r ->
  (exists t, In (t, r) (imuBuffer s (cam w)) /\
             (stamp == t \/
              globalTimeSync_ (cam w) = false /\ latest (imuBuffer s (cam w)) = Some t)) \/
  (exists pre tA vA tB vB post,
      imuBuffer s (cam w) = pre ++ (tA, vA) :: (tB, vB) :: post /\
      tA < stamp /\ stamp <= tB /\
      0 <= (stamp - tA) / (tB - tA) <= 1 /\
      r = lerp ((stamp - tA) / (tB - tA)) vA vB).
Proof.
  intros Hasc Hr. destruct (imuBuffer s (cam w)) as [|e0 m0] eqn:Ebuf.
  - exfalso. unfold lookupImu, bind, get_cam in Hr. rewrite Ebuf in Hr. discriminate.
  - assert (Hne : imuBuffer s (cam w) <> []) by (rewrite Ebuf; discriminate).
    rewrite <- Ebuf in *. clear Ebuf e0 m0.
    destruct (lookupImu_cases s stamp maxWaitTimeMs w Hasc Hne)
      as [[Hb Hn]|[(t0 & v0 & rest & E & Heq & Hl)|[(t0 & v0 & rest & E & Hlt & Hl)
         |(pre & tA & vA & tB & vB & post & E & HA & HB & Hl)]]].
    + congruence.
    + rewrite Hl in Hr. injection Hr as <-. left. exists t0.
      split; [rewrite E; now left|now left].
    + rewrite Hl in Hr. destruct (globalTimeSync_ (cam w)); [discriminate|].
      destruct (rbegin_some _ Hne) as ([tn vn] & He & Hin). rewrite He in Hr.
      injection Hr as <-. left. exists tn. split; [exact Hin|]. right.
      split; [reflexivity|]. now rewrite (latest_some _ _ He).
    + rewrite Hl in Hr. injection Hr as <-. right.
      exists pre, tA, vA, tB, vB, post.
      split; [exact E|]. split; [exact HA|]. split; [exact HB|].
      split; [now apply fraction_in_unit|reflexivity].
Qed.

(** X6. No extrapolation.  With the buffer of the stream in key order when
    the lookup returns, the vector found for the accelerometer or the
    gyroscope is the vector of a stored sample (the one at the stamp, or the
    latest one where [globalTimeSync_] is off), or the result of the formula
    of lines 339-342 and 420-423 on the two neighbouring samples around the
    stamp with a ratio between 0 and 1, whatever arrived during the wait.
    The formula is evaluated over the rationals here. *)
Theorem X6_lookup_never_extrapolates s stamp maxWaitTimeMs w r :
  let w' := snd (interpolateImu s stamp maxWaitTimeMs w) in
  StdMap.ascending (imuBuffer s (cam w')) = true ->
  fst (interpolateImu s stamp maxWaitTimeMs w) = Some r ->
  (exists t, In (t, r) (imuBuffer s (cam w')) /\
             (stamp == t \/
              globalTimeSync_ (cam w') = false /\ latest (imuBuffer s (cam w')) = Some t)) \/
  (exists pre tA vA tB vB post,
      imuBuffer s (cam w') = pre ++ (tA, vA) :: (tB, vB) :: post /\
      tA < stamp /\ stamp <= tB /\
      0 <= (stamp - tA) / (tB - tA) <= 1 /\
      r = lerp ((stamp - tA) / (tB - tA)) vA vB).
Proof.
  cbv zeta. rewrite interpolateImu_unfold.
  set (w1 := snd (wait_while _ _ w)).
  pose proof (lookupImu_frame s stamp maxWaitTimeMs w1) as Hfr. cbn zeta in Hfr.
  destruct Hfr as (Hg & Ha & _ & Hsync & _).
  assert (Hbuf : imuBuffer s (cam (snd (lookupImu s stamp maxWaitTimeMs w1)))
                 = imuBuffer s (cam w1)).
  { unfold imuBuffer. now rewrite Hg, Ha. }
  rewrite Hbuf, Hsync. apply lookupImu_sources.
Qed.

End LookupMore.

(** ** Waiting *)

Section WaitMore.
Context {Transform : Type} `{Externals Transform}.
Implicit Types (c : Camera Transform) (w : World Transform).

Lemma callback_sleeps f w : sleeps (snd (multiple_message_callback f w)) = sleeps w.
Proof.
  unfold multiple_message_callback, frame_callback, bind, get_cam, modify_cam, ret.
  destruct (stream_type f); try reflexivity. now destruct (odometryProvided_ (cam w)).
Qed.

Lemma run_callbacks_sleeps fs w : sleeps (snd (run_callbacks fs w)) = sleeps w.
Proof.
  revert w. induction fs as [|f fs IH]; intros w; [reflexivity|].
  rewrite run_callbacks_cons, IH. apply callback_sleeps.
Qed.

Lemma uSleep_sleeps w : sleeps (snd (uSleep w)) = skipn 1 (sleeps w).
Proof.
  unfold uSleep. destruct (sleeps w) as [|batch rest] eqn:E; cbn [snd skipn]; [exact E|].
  now rewrite run_callbacks_sleeps.
Qed.

(** A wait loop sleeps at most [tries] times. *)
Lemma wait_while_sleeps lagging tries w :
  exists n, (n <= tries)%nat /\
            sleeps (snd (wait_while lagging tries w)) = skipn n (sleeps w).
Proof.
  revert w. induction tries as [|tries IH]; intros w.
  - exists 0%nat. split; [lia|reflexivity].
  - rewrite wait_while_step. destruct (lagging (cam w)).
    + destruct (IH (snd (uSleep w))) as (n & Hn & E). exists (S n). split; [lia|].
      rewrite E, uSleep_sleeps, skipn_skipn. f_equal. lia.
    + exists 0%nat. split; [lia|reflexivity].
Qed.

Lemma interpolateImu_sleeps s stamp maxWaitTimeMs w :
  exists n, (n <= Z.to_nat maxWaitTimeMs)%nat /\
            sleeps (snd (interpolateImu s stamp maxWaitTimeMs w)) = skipn n (sleeps w).
Proof.
  rewrite interpolateImu_unfold.
  destruct (wait_while_sleeps (fun c => behind (imuBuffer s c) stamp)
              (Z.to_nat maxWaitTimeMs) w) as (n & Hn & E).
  exists n. split; [exact Hn|]. rewrite <- E. apply lookupImu_frame.
Qed.

Lemma interpolatePose_sleeps stamp maxWaitTimeMs w :
  exists n, (n <= Z.to_nat maxWaitTimeMs)%nat /\
            sleeps (snd (interpolatePose stamp maxWaitTimeMs w)) = skipn n (sleeps w).
Proof.
  rewrite interpolatePose_unfold.
  destruct (wait_while_sleeps (fun c => behind (poseBuffer_ c) stamp)
              (Z.to_nat maxWaitTimeMs) w) as (n & Hn & E).
  exists n. split; [exact Hn|]. rewrite <- E. apply lookupPose_frame.
Qed.

(** X7. [getPoseAndIMU] sleeps at most three times [maxWaitTimeMs]
    milliseconds, one wait per stream, and not at all when [maxWaitTimeMs] is
    zero or negative: of the schedule of the sleeps to come it uses up at
    most that many entries. *)
Theorem X7_getPoseAndIMU_bounded_wait stamp maxWaitTimeMs w :
  exists n, (n <= 3 * Z.to_nat maxWaitTimeMs)%nat /\
            sleeps (snd (getPoseAndIMU stamp maxWaitTimeMs w)) = skipn n (sleeps w).
Proof.
  unfold getPoseAndIMU, bind, get_cam.
  destruct (StdMap.empty (accBuffer_ (cam w)) || StdMap.empty (gyroBuffer_ (cam w))).
  { exists 0%nat. split; [lia|reflexivity]. }
  set (found := (if negb (StdMap.empty (poseBuffer_ (cam w)))
                 then interpolatePose stamp maxWaitTimeMs else ret None) w).
  assert (Hf : exists n, (n <= Z.to_nat maxWaitTimeMs)%nat /\
                         sleeps (snd found) = skipn n (sleeps w)).
  { unfold found. destruct (negb _); [apply interpolatePose_sleeps|].
    exists 0%nat. split; [lia|reflexivity]. }
  destruct found as [fp w1]. cbn [snd] in Hf. destruct Hf as (n1 & Hn1 & E1).
  destruct (interpolateImu_sleeps RS2_STREAM_ACCEL stamp maxWaitTimeMs w1)
    as (n2 & Hn2 & E2).
  destruct (interpolateImu RS2_STREAM_ACCEL stamp maxWaitTimeMs w1) as [acc w2].
  cbn [snd] in E2. destruct acc as [acc|].
  - destruct (interpolateImu_sleeps RS2_STREAM_GYRO stamp maxWaitTimeMs w2)
      as (n3 & Hn3 & E3).
    destruct (interpolateImu RS2_STREAM_GYRO stamp maxWaitTimeMs w2) as [gyro w3].
    cbn [snd] in E3. exists (n3 + (n2 + n1))%nat. split; [lia|].
    rewrite <- !skipn_skipn, <- E1, <- E2, <- E3. now destruct gyro.
  - exists (n2 + n1)%nat. split; [lia|]. now rewrite <- skipn_skipn, <- E1, <- E2.
Qed.

Lemma fed_nonempty {V} (b b' : StdMap.t V) : fed b b' -> b <> [] -> b' <> [].
Proof. induction 1; intros Hne; [assumption|apply insert_bounded_nonempty]. Qed.

(** A buffer that is behind a stamp was behind it before the inserts. *)
Lemma fed_behind {V} (b b' : StdMap.t V) t :
  fed b b' -> b <> [] -> behind b' t = true -> behind b t = true.
Proof.
  intros Hfed Hne Hb. destruct (behind b t) eqn:E; [reflexivity|].
  assert (Hr : reaches b t) by (split; [now destruct b|exact E]).
  apply (fed_reaches _ _ _ Hfed) in Hr. destruct Hr as [_ Hr]. congruence.
Qed.

Lemma grown_wait_while lagging tries w : grown w (snd (wait_while lagging tries w)).
Proof. exact (walk_wait_while grown grown_trans grown_house grown_callback _ _ w). Qed.

Lemma grown_interpolateImu s stamp maxWaitTimeMs w :
  grown w (snd (interpolateImu s stamp maxWaitTimeMs w)).
Proof. exact (walk_interpolateImu grown grown_trans grown_house grown_callback _ _ _ w). Qed.

Lemma grown_interpolatePose stamp maxWaitTimeMs w :
  grown w (snd (interpolatePose stamp maxWaitTimeMs w)).
Proof. exact (walk_interpolatePose grown grown_trans grown_house grown_callback _ _ w). Qed.

(** X8. Whatever arrives during the call, [getPoseAndIMU] hands out no IMU
    reading when, at its return, the accelerometer or the gyroscope buffer is
    still behind the stamp. *)
Theorem X8_imu_needs_both_streams stamp maxWaitTimeMs w :
  let w' := snd (getPoseAndIMU stamp maxWaitTimeMs w) in
  behind (accBuffer_ (cam w')) stamp = true \/ behind (gyroBuffer_ (cam w')) stamp = true ->
  snd (fst (getPoseAndIMU stamp maxWaitTimeMs w)) = None.
Proof.
  cbv zeta. unfold getPoseAndIMU, bind, get_cam.
  destruct (StdMap.empty (accBuffer_ (cam w)) || StdMap.empty (gyroBuffer_ (cam w))) eqn:Eempty;
    [reflexivity|].
  apply orb_false_iff in Eempty. destruct Eempty as [Ea Eg].
  set (found := (if negb (StdMap.empty (poseBuffer_ (cam w)))
                 then interpolatePose stamp maxWaitTimeMs else ret None) w).
  assert (Hf : grown w (snd found)).
  { unfold found. destruct (negb _); [apply grown_interpolatePose|].
    now apply grown_buffers. }
  destruct found as [fp w1]. cbn [snd] in Hf.
  rewrite interpolateImu_unfold.
  pose proof (grown_wait_while (fun c => behind (imuBuffer RS2_STREAM_ACCEL c) stamp)
                (Z.to_nat maxWaitTimeMs) w1) as Hw.
  set (w1' := snd (wait_while _ _ w1)) in *.
  pose proof (lookupImu_frame RS2_STREAM_ACCEL stamp maxWaitTimeMs w1') as Hfr.
  cbn zeta in Hfr. destruct Hfr as (Hg2 & Ha2 & _).
  pose proof (lookupImu_behind RS2_STREAM_ACCEL stamp maxWaitTimeMs w1') as HbA.
  destruct (lookupImu RS2_STREAM_ACCEL stamp maxWaitTimeMs w1') as [acc w2].
  cbn [fst snd] in *. destruct acc as [acc|]; [|reflexivity].
  rewrite interpolateImu_unfold.
  pose proof (grown_wait_while (fun c => behind (imuBuffer RS2_STREAM_GYRO c) stamp)
                (Z.to_nat maxWaitTimeMs) w2) as Hw2.
  set (w2' := snd (wait_while _ _ w2)) in *.
  pose proof (lookupImu_frame RS2_STREAM_GYRO stamp maxWaitTimeMs w2') as Hfr.
  cbn zeta in Hfr. destruct Hfr as (Hg3 & Ha3 & _).
  pose proof (lookupImu_behind RS2_STREAM_GYRO stamp maxWaitTimeMs w2') as HbG.
  destruct (lookupImu RS2_STREAM_GYRO stamp maxWaitTimeMs w2') as [gyro w3].
  cbn [fst snd] in *. destruct gyro as [gyro|]; [|reflexivity].
  unfold ret. cbn [fst snd]. intros [Hb|Hb]; exfalso.
  - assert (Hb1 : behind (accBuffer_ (cam w1')) stamp = true).
    { apply (fed_behind _ (accBuffer_ (cam w3))); [| |exact Hb].
      - rewrite Ha3, <- Ha2. apply Hw2.
      - apply (fed_nonempty (accBuffer_ (cam w))).
        + apply (grown_trans _ _ _ Hf Hw).
        + now destruct (accBuffer_ (cam w)). }
    destruct (HbA Hb1). discriminate.
  - assert (Hb1 : behind (gyroBuffer_ (cam w2')) stamp = true) by now rewrite <- Hg3.
    destruct (HbG Hb1). discriminate.
Qed.

End WaitMore.

(** ** What a session does to the options *)

Section OptionFacts.
Context {Transform : Type} `{Externals Transform}.
Implicit Types (c : Camera Transform) (w : World Transform).

Lemma options_eq c c' :
  options c' = options c <->
  ir_ c' = ir_ c /\ irDepth_ c' = irDepth_ c /\
  odometryProvided_ c' = odometryProvided_ c /\ globalTimeSync_ c' = globalTimeSync_ c /\
  publishInterIMU_ c' = publishInterIMU_ c /\ dualMode_ c' = dualMode_ c /\
  isL500_ c' = isL500_ c.
Proof.
  unfold options. split.
  - intros E. injection E. intros. repeat split; assumption.
  - intros (-> & -> & -> & -> & -> & -> & ->). reflexivity.
Qed.

Lemma callback_undisturbed f w : undisturbed w (snd (multiple_message_callback f w)).
Proof.
  unfold multiple_message_callback, imu_callback, pose_callback, frame_callback,
    bind, get_cam, modify_cam, ret, undisturbed.
  destruct (stream_type f); cbn; try (repeat split; reflexivity).
  destruct (odometryProvided_ (cam w)); repeat split.
Qed.

Lemma undisturbed_trans w1 w2 w3 : undisturbed w1 w2 -> undisturbed w2 w3 -> undisturbed w1 w3.
Proof. unfold undisturbed. intros (-> & -> & -> & ->) (-> & -> & -> & ->). repeat split. Qed.

Lemma undisturbed_house w w' : housekeeping w w' -> undisturbed w w'.
Proof. intros (_ & _ & _ & Ho & Hs & Hl & He & _). repeat split; assumption. Qed.

Lemma undisturbed_refl w : undisturbed w w.
Proof. repeat split. Qed.

Lemma same_options_trans w1 w2 w3 :
  same_options w1 w2 -> same_options w2 w3 -> same_options w1 w3.
Proof. unfold same_options. congruence. Qed.

Lemma same_options_house w w' : housekeeping w w' -> same_options w w'.
Proof. intros H0. apply H0. Qed.

Lemma same_options_callback f w : same_options w (snd (multiple_message_callback f w)).
Proof. apply callback_undisturbed. Qed.

(** [poses_gated] goes through every call. *)
Lemma poses_gated_trans w1 w2 w3 : poses_gated w1 w2 -> poses_gated w2 w3 -> poses_gated w1 w3.
Proof. unfold poses_gated. intros H1 H2 Ho Hp. destruct (H1 Ho Hp). now apply H2. Qed.

Lemma poses_gated_same w w' :
  odometryProvided_ (cam w') = odometryProvided_ (cam w) ->
  poseBuffer_ (cam w') = poseBuffer_ (cam w) -> poses_gated w w'.
Proof. unfold poses_gated. intros -> ->. now split. Qed.

Lemma poses_gated_house w w' : housekeeping w w' -> poses_gated w w'.
Proof.
  intros (_ & _ & Hp & Ho & _). apply options_eq in Ho. apply poses_gated_same; tauto.
Qed.

Lemma poses_gated_callback f w : poses_gated w (snd (multiple_message_callback f w)).
Proof.
  unfold multiple_message_callback, imu_callback, frame_callback, bind, get_cam,
    modify_cam, ret.
  destruct (stream_type f); cbn; try (apply poses_gated_same; reflexivity).
  destruct (odometryProvided_ (cam w)) eqn:E; [|apply poses_gated_same; reflexivity].
  unfold poses_gated. congruence.
Qed.

Lemma poses_gated_session ops w :
  forallb (fun op => negb (asks_odometry op)) ops = true ->
  poses_gated w (run_session ops w).
Proof.
  apply (walk_run_session poses_gated poses_gated_trans poses_gated_house
           poses_gated_callback).
  - intros e w0. now apply poses_gated_same.
  - intros n w0. now apply poses_gated_same.
  - intros t w0. now apply poses_gated_same.
  - intros op w0 Hop. destruct op as [| | | | |[|]|[|]]; try exact I; try discriminate;
      unfold poses_gated; cbn [run_op]; rewrite ?(proj1 (callSetOdomProvided_world _ _));
      cbn; intros; split; auto.
Qed.

(** X9. As long as the odometry is not asked for (neither
    [setOdomProvided(true)] nor [setDualMode(true, ...)]), pose frames are
    dropped on arrival: in a session that starts with an empty pose buffer it
    stays empty, and [getPoseAndIMU] leaves the pose null with confidence 0,
    whatever the stamp. *)
Theorem X9_no_pose_without_odometry ops w stamp maxWaitTimeMs :
  forallb (fun op => negb (asks_odometry op)) ops = true ->
  odometryProvided_ (cam w) = false -> poseBuffer_ (cam w) = [] ->
  let w' := run_session ops w in
  odometryProvided_ (cam w') = false /\ poseBuffer_ (cam w') = [] /\
  fst (fst (getPoseAndIMU stamp maxWaitTimeMs w')) = (None, 0%nat).
Proof.
  intros Hops Ho Hp w'. destruct (poses_gated_session ops w Hops Ho Hp) as [Ho' Hp'].
  fold w' in Ho', Hp'. repeat split; try assumption.
  unfold getPoseAndIMU, bind, get_cam. rewrite Hp'.
  destruct (_ || _); [reflexivity|]. cbn [StdMap.empty negb]. unfold ret at 1.
  destruct (interpolateImu RS2_STREAM_ACCEL stamp maxWaitTimeMs w') as [[acc|] w2];
    [|reflexivity].
  now destruct (interpolateImu RS2_STREAM_GYRO stamp maxWaitTimeMs w2) as [[gyro|] w3].
Qed.

Lemma keeps_dual_same w w' :
  dualMode_ (cam w') = dualMode_ (cam w) ->
  odometryProvided_ (cam w') = odometryProvided_ (cam w) -> keeps_dual w w'.
Proof. unfold keeps_dual, dual_has_odometry. now intros -> ->. Qed.

Lemma keeps_dual_options w w' : options (cam w') = options (cam w) -> keeps_dual w w'.
Proof. intros Ho. apply options_eq in Ho. apply keeps_dual_same; tauto. Qed.

Lemma keeps_dual_session ops w : keeps_dual w (run_session ops w).
Proof.
  apply (walk_run_session keeps_dual) with (admitted := fun _ => true).
  - unfold keeps_dual. auto.
  - intros w0 w1 Hh. apply keeps_dual_options, Hh.
  - intros f w0. apply keeps_dual_options, callback_undisturbed.
  - intros e w0. now apply keeps_dual_same.
  - intros n w0. now apply keeps_dual_same.
  - intros t w0. now apply keeps_dual_same.
  - intros op w0 _. destruct op as [| | | | |e|e]; try exact I;
      try (now apply keeps_dual_same).
    + unfold keeps_dual, dual_has_odometry. cbn. now destruct e.
    + unfold keeps_dual, dual_has_odometry. cbn [run_op].
      rewrite (proj1 (callSetOdomProvided_world _ _)). cbn.
      destruct (dualMode_ (cam w0)), e; cbn; congruence.
  - induction ops; [reflexivity|assumption].
Qed.

(** X10. [dualMode_] never goes without [odometryProvided_]: the two
    setters keep them together ([setDualMode(true)] turns the odometry on,
    [setOdomProvided(false)] turns the dual mode off), and nothing else in a
    session, [init] included, writes either of them. *)
Theorem X10_dual_mode_has_odometry l500 ops (c : Camera Transform) :
  dual_has_odometry c ->
  dual_has_odometry (cam (run_session ops (start_session l500 c))).
Proof.
  intros Hc. apply (keeps_dual_session ops (start_session l500 c)).
  unfold dual_has_odometry, start_session, init in *. cbn [cam].
  now destruct l500.
Qed.

End OptionFacts.

(** ** The stages of a capture *)

Section CaptureMore.
Context {Transform : Type} `{Externals Transform}.
Implicit Types (c : Camera Transform) (w : World Transform).

Lemma undisturbed_getPoseAndIMU stamp maxWaitTimeMs w :
  undisturbed w (snd (getPoseAndIMU stamp maxWaitTimeMs w)).
Proof.
  exact (walk_getPoseAndIMU undisturbed undisturbed_trans undisturbed_house
           callback_undisturbed _ _ w).
Qed.

Lemma undisturbed_wait_for_frames r w : undisturbed w (snd (wait_for_frames r w)).
Proof.
  exact (walk_wait_for_frames undisturbed undisturbed_trans undisturbed_house
           callback_undisturbed _ w).
Qed.

Lemma undisturbed_retry_frames desired retries fs w :
  undisturbed w (snd (retry_frames desired fs retries w)).
Proof.
  exact (walk_retry_frames undisturbed undisturbed_trans undisturbed_house
           callback_undisturbed _ _ _ w).
Qed.

Lemma undisturbed_clock_check st now w : undisturbed w (snd (clock_check st now w)).
Proof. exact (walk_clock_check undisturbed undisturbed_trans undisturbed_house _ _ w). Qed.

Lemma undisturbed_say m w : undisturbed w (snd (say m w)).
Proof. repeat split. Qed.

Lemma keeps_ids_trans w1 w2 w3 : keeps_ids w1 w2 -> keeps_ids w2 w3 -> keeps_ids w1 w3.
Proof. unfold keeps_ids. intros [-> ->] [-> ->]. now split. Qed.

Lemma keeps_ids_undisturbed w w' : undisturbed w w' -> keeps_ids w w'.
Proof. intros (Ho & Hs & _). now split. Qed.

Lemma keeps_ids_publish_inter_imu imuStamp w :
  keeps_ids w (snd (publish_inter_imu imuStamp w)).
Proof.
  apply (walk_publish_inter_imu keeps_ids keeps_ids_trans).
  - intros w0 w1 Hh. apply keeps_ids_undisturbed, undisturbed_house, Hh.
  - intros f w0. apply keeps_ids_undisturbed, callback_undisturbed.
  - intros e w0. now split.
  - intros t w0. now split.
Qed.

(** What building the record does. *)
Lemma assemble_spec a st w :
  let d := fst (assemble a st w) in
  let w' := snd (assemble a st w) in
  gyroBuffer_ (cam w') = gyroBuffer_ (cam w) /\
  accBuffer_ (cam w') = accBuffer_ (cam w) /\
  poseBuffer_ (cam w') = poseBuffer_ (cam w) /\
  options (cam w') = options (cam w) /\
  lastImuStamp_ (cam w') = lastImuStamp_ (cam w) /\
  events w' = events w /\
  sd_imu d = None /\
  ((is_rgb_arrived a && is_depth_arrived a
    || is_left_fisheye_arrived a && is_right_fisheye_arrived a = true /\
    sd_image d = rgb_frame a /\ sd_depthOrRight d = depth_frame a /\
    sd_stamp d = st /\
    sd_id d = nextSeqID (seqID_ (cam w)) /\ seqID_ (cam w') = nextSeqID (seqID_ (cam w)))
   \/ (d = SensorData_default /\ seqID_ (cam w') = seqID_ (cam w))).
Proof.
  cbv zeta. unfold assemble, getNextSeqID, bind, get_cam, modify_cam, say, ret.
  destruct (is_rgb_arrived a && is_depth_arrived a); cbn.
  - repeat split. left. repeat split.
  - destruct (is_left_fisheye_arrived a && is_right_fisheye_arrived a); cbn.
    + repeat split. left. repeat split.
    + repeat split. right. repeat split.
Qed.

(** The three ways through the end of [fuse]. *)
Lemma fuse_cases a st w :
  exists d w4 r w5,
    assemble a st w = (d, w4) /\
    getPoseAndIMU (st * 1000) maxWaitTimeMs_default w4 = (r, w5) /\
    ((exists imu, snd r = Some imu /\ publishInterIMU_ (cam w5) = false /\
                  fuse a st w = (setIMU (Some imu) d, w5)) \/
     (publishInterIMU_ (cam w5) = true /\ gyroBuffer_ (cam w5) <> [] /\
      exists ok w6, publish_inter_imu (st * 1000) w5 = (ok, w6) /\
                    fuse a st w = (d, if ok then w6 else snd (say ErrFrameCallback w6))) \/
     ((publishInterIMU_ (cam w5) = false \/ gyroBuffer_ (cam w5) = []) /\
      fuse a st w = (d, w5))).
Proof.
  unfold fuse, bind, get_cam.
  destruct (assemble a st w) as [d w4]. exists d, w4.
  destruct (getPoseAndIMU (st * 1000) maxWaitTimeMs_default w4) as [r w5]. exists r, w5.
  split; [reflexivity|]. split; [reflexivity|].
  destruct (snd r) as [imu|] eqn:Eimu; cbn [andb];
    destruct (publishInterIMU_ (cam w5)) eqn:Epub; cbn [negb andb].
  - destruct (gyroBuffer_ (cam w5)) as [|e g] eqn:Eg; cbn [StdMap.empty negb].
    + right. right. split; [now right|reflexivity].
    + right. left. split; [reflexivity|]. split; [discriminate|].
      destruct (publish_inter_imu (st * 1000) w5) as [ok w6]. exists ok, w6.
      split; [reflexivity|]. now destruct ok.
  - left. exists imu. repeat split.
  - destruct (gyroBuffer_ (cam w5)) as [|e g] eqn:Eg; cbn [StdMap.empty negb].
    + right. right. split; [now right|reflexivity].
    + right. left. split; [reflexivity|]. split; [discriminate|].
      destruct (publish_inter_imu (st * 1000) w5) as [ok w6]. exists ok, w6.
      split; [reflexivity|]. now destruct ok.
  - right. right. split; [now left|reflexivity].
Qed.

(** A capture ends without a record, or goes on to [fuse] with a frame set
    that one of the waits handed out. *)
Lemma captureImage_cases first retries now w :
  (exists w', captureImage first retries now w = (SensorData_default, w') /\
              undisturbed w w') \/
  (exists fs w2 st w3,
      (result first = Some fs \/ In (Some fs) (map result retries)) /\
      undisturbed w w2 /\ undisturbed w2 w3 /\
      captureImage first retries now w = fuse (arrivals (cam w2) fs) st w3).
Proof.
  unfold captureImage, bind, get_cam.
  pose proof (undisturbed_wait_for_frames first w) as H1.
  destruct (wait_for_frames_spec first w) as [Hres _].
  destruct (wait_for_frames first w) as [got w1]. cbn [fst snd] in *.
  destruct got as [fs0|].
  - set (desired := if isL500_ (cam w1) && globalTimeSync_ (cam w1) then 3%nat else 2%nat).
    pose proof (undisturbed_retry_frames desired retries fs0 w1) as H2.
    pose proof (retry_frames_origin desired retries fs0 w1) as Horigin.
    destruct (retry_frames desired fs0 retries w1) as [got w2]. cbn [fst snd] in *.
    destruct got as [fs|].
    + destruct (length (fs_frames fs) =? desired)%nat.
      * right. unfold on_frameset, bind, get_cam.
        pose proof (undisturbed_clock_check (stamp (arrivals (cam w2) fs) / 1000) now w2) as H3.
        destruct (clock_check (stamp (arrivals (cam w2) fs) / 1000) now w2) as [st w3].
        exists fs, w2, st, w3. cbn [snd] in H3.
        split; [|split; [|split; [exact H3|reflexivity]]].
        -- destruct (Horigin fs eq_refl) as [->|Hin]; [now left|now right].
        -- eapply undisturbed_trans; eassumption.
      * left. eexists. split; [reflexivity|]. cbn.
        apply (undisturbed_trans _ _ _ (undisturbed_trans _ _ _ H1 H2)). repeat split.
    + left. eexists. split; [reflexivity|]. cbn.
      apply (undisturbed_trans _ _ _ (undisturbed_trans _ _ _ H1 H2)). repeat split.
  - left. eexists. split; [reflexivity|]. cbn.
    apply (undisturbed_trans _ _ _ H1). repeat split.
Qed.

(** What [fuse] keeps of the record that [assemble] builds. *)
Lemma fuse_record a st w :
  let data := fst (fuse a st w) in
  let d := fst (assemble a st w) in
  sd_image data = sd_image d /\ sd_depthOrRight data = sd_depthOrRight d /\
  sd_id data = sd_id d /\ sd_stamp data = sd_stamp d /\
  keeps_ids (snd (assemble a st w)) (snd (fuse a st w)).
Proof.
  cbv zeta. destruct (fuse_cases a st w) as (d & w4 & r & w5 & Ea & Eg & Hcases).
  rewrite Ea. cbn [fst snd].
  pose proof (undisturbed_getPoseAndIMU (st * 1000) maxWaitTimeMs_default w4) as Hu.
  rewrite Eg in Hu. cbn [snd] in Hu. apply keeps_ids_undisturbed in Hu.
  destruct Hcases as [(imu & _ & _ & ->)|[(_ & _ & ok & w6 & Ep & ->)|(_ & ->)]];
    cbn [fst snd]; repeat split; try apply Hu.
  - pose proof (keeps_ids_publish_inter_imu (st * 1000) w5) as Hp. rewrite Ep in Hp.
    cbn [snd] in Hp. destruct (keeps_ids_trans _ _ _ Hu Hp) as [Ho _].
    now destruct ok.
  - pose proof (keeps_ids_publish_inter_imu (st * 1000) w5) as Hp. rewrite Ep in Hp.
    cbn [snd] in Hp. destruct (keeps_ids_trans _ _ _ Hu Hp) as [_ Hs].
    now destruct ok.
Qed.

Lemma arrive_carries c seen a f : carries seen a -> carries (seen ++ [f]) (arrive c a f).
Proof.
  intros [Hr Hd].
  assert (Hf : In f (seen ++ [f])) by (apply in_or_app; right; now left).
  unfold arrive.
  destruct (stream_type f), (isL500_ c), (ir_ c), (irDepth_ c),
    (is_depth_arrived a) eqn:Edepth, (is_right_fisheye_arrived a) eqn:Eright;
    cbn; split; intros Hor;
    first
      [ exists f; split; [exact Hf|reflexivity]
      | destruct Hr as (f0 & Hin & Ef);
        [ first [exact Hor|destruct Hor; [left|right]; congruence]
        | exists f0; split; [apply in_or_app; now left|exact Ef] ]
      | destruct Hd as (f0 & Hin & Ef);
        [ first [exact Hor|destruct Hor; [left|right]; congruence]
        | exists f0; split; [apply in_or_app; now left|exact Ef] ] ].
Qed.

Lemma arrivals_carry c fs : carries (fs_frames fs) (arrivals c fs).
Proof.
  unfold arrivals.
  assert (G : forall l seen a,
             carries seen a -> carries (seen ++ l) (fold_left (arrive c) l a)).
  { induction l as [|f l IH]; intros seen a Ha; cbn [fold_left].
    - now rewrite app_nil_r.
    - replace (seen ++ f :: l) with ((seen ++ [f]) ++ l)
        by (now rewrite <- app_assoc).
      apply IH. now apply arrive_carries. }
  apply (G (fs_frames fs) [] (Arrived_init fs)).
  split; cbn; intros [E|E]; discriminate.
Qed.

(** X11. What [captureImage] returns.  Either the record has no image, the
    id 0, and the sequence counter is where it was; or the record carries the
    next sequence id, the counter has advanced to it, and both images are
    there, made from two frames of one frame set that a wait handed out.
    There is no record with one image only, and no id is drawn without a
    record. *)
Theorem X11_record_or_nothing first retries now w :
  let data := fst (captureImage first retries now w) in
  let w' := snd (captureImage first retries now w) in
  (sd_image data = None /\ sd_depthOrRight data = None /\ sd_id data = 0%nat /\
   seqID_ (cam w') = seqID_ (cam w)) \/
  (sd_id data = nextSeqID (seqID_ (cam w)) /\
   seqID_ (cam w') = nextSeqID (seqID_ (cam w)) /\
   exists fs f g,
     (result first = Some fs \/ In (Some fs) (map result retries)) /\
     In f (fs_frames fs) /\ In g (fs_frames fs) /\
     sd_image data = Some f /\ sd_depthOrRight data = Some g).
Proof.
  cbv zeta.
  destruct (captureImage_cases first retries now w)
    as [(w' & -> & Hu)|(fs & w2 & st & w3 & Hfs & Hu2 & Hu3 & ->)].
  - left. cbn [fst snd]. repeat split. apply Hu.
  - set (a := arrivals (cam w2) fs).
    assert (Hs3 : seqID_ (cam w3) = seqID_ (cam w)).
    { destruct (undisturbed_trans _ _ _ Hu2 Hu3) as (_ & Hs & _). exact Hs. }
    destruct (fuse_record a st w3) as (Ei & Ed & Eid & _ & _ & Hseq).
    rewrite Ei, Ed, Eid, Hseq.
    destruct (assemble_spec a st w3)
      as (_ & _ & _ & _ & _ & _ & _ & [(Hflags & Hi & Hd & _ & Hid & Hs)|[-> Hs]]).
    + right. rewrite Hid, Hs, Hs3, Hi, Hd. repeat split.
      destruct (arrivals_carry (cam w2) fs) as [Hr Hdp]. fold a in Hr, Hdp.
      apply orb_true_iff in Hflags. rewrite !andb_true_iff in Hflags.
      destruct Hr as (f & Hf & Ef); [tauto|]. destruct Hdp as (g & Hg & Eg); [tauto|].
      exists fs, f, g. repeat split; assumption.
    + left. repeat split. congruence.
Qed.

(** X12. The inertial reading travels one way only.  With
    [publishInterIMU_] on, the record never carries an IMU reading; with it
    off, a capture posts no event. *)
Theorem X12_imu_in_record_or_events first retries now w :
  let data := fst (captureImage first retries now w) in
  let w' := snd (captureImage first retries now w) in
  (publishInterIMU_ (cam w) = true -> sd_imu data = None) /\
  (publishInterIMU_ (cam w) = false -> events w' = events w).
Proof.
  cbv zeta.
  destruct (captureImage_cases first retries now w)
    as [(w' & -> & Hu)|(fs & w2 & st & w3 & Hfs & Hu2 & Hu3 & ->)].
  - cbn [fst snd]. split; [reflexivity|]. intros _. apply Hu.
  - set (a := arrivals (cam w2) fs).
    destruct (undisturbed_trans _ _ _ Hu2 Hu3) as (Ho3 & _ & _ & He3).
    destruct (fuse_cases a st w3) as (d & w4 & r & w5 & Ea & Eg & Hcases).
    pose proof (assemble_spec a st w3) as Hspec. cbv zeta in Hspec. rewrite Ea in Hspec.
    cbn [fst snd] in Hspec. destruct Hspec as (_ & _ & _ & Ho4 & _ & He4 & Himu & _).
    pose proof (undisturbed_getPoseAndIMU (st * 1000) maxWaitTimeMs_default w4) as Hu5.
    rewrite Eg in Hu5. cbn [snd] in Hu5. destruct Hu5 as (Ho5 & _ & _ & He5).
    assert (Hpub : publishInterIMU_ (cam w5) = publishInterIMU_ (cam w)).
    { rewrite Ho4, Ho3 in Ho5. apply options_eq in Ho5. tauto. }
    assert (Hev : events w5 = events w) by congruence.
    destruct Hcases as [(imu & _ & Hp & ->)|[(Hp & _ & ok & w6 & Ep & ->)|(_ & ->)]];
      cbn [fst snd]; split; intros Hw; try congruence.
Qed.

(** X13. A stamp that does not advance.  With [publishInterIMU_] on and a
    gyroscope buffer that is not empty, when the stamp of the images is not
    after [lastImuStamp_] (the assertion of line 1382 fails), the error of
    the [catch] block is the last message logged, no event is posted and
    [lastImuStamp_] stays; the record built from the frames is returned all
    the same. *)
Theorem X13_stale_stamp_keeps_record a st w :
  publishInterIMU_ (cam w) = true -> gyroBuffer_ (cam w) <> [] ->
  0 < lastImuStamp_ (cam w) -> st * 1000 <= lastImuStamp_ (cam w) ->
  let w' := snd (fuse a st w) in
  fst (fuse a st w) = fst (assemble a st w) /\
  lastImuStamp_ (cam w') = lastImuStamp_ (cam w) /\
  events w' = events w /\
  exists msgs, log w' = msgs ++ [ErrFrameCallback].
Proof.
  intros Hpub Hgyro Hpos Hstale. cbv zeta.
  destruct (fuse_cases a st w) as (d & w4 & r & w5 & Ea & Eg & Hcases).
  pose proof (assemble_spec a st w) as Hspec. cbv zeta in Hspec. rewrite Ea in Hspec.
  cbn [fst snd] in Hspec. destruct Hspec as (Hg4 & _ & _ & Ho4 & Hl4 & He4 & _).
  pose proof (undisturbed_getPoseAndIMU (st * 1000) maxWaitTimeMs_default w4) as Hu5.
  pose proof (grown_getPoseAndIMU (st * 1000) maxWaitTimeMs_default w4) as Hg5.
  rewrite Eg in Hu5, Hg5. cbn [snd] in Hu5, Hg5. destruct Hu5 as (Ho5 & _ & Hl5 & He5).
  assert (Hpub5 : publishInterIMU_ (cam w5) = true).
  { rewrite Ho4 in Ho5. apply options_eq in Ho5. destruct Ho5 as (_ & _ & _ & _ & E & _).
    congruence. }
  assert (Hgyro5 : gyroBuffer_ (cam w5) <> []).
  { apply (fed_nonempty (gyroBuffer_ (cam w4))); [apply Hg5|]. now rewrite Hg4. }
  assert (Hlast5 : lastImuStamp_ (cam w5) = lastImuStamp_ (cam w)) by congruence.
  assert (Hp : publish_inter_imu (st * 1000) w5 = (false, w5)).
  { unfold publish_inter_imu, bind, get_cam. rewrite Hlast5.
    apply Qltb_lt in Hpos. rewrite Hpos. apply Qltb_ge in Hstale. now rewrite Hstale. }
  rewrite Ea. cbn [fst].
  destruct Hcases as [(imu & _ & Hp5 & _)|[(_ & _ & ok & w6 & Ep & ->)|([Hp5|Hg] & _)]];
    try congruence.
  rewrite Hp in Ep. injection Ep as <- <-. cbn [fst snd say cam events log].
  repeat split; try congruence. now exists (log w5).
Qed.

End CaptureMore.

(** ** Publishing between two images *)

Section IteratorFacts.
Context {V : Type}.
Implicit Types (m : StdMap.t V).


Lemma upper_bound_le k m : (StdMap.upper_bound k m <= length m)%nat.
Proof.
  induction m as [|[k' v'] m IH]; cbn [StdMap.upper_bound length]; [lia|].
  destruct (Qltb k k'); lia.
Qed.


(** From [upper_bound(k)] on the keys are above [k]. *)
Lemma upper_bound_above k m :
  StdMap.ascending m = true ->
  forall e, In e (skipn (StdMap.upper_bound k m) m) -> k < fst e.
Proof.
  induction m as [|[k' v'] m IH]; intros Hasc e He.
  - destruct He.
  - apply ascending_cons in Hasc. destruct Hasc as [Hab Hasc].
    cbn [StdMap.upper_bound] in He. destruct (Qltb k k') eqn:E.
    + apply Qltb_lt in E. cbn [skipn] in He. destruct He as [<-|He]; [exact E|].
      specialize (Hab e He). lra.
    + cbn [skipn] in He. now apply IH.
Qed.

Lemma ascending_increasing m : StdMap.ascending m = true -> increasing (map fst m).
Proof.
  induction m as [|[k v] m IH]; intros Hasc; [exact I|].
  apply ascending_cons in Hasc. destruct Hasc as [Hab Hasc]. cbn [map increasing fst].
  split; [|now apply IH]. intros t' Ht. apply in_map_iff in Ht.
  destruct Ht as (e & <- & He). now apply Hab.
Qed.

End IteratorFacts.

Lemma In_firstn {A} n (l : list A) x : In x (firstn n l) -> In x l.
Proof.
  revert l. induction n as [|n IH]; intros [|a l]; cbn [firstn]; auto.
  - intros [].
  - intros [->|Hin]; [now left|right; now apply IH].
Qed.

Lemma increasing_skipn n (l : list Q) : increasing l -> increasing (skipn n l).
Proof.
  revert l. induction n as [|n IH]; intros [|t l] Hl; cbn [skipn]; try assumption.
  apply IH, Hl.
Qed.

Lemma increasing_firstn n (l : list Q) : increasing l -> increasing (firstn n l).
Proof.
  revert l. induction n as [|n IH]; intros [|t l] Hl; cbn [firstn]; try exact I.
  destruct Hl as [Hh Ht]. split; [|now apply IH].
  intros t' Hin. apply Hh. revert Hin. apply In_firstn.
Qed.

Lemma increasing_scaled (l : list Q) :
  increasing l -> increasing (map (fun t => t / 1000) l).
Proof.
  induction l as [|t l IH]; intros Hl; [exact I|]. destruct Hl as [Hh Ht].
  cbn [map increasing]. split; [|now apply IH].
  intros t' Hin. apply in_map_iff in Hin. destruct Hin as (t0 & <- & H0).
  specialize (Hh t0 H0). unfold Qdiv. apply Qmult_lt_compat_r; [reflexivity|exact Hh].
Qed.

Lemma In_skipn {A} n (l : list A) x : In x (skipn n l) -> In x l.
Proof.
  revert l. induction n as [|n IH]; intros [|a l]; cbn [skipn]; auto.
  intros Hin. right. now apply IH.
Qed.

Lemma skipn_S_incl {A} n (l : list A) x : In x (skipn (S n) l) -> In x (skipn n l).
Proof.
  revert l. induction n as [|n IH]; intros [|a l]; cbn [skipn]; auto;
    intros Hin; first [now right|now apply IH].
Qed.

Section PublishFacts.
Context {Transform : Type} `{Externals Transform}.
Implicit Types (c : Camera Transform) (w : World Transform).

(** The loop posts events for a first part of its stamps. *)
Lemma publish_loop_events stamps w :
  exists evs n, events (snd (publish_loop stamps w)) = events w ++ evs /\
                map ev_stamp evs = map (fun t => t / 1000) (firstn n stamps).
Proof.
  revert w. induction stamps as [|t rest IH]; intros w.
  - exists [], 0%nat. cbn. now rewrite app_nil_r.
  - cbn [publish_loop]. unfold bind.
    pose proof (undisturbed_getPoseAndIMU t maxWaitTimeMs_default w) as Hu.
    destruct (getPoseAndIMU t maxWaitTimeMs_default w) as [r w1]. cbn [snd] in Hu.
    destruct Hu as (_ & _ & _ & He). destruct (snd r) as [imuTmp|].
    + set (e := {| ev_imu := imuTmp; ev_stamp := t / 1000 |}).
      destruct (IH (snd (post e w1))) as (evs & n & E1 & E2).
      destruct (post e w1) as [u w2] eqn:Ep. cbn [snd] in *.
      exists (e :: evs), (S n). split.
      * rewrite E1. unfold post in Ep. injection Ep as _ <-. cbn [events].
        now rewrite He, <- app_assoc.
      * cbn [map firstn ev_stamp e]. now rewrite E2.
    + exists [], 0%nat. cbn. now rewrite app_nil_r, He.
Qed.



(** X15. The events posted between two images.  Each carries the stamp, in
    seconds, of a gyroscope sample that was in the buffer at the call and is
    later than [lastImuStamp_]; they are posted in increasing order of
    stamp. *)
Theorem X15_inter_imu_events_in_order imuStamp w :
  StdMap.ascending (gyroBuffer_ (cam w)) = true ->
  let w' := snd (publish_inter_imu imuStamp w) in
  exists evs,
    events w' = events w ++ evs /\
    increasing (map ev_stamp evs) /\
    forall e, In e evs ->
              exists k, In k (map fst (gyroBuffer_ (cam w))) /\
                        lastImuStamp_ (cam w) < k /\ ev_stamp e = k / 1000.
Proof.
  intros Hasc. cbv zeta. unfold publish_inter_imu, bind, get_cam.
  destruct (Qltb 0 (lastImuStamp_ (cam w)));
    [|exists []; cbn; rewrite app_nil_r; repeat split; intros e []].
  destruct (Qltb (lastImuStamp_ (cam w)) imuStamp);
    [|exists []; cbn; rewrite app_nil_r; repeat split; intros e []].
  set (buf := gyroBuffer_ (cam w)) in *.
  set (ub := StdMap.upper_bound (lastImuStamp_ (cam w)) buf).
  set (iterA := if negb (ub =? StdMap.end_ buf)%nat then S ub else ub).
  set (iterB := if negb (StdMap.lower_bound imuStamp buf =? StdMap.end_ buf)%nat
                then S (StdMap.lower_bound imuStamp buf)
                else StdMap.lower_bound imuStamp buf).
  set (stamps := map fst (firstn (iterB - iterA) (skipn iterA buf))).
  assert (Hinc : increasing stamps).
  { unfold stamps. rewrite <- firstn_map, <- skipn_map.
    apply increasing_firstn, increasing_skipn, ascending_increasing, Hasc. }
  assert (Hin : forall k, In k stamps ->
                          In k (map fst buf) /\ lastImuStamp_ (cam w) < k).
  { intros k Hk. unfold stamps in Hk. apply in_map_iff in Hk.
    destruct Hk as (e & <- & He). apply In_firstn in He.
    assert (He' : In e (skipn ub buf)).
    { unfold iterA in He. destruct (negb (ub =? StdMap.end_ buf)%nat);
        [now apply skipn_S_incl|exact He]. }
    split; [apply in_map, (In_skipn ub), He'|].
    now apply (upper_bound_above (lastImuStamp_ (cam w)) buf Hasc). }
  set (w0 := snd (set_imuMutexHeld true w)).
  assert (Hloop : exists evs n,
             events (snd (when (negb (iterA =? iterB)%nat) (publish_loop stamps) w0))
             = events w ++ evs /\
             map ev_stamp evs = map (fun t => t / 1000) (firstn n stamps)).
  { unfold when. destruct (negb (iterA =? iterB)%nat).
    - destruct (publish_loop_events stamps w0) as (evs & n & E1 & E2).
      exists evs, n. split; [exact E1|exact E2].
    - exists [], 0%nat. cbn. now rewrite app_nil_r. }
  destruct Hloop as (evs & n & E1 & E2). exists evs.
  change (set_imuMutexHeld true w) with (tt, w0). cbv iota.
  fold buf ub iterA iterB stamps.
  destruct (when (negb (iterA =? iterB)%nat) (publish_loop stamps) w0) as [u w1].
  cbn [snd] in E1. cbn. split; [exact E1|]. split.
  - rewrite E2. apply increasing_scaled, increasing_firstn, Hinc.
  - intros e He. apply (in_map ev_stamp) in He. rewrite E2 in He.
    apply in_map_iff in He. destruct He as (k & Ek & Hk). apply In_firstn in Hk.
    exists k. destruct (Hin k Hk). repeat split; auto.
Qed.

(** X16. What reaches the syncer.  Of a run of callbacks, the frames handed
    to the syncer are exactly those of the streams other than gyroscope,
    accelerometer and pose, in the order of arrival; the frames handed over
    before stay. *)
Theorem X16_syncer_gets_video_frames fs w :
  syncer_ (snd (run_callbacks fs w)) = syncer_ w ++ filter is_video fs.
Proof.
  revert w. induction fs as [|f fs IH]; intros w.
  - cbn. now rewrite app_nil_r.
  - rewrite run_callbacks_cons, IH. cbn [filter].
    unfold multiple_message_callback, frame_callback, is_video, bind, get_cam,
      modify_cam, ret.
    destruct (stream_type f); cbn; try reflexivity; try (now rewrite <- app_assoc).
    now destruct (odometryProvided_ (cam w)).
Qed.

End PublishFacts.

(** ** [init]: the devices *)

Section DeviceFacts.
Implicit Types (dev : Setup.device) (list : list Setup.device).

Lemma find_snoc {A} (f : A -> bool) (l : list A) (x : A) :
  find f (l ++ [x]) =
  match find f l with Some y => Some y | None => if f x then Some x else None end.
Proof.
  induction l as [|a l IH]; cbn [app find]; [reflexivity|]. now destruct (f a).
Qed.

(** The loop takes the first wanted device for [dev_[0]] and, in a dual
    setup, the last T265 for [dev_[1]]. *)
Lemma pick_fold dual id list st :
  fold_left (Setup.pick dual id) list st
  = (if snd st then fst (fst st)
     else match find (Setup.wanted dual id) list with
          | Some d => Some d
          | None => fst (fst st)
          end,
     if dual
     then match find Setup.is_T265 (rev list) with
          | Some t => Some t
          | None => snd (fst st)
          end
     else snd (fst st),
     snd st || existsb (Setup.wanted dual id) list).
Proof.
  revert st. induction list as [|dev list IH]; intros [[d0 d1] found].
  - cbn. rewrite orb_false_r. now destruct found, dual.
  - cbn [fold_left]. rewrite IH. clear IH. cbn [rev find existsb]. rewrite find_snoc.
    unfold Setup.pick, Setup.wanted, Setup.is_T265.
    destruct dual, found, (Setup.pid dev =? 2871)%Z,
      (Setup.empty id || String.eqb id (Setup.serial_number dev)),
      (find (fun dev0 => negb (_ && (Setup.pid dev0 =? 2871)%Z) && _) list),
      (find (fun dev0 => (Setup.pid dev0 =? 2871)%Z) (rev list));
      reflexivity.
Qed.

Lemma pick_fold_start dual id list :
  fold_left (Setup.pick dual id) list (None, None, false)
  = (find (Setup.wanted dual id) list,
     if dual then find Setup.is_T265 (rev list) else None,
     existsb (Setup.wanted dual id) list).
Proof.
  rewrite pick_fold. cbn [orb fst snd].
  destruct (find (Setup.wanted dual id) list), dual; try reflexivity;
    now destruct (find Setup.is_T265 (rev list)).
Qed.

Lemma existsb_find {A} (f : A -> bool) (l : list A) :
  existsb f l = match find f l with Some _ => true | None => false end.
Proof. induction l as [|a l IH]; cbn; [reflexivity|]. now destruct (f a). Qed.

(** X17. When the selection of the devices fails, whatever the reason, no
    device is kept: both slots of [dev_] are null afterwards, and [getSerial]
    answers NA. *)
Theorem X17_failed_selection_keeps_nothing dual id list :
  snd (Setup.init_devices dual id list) <> None ->
  fst (Setup.init_devices dual id list) = (None, None) /\
  Setup.getSerial (fst (Setup.init_devices dual id list)) = Setup.NA.
Proof.
  intros Hfail.
  assert (Hnone : fst (Setup.init_devices dual id list) = (None, None)).
  { revert Hfail. unfold Setup.init_devices. destruct list as [|dev list]; [reflexivity|].
    rewrite pick_fold_start, existsb_find.
    destruct (find (Setup.wanted dual id) (dev :: list)); cbn [negb].
    - destruct dual; cbn [andb].
      + destruct (find Setup.is_T265 (rev (dev :: list))); cbn; intros Hfail;
          [now elim Hfail|reflexivity].
      + cbn. intros Hfail. now elim Hfail.
    - intros _. destruct dual; cbn [andb]; [|reflexivity].
      destruct (find Setup.is_T265 (rev (dev :: list))); reflexivity. }
  split; [exact Hnone|]. now rewrite Hnone.
Qed.

(** X18. When the selection succeeds, [dev_[0]] is the first device listed
    that is wanted: not the T265 of a dual setup, and with the serial number
    asked for when one is given, which [getSerial] then returns.  In a dual
    setup [dev_[1]] is the last T265 listed; otherwise it stays null. *)
Theorem X18_selected_devices dual id list
    (dev_ : option Setup.device * option Setup.device) :
  Setup.init_devices dual id list = (dev_, None) ->
  (exists d, fst dev_ = Some d /\ find (Setup.wanted dual id) list = Some d /\
             Setup.getSerial dev_ = Setup.serial_number d /\
             (dual = true -> Setup.is_T265 d = false) /\
             (Setup.empty id = false -> Setup.getSerial dev_ = id)) /\
  (if dual
   then exists t, snd dev_ = Some t /\ find Setup.is_T265 (rev list) = Some t
   else snd dev_ = None).
Proof.
  unfold Setup.init_devices. destruct list as [|dev list]; [discriminate|].
  rewrite pick_fold_start, existsb_find.
  destruct (find (Setup.wanted dual id) (dev :: list)) as [d|] eqn:Efind; cbn [negb].
  2:{ destruct (dual && _); discriminate. }
  assert (Hd : Setup.wanted dual id d = true) by (apply find_some in Efind; apply Efind).
  intros E. split.
  - exists d.
    assert (E0 : fst dev_ = Some d).
    { destruct dual; cbn [andb] in E.
      - destruct (find Setup.is_T265 (rev (dev :: list))); cbn in E; [|discriminate].
        now injection E as <-.
      - now injection E as <-. }
    split; [exact E0|]. split; [reflexivity|].
    unfold Setup.getSerial. rewrite E0. split; [reflexivity|].
    unfold Setup.wanted in Hd. apply andb_true_iff in Hd. destruct Hd as [Hn Hm].
    split.
    + intros ->. cbn [andb] in Hn. now apply negb_true_iff in Hn.
    + intros Hne. rewrite Hne in Hm. cbn [orb] in Hm. apply String.eqb_eq in Hm.
      now symmetry.
  - destruct dual; cbn [andb] in E.
    + destruct (find Setup.is_T265 (rev (dev :: list))) as [t|]; cbn in E; [|discriminate].
      exists t. injection E as <-. split; reflexivity.
    + now injection E as <-.
Qed.

End DeviceFacts.

(** ** [init]: the stream profiles *)

Section ProfileFacts.
Implicit Types (s : Setup.Settings) (p q : Setup.stream_profile)
  (ps listed : list Setup.stream_profile) (sel : Setup.Selection).

Lemma rs2_stream_eqb_eq (a b : rs2_stream) : rs2_stream_eqb a b = true <-> a = b.
Proof. destruct a, b; cbn; split; congruence. Qed.

Lemma rs2_stream_eqb_refl (a : rs2_stream) : rs2_stream_eqb a a = true.
Proof. now destruct a. Qed.

(** While [stereo] is off the turn does not read [pi]. *)
Lemma select_profile_pi s i pi pi' sel p :
  Setup.stereo s = false ->
  Setup.select_profile s i pi sel p = Setup.select_profile s i pi' sel p.
Proof. intros Hs. unfold Setup.select_profile. now rewrite Hs. Qed.

Lemma select_profiles_pi s i pi pi' sel listed :
  Setup.stereo s = false ->
  Setup.select_profiles s i pi sel listed = Setup.select_profiles s i pi' sel listed.
Proof.
  intros Hs. revert pi pi' sel. induction listed as [|p listed IH]; intros pi pi' sel;
    [reflexivity|].
  cbn [Setup.select_profiles]. rewrite (select_profile_pi s i pi pi' sel p Hs).
  destruct (Setup.select_profile s i pi' sel p) as [sel' [| |]]; try reflexivity.
  apply IH.
Qed.

(** *** The motion module *)

Lemma select_profile_motion s i pi sel p :
  Setup.stereo s = false -> Setup.video_test s p = false ->
  Setup.is_motion_format p = true ->
  Setup.select_profile s i pi sel p = (Setup.motion_step sel p, Setup.Next).
Proof.
  intros Hs Hv Hm. unfold Setup.video_test, Setup.fits in Hv.
  apply orb_false_iff in Hv. destruct Hv as [H1 H2].
  unfold Setup.select_profile. rewrite Hs, H1, H2, Hm. reflexivity.
Qed.

Lemma select_profiles_motion s i listed :
  Setup.stereo s = false ->
  (forall p, In p listed -> Setup.video_test s p = false /\
                            Setup.is_motion_format p = true) ->
  forall pi sel,
    Setup.select_profiles s i pi sel listed = (fold_left Setup.motion_step listed sel, false).
Proof.
  intros Hs. induction listed as [|p listed IH]; intros Hall pi sel; [reflexivity|].
  cbn [Setup.select_profiles fold_left].
  destruct (Hall p (or_introl eq_refl)) as [Hv Hm].
  rewrite select_profile_motion by assumption. apply IH.
  intros p' Hp'. apply Hall. now right.
Qed.

Lemma filter_map_same {A} (f : A -> bool) (r : A -> A) (l : list A) :
  (forall x, f (r x) = f x) -> filter f (map r l) = map r (filter f l).
Proof.
  intros Hr. induction l as [|x l IH]; [reflexivity|].
  cbn [map filter]. rewrite Hr. destruct (f x); cbn [map]; now rewrite IH.
Qed.

Lemma of_stream_replace k p q :
  Setup.of_stream k (Setup.replace_motion p q) = Setup.of_stream k q.
Proof.
  unfold Setup.replace_motion, Setup.of_stream.
  destruct (rs2_stream_eqb (Setup.stream_type q) (Setup.stream_type p)) eqn:E;
    [|reflexivity].
  apply rs2_stream_eqb_eq in E.
  destruct (rs2_stream_eqb (Setup.stream_type p) RS2_STREAM_ACCEL).
  - destruct (_ <? _)%Z; [now rewrite E|reflexivity].
  - destruct (rs2_stream_eqb (Setup.stream_type p) RS2_STREAM_GYRO); [|reflexivity].
    destruct (_ <? _)%Z; [now rewrite E|reflexivity].
Qed.

Lemma replace_other k p ps :
  Setup.of_stream k p = false ->
  map (Setup.replace_motion p) (filter (Setup.of_stream k) ps) = filter (Setup.of_stream k) ps.
Proof.
  intros Hp. induction ps as [|q ps IH]; [reflexivity|]. cbn [filter].
  destruct (Setup.of_stream k q) eqn:Eq; [|exact IH]. cbn [map]. rewrite IH. f_equal.
  unfold Setup.replace_motion, Setup.of_stream in *.
  destruct (rs2_stream_eqb (Setup.stream_type q) (Setup.stream_type p)) eqn:E;
    [|reflexivity].
  apply rs2_stream_eqb_eq in E. rewrite E in Eq. congruence.
Qed.

Lemma modified_of_stream k p ps :
  k = RS2_STREAM_ACCEL \/ k = RS2_STREAM_GYRO -> Setup.of_stream k p = true ->
  Setup.modified p ps = match filter (Setup.of_stream k) ps with [] => false | _ => true end.
Proof.
  intros Hk Hp. unfold Setup.of_stream in Hp. apply rs2_stream_eqb_eq in Hp.
  unfold Setup.modified. rewrite Hp.
  assert (Hkind : rs2_stream_eqb k RS2_STREAM_ACCEL || rs2_stream_eqb k RS2_STREAM_GYRO = true)
    by (destruct Hk as [->| ->]; reflexivity).
  rewrite Hkind. induction ps as [|q ps IH]; [reflexivity|].
  cbn [existsb filter]. unfold Setup.of_stream at 1.
  destruct (rs2_stream_eqb (Setup.stream_type q) k); cbn [andb orb]; [reflexivity|exact IH].
Qed.

(** What a turn does to the profiles of the accelerometer, and to those of
    the gyroscope. *)
Lemma motion_step_filter k sel p :
  k = RS2_STREAM_ACCEL \/ k = RS2_STREAM_GYRO ->
  filter (Setup.of_stream k) (Setup.profiles (Setup.motion_step sel p)) =
  if Setup.of_stream k p then
    match filter (Setup.of_stream k) (Setup.profiles sel) with
    | [] => [p]
    | bs => map (Setup.replace_motion p) bs
    end
  else filter (Setup.of_stream k) (Setup.profiles sel).
Proof.
  intros Hk. unfold Setup.motion_step. cbn [Setup.profiles].
  set (ps := Setup.profiles sel).
  assert (Hmap : filter (Setup.of_stream k) (map (Setup.replace_motion p) ps)
                 = map (Setup.replace_motion p) (filter (Setup.of_stream k) ps)).
  { apply filter_map_same. intros q. apply of_stream_replace. }
  destruct (Setup.of_stream k p) eqn:Ep.
  - rewrite (modified_of_stream k p ps Hk Ep).
    destruct (filter (Setup.of_stream k) ps) as [|b bs] eqn:Ef; cbn [negb].
    + rewrite filter_app, Hmap. cbn [map filter app]. now rewrite Ep.
    + exact Hmap.
  - destruct (negb _).
    + rewrite filter_app, Hmap. cbn [filter]. rewrite Ep, app_nil_r.
      now apply replace_other.
    + rewrite Hmap. now apply replace_other.
Qed.

Lemma at_least_refl k p : Setup.at_least k p p.
Proof. unfold Setup.at_least. destruct (rs2_stream_eqb _ _); lia. Qed.

Lemma at_least_trans k p q r :
  Setup.at_least k p q -> Setup.at_least k q r -> Setup.at_least k p r.
Proof. unfold Setup.at_least. destruct (rs2_stream_eqb _ _); lia. Qed.

(** The profile kept for a stream after a turn is as good as the new one and
    as the one kept before. *)
Lemma replace_at_least k p q :
  k = RS2_STREAM_ACCEL \/ k = RS2_STREAM_GYRO ->
  Setup.of_stream k p = true -> Setup.of_stream k q = true ->
  (Setup.replace_motion p q = p \/ Setup.replace_motion p q = q) /\
  Setup.at_least k (Setup.replace_motion p q) p /\
  Setup.at_least k (Setup.replace_motion p q) q.
Proof.
  intros Hk Hp Hq. unfold Setup.of_stream in Hp, Hq.
  apply rs2_stream_eqb_eq in Hp, Hq. unfold Setup.replace_motion, Setup.at_least.
  rewrite Hp, Hq, rs2_stream_eqb_refl.
  destruct Hk as [->| ->]; cbn [rs2_stream_eqb].
  - destruct (Z.ltb_spec (Setup.fps q) (Setup.fps p)); repeat split; auto; lia.
  - destruct (Z.ltb_spec (Setup.fps p) (Setup.fps q)); repeat split; auto; lia.
Qed.

(** X19. The rates of the motion module.  Of the accelerometer profiles a
    sensor lists, one is opened, with the highest rate listed; of the
    gyroscope profiles, one, with the lowest rate listed. *)
Theorem X19_motion_profile_rates s i rgb depth listed :
  Setup.stereo s = false ->
  (forall p, In p listed -> Setup.video_test s p = false /\
                            Setup.is_motion_format p = true) ->
  exists sel,
    Setup.select_profiles s i 0 (Setup.Selection_init rgb depth) listed = (sel, false) /\
    (forall p, In p listed -> Setup.of_stream RS2_STREAM_ACCEL p = true ->
               exists q, filter (Setup.of_stream RS2_STREAM_ACCEL) (Setup.profiles sel) = [q] /\
                         In q listed /\ (Setup.fps p <= Setup.fps q)%Z) /\
    (forall p, In p listed -> Setup.of_stream RS2_STREAM_GYRO p = true ->
               exists q, filter (Setup.of_stream RS2_STREAM_GYRO) (Setup.profiles sel) = [q] /\
                         In q listed /\ (Setup.fps q <= Setup.fps p)%Z).
Proof.
  intros Hs Hall. rewrite (select_profiles_motion s i listed Hs Hall).
  eexists. split; [reflexivity|].
  assert (Hinv : forall k, k = RS2_STREAM_ACCEL \/ k = RS2_STREAM_GYRO ->
            forall l seen sel,
              (filter (Setup.of_stream k) (Setup.profiles sel) = [] /\
               filter (Setup.of_stream k) seen = []) \/
              (exists q, filter (Setup.of_stream k) (Setup.profiles sel) = [q] /\
                         In q seen /\ Setup.of_stream k q = true /\
                         forall p, In p seen -> Setup.of_stream k p = true ->
                                   Setup.at_least k q p) ->
              let sel' := fold_left Setup.motion_step l sel in
              (filter (Setup.of_stream k) (Setup.profiles sel') = [] /\
               filter (Setup.of_stream k) (seen ++ l) = []) \/
              (exists q, filter (Setup.of_stream k) (Setup.profiles sel') = [q] /\
                         In q (seen ++ l) /\ Setup.of_stream k q = true /\
                         forall p, In p (seen ++ l) -> Setup.of_stream k p = true ->
                                   Setup.at_least k q p)).
  { intros k Hk. induction l as [|p l IH]; intros seen sel Hinv; cbv zeta.
    - cbn [fold_left]. now rewrite app_nil_r.
    - cbn [fold_left]. replace (seen ++ p :: l) with ((seen ++ [p]) ++ l)
        by (now rewrite <- app_assoc).
      apply IH. rewrite motion_step_filter by exact Hk.
      destruct (Setup.of_stream k p) eqn:Ep.
      + right. destruct Hinv as [[E1 E2]|(q & E1 & Hq & Hkq & Hbest)].
        * rewrite E1. exists p. split; [reflexivity|]. split; [apply in_or_app; right; now left|].
          split; [exact Ep|]. intros p' Hp' Hk'. apply in_app_or in Hp'.
          destruct Hp' as [Hp'|[<-|[]]]; [|apply at_least_refl].
          exfalso. assert (Hin : In p' (filter (Setup.of_stream k) seen))
            by (apply filter_In; now split).
          rewrite E2 in Hin. destruct Hin.
        * rewrite E1. cbn [map].
          destruct (replace_at_least k p q Hk Ep Hkq) as (Hwhich & Hp & Hq').
          exists (Setup.replace_motion p q). split; [reflexivity|]. split.
          { apply in_or_app. destruct Hwhich as [-> | ->]; [right; now left|now left]. }
          split; [now rewrite of_stream_replace|].
          intros p' Hp' Hk'. apply in_app_or in Hp'. destruct Hp' as [Hp'|[<-|[]]].
          -- apply (at_least_trans k _ q); [exact Hq'|now apply Hbest].
          -- exact Hp.
      + destruct Hinv as [[E1 E2]|(q & E1 & Hq & Hkq & Hbest)].
        * left. split; [exact E1|]. rewrite filter_app, E2. cbn [filter]. now rewrite Ep.
        * right. exists q. split; [exact E1|]. split; [apply in_or_app; now left|].
          split; [exact Hkq|]. intros p' Hp' Hk'. apply in_app_or in Hp'.
          destruct Hp' as [Hp'|[<-|[]]]; [now apply Hbest|congruence]. }
  split.
  - intros p Hp Hk.
    destruct (Hinv RS2_STREAM_ACCEL (or_introl eq_refl) listed []
                (Setup.Selection_init rgb depth)) as [[_ E]|(q & E & Hq & _ & Hbest)].
    + left. now split.
    + exfalso. cbn [app] in E.
      assert (Hin : In p (filter (Setup.of_stream RS2_STREAM_ACCEL) listed))
        by (apply filter_In; now split).
      rewrite E in Hin. destruct Hin.
    + exists q. split; [exact E|]. split; [exact Hq|]. apply (Hbest p Hp Hk).
  - intros p Hp Hk.
    destruct (Hinv RS2_STREAM_GYRO (or_intror eq_refl) listed []
                (Setup.Selection_init rgb depth)) as [[_ E]|(q & E & Hq & _ & Hbest)].
    + left. now split.
    + exfalso. cbn [app] in E.
      assert (Hin : In p (filter (Setup.of_stream RS2_STREAM_GYRO) listed))
        by (apply filter_In; now split).
      rewrite E in Hin. destruct Hin.
    + exists q. split; [exact E|]. split; [exact Hq|]. apply (Hbest p Hp Hk).
Qed.

(** *** The infrared pair *)

Lemma select_profile_skip s i pi sel p :
  Setup.stereo s = false -> Setup.isL500_ s = false ->
  Setup.taken s p = false -> Setup.is_motion_format p = false ->
  Setup.select_profile s i pi sel p = (sel, Setup.Next).
Proof.
  intros Hs Hl Ht Hm. unfold Setup.select_profile, Setup.taken, Setup.fits in *.
  rewrite Hs, Hl, Hm. cbn [negb andb].
  destruct ((Setup.width p =? Setup.cameraWidth_ s)%Z
            && (Setup.height p =? Setup.cameraHeight_ s)%Z
            && (Setup.fps p =? Setup.cameraFps_ s)%Z); [|reflexivity].
  cbn [andb] in Ht. apply orb_false_iff in Ht. destruct Ht as [-> ->]. reflexivity.
Qed.

(** Only the profiles that are taken count. *)
Lemma select_profiles_taken s i listed :
  Setup.stereo s = false -> Setup.isL500_ s = false ->
  (forall p, In p listed -> Setup.is_motion_format p = false) ->
  forall pi sel,
    Setup.select_profiles s i pi sel listed
    = Setup.select_profiles s i 0 sel (filter (Setup.taken s) listed).
Proof.
  intros Hs Hl. induction listed as [|p listed IH]; intros Hall pi sel; [reflexivity|].
  assert (Hrest : forall p', In p' listed -> Setup.is_motion_format p' = false)
    by (intros p' Hp'; apply Hall; now right).
  cbn [Setup.select_profiles filter]. destruct (Setup.taken s p) eqn:Et.
  - cbn [Setup.select_profiles]. rewrite (select_profile_pi s i pi 0 sel p Hs).
    destruct (Setup.select_profile s i 0 sel p) as [sel' [| |]]; try reflexivity.
    rewrite (IH Hrest). apply select_profiles_pi, Hs.
  - rewrite select_profile_skip; try assumption; [now apply IH|].
    apply Hall. now left.
Qed.

Lemma filter_head {A} (f : A -> bool) (l : list A) a rest :
  filter f l = a :: rest -> f a = true.
Proof.
  intros E. assert (Hin : In a (filter f l)) by (rewrite E; now left).
  apply filter_In in Hin. apply Hin.
Qed.

(** X20. The infrared pair.  On a D400 with the infrared images asked for
    as a stereo pair ([ir_] on, [irDepth_] off), when the first two profiles
    of a sensor that fit the resolution and the rate are the left and the
    right infrared one, in either order, the sensor is opened with the left
    one first and the right one second, and they are the two kept for the
    extrinsics. *)
Theorem X20_infrared_pair_in_order s i rgb depth listed a b rest l r :
  Setup.stereo s = false -> Setup.isL500_ s = false ->
  Setup.ir_ s = true -> Setup.irDepth_ s = false ->
  (forall p, In p listed -> Setup.is_motion_format p = false) ->
  filter (Setup.taken s) listed = a :: b :: rest ->
  Setup.is_rgb_or_ir_left s l = true -> Setup.is_depth_or_ir_right s r = true ->
  (a = l /\ b = r) \/ (a = r /\ b = l) ->
  Setup.select_profiles s i 0 (Setup.Selection_init rgb depth) listed
  = ({| Setup.profiles := [l; r]; Setup.rgbStreamProfile := Some l;
        Setup.depthStreamProfile := Some r; Setup.added := true |}, false).
Proof.
  intros Hs Hl Hir Hird Hall Hf Hleft Hright Horder.
  rewrite (select_profiles_taken s i listed Hs Hl Hall), Hf.
  assert (Hta : Setup.taken s a = true) by (apply (filter_head _ _ _ _ Hf)).
  assert (Htb : Setup.taken s b = true).
  { assert (Hin : In b (filter (Setup.taken s) listed)) by (rewrite Hf; right; now left).
    apply filter_In in Hin. apply Hin. }
  assert (Hfl : Setup.fits s l = true /\ Setup.fits s r = true).
  { unfold Setup.taken in Hta, Htb. apply andb_true_iff in Hta, Htb.
    destruct Horder as [[-> ->]|[-> ->]]; tauto. }
  destruct Hfl as [Hfitl Hfitr].
  unfold Setup.is_rgb_or_ir_left in Hleft. unfold Setup.is_depth_or_ir_right in Hright.
  rewrite Hir in Hleft, Hright. rewrite Hird in Hright. cbn [negb andb orb] in Hleft, Hright.
  rewrite !andb_true_iff in Hleft, Hright.
  destruct Hleft as [HlY Hl1]. destruct Hright as [HrY Hr2].
  assert (HlRGB : Setup.rs2_format_eqb (Setup.format l) Setup.RS2_FORMAT_RGB8 = false)
    by (destruct (Setup.format l); try discriminate; reflexivity).
  assert (Hl2 : (Setup.stream_index l =? 2)%Z = false)
    by (apply Z.eqb_eq in Hl1; rewrite Hl1; reflexivity).
  assert (Hr1 : (Setup.stream_index r =? 1)%Z = false)
    by (apply Z.eqb_eq in Hr2; rewrite Hr2; reflexivity).
  assert (HlZ : Setup.rs2_format_eqb (Setup.format l) Setup.RS2_FORMAT_Z16 = false)
    by (destruct (Setup.format l); try discriminate; reflexivity).
  assert (HrZ : Setup.rs2_format_eqb (Setup.format r) Setup.RS2_FORMAT_Z16 = false)
    by (destruct (Setup.format r); try discriminate; reflexivity).
  unfold Setup.fits in Hfitl, Hfitr.
  destruct Horder as [[-> ->]|[-> ->]];
    cbn [Setup.select_profiles]; unfold Setup.select_profile, Setup.is_rgb_or_ir_left,
      Setup.is_depth_or_ir_right, Setup.push, Setup.Selection_init;
    cbn [Setup.profiles Setup.rgbStreamProfile Setup.depthStreamProfile Setup.added];
    rewrite Hs, Hl, Hir, Hird, Hfitl, Hfitr, HlY, HrY, Hl1, Hr2, ?HlRGB, ?Hl2, ?Hr1,
      ?HlZ, ?HrZ;
    cbn; rewrite ?Hs, ?Hl, ?Hir, ?Hird, ?Hfitl, ?Hfitr, ?HlY, ?HrY, ?Hl1, ?Hr2, ?HlRGB,
      ?Hl2, ?Hr1, ?HlZ, ?HrZ; cbn; reflexivity.
Qed.

(** *** The T265 on its own *)

Lemma tracking_run s i listed :
  Setup.stereo s = true -> Setup.dualMode_ s = false -> (i < 2)%nat ->
  forall pi sel,
  exists sel',
    Setup.select_profiles s i pi sel listed = (sel', false) /\
    Setup.profiles sel' = Setup.profiles sel ++ filter Setup.opened_on_T265 listed /\
    Setup.rgbStreamProfile sel'
    = match pi, listed with
      | O, p :: _ => if Setup.is_fisheye p then Some p else Setup.rgbStreamProfile sel
      | _, _ => Setup.rgbStreamProfile sel
      end.
Proof.
  intros Hs Hd Hi. apply Nat.ltb_lt in Hi.
  induction listed as [|p listed IH]; intros pi sel.
  - exists sel. cbn. rewrite app_nil_r. split; [reflexivity|]. split; [reflexivity|].
    now destruct pi.
  - cbn [Setup.select_profiles filter]. unfold Setup.select_profile, Setup.opened_on_T265.
    rewrite Hs, Hd, Hi. cbn [negb andb orb]. fold (Setup.is_fisheye p).
    destruct (Setup.is_fisheye p) eqn:Ef; cbn [orb].
    + destruct pi as [|pi]; cbn [Nat.eqb].
      * destruct (IH 1%nat
                    {| Setup.profiles := Setup.push p sel;
                       Setup.rgbStreamProfile := Some p;
                       Setup.depthStreamProfile := Setup.depthStreamProfile sel;
                       Setup.added := true |}) as (sel' & E & Hp & Hr).
        exists sel'. split; [exact E|]. rewrite Hp, Hr. unfold Setup.push.
        cbn [Setup.profiles Setup.rgbStreamProfile]. now rewrite <- app_assoc.
      * destruct (IH (S (S pi))
                    {| Setup.profiles := Setup.push p sel;
                       Setup.rgbStreamProfile := Setup.rgbStreamProfile sel;
                       Setup.depthStreamProfile := Some p;
                       Setup.added := true |}) as (sel' & E & Hp & Hr).
        exists sel'. split; [exact E|]. rewrite Hp, Hr. unfold Setup.push.
        cbn [Setup.profiles Setup.rgbStreamProfile]. now rewrite <- app_assoc.
    + destruct (Setup.is_motion_format p) eqn:Em.
      * destruct (IH (S pi)
                    {| Setup.profiles := Setup.push p sel;
                       Setup.rgbStreamProfile := Setup.rgbStreamProfile sel;
                       Setup.depthStreamProfile := Setup.depthStreamProfile sel;
                       Setup.added := true |}) as (sel' & E & Hp & Hr).
        exists sel'. split; [exact E|]. rewrite Hp, Hr. unfold Setup.push.
        cbn [Setup.profiles Setup.rgbStreamProfile]. rewrite <- app_assoc.
        split; [reflexivity|]. now destruct pi.
      * destruct (IH (S pi) sel) as (sel' & E & Hp & Hr).
        exists sel'. split; [exact E|]. rewrite Hp, Hr. split; [reflexivity|].
        now destruct pi.
Qed.

(** X21. The T265 on its own.  With the tracking camera as the only device
    ([stereo] set, no dual mode), the profiles opened are the fisheye and
    motion profiles of the listing, in the order of the listing, which is
    what the indices 0 to 4 of lines 979-989 and the assertion of line 985
    count on; the left image is the first profile of the listing when that
    is a fisheye profile, and the assertion of line 816 holds for the
    sensors 0 and 1. *)
Theorem X21_tracking_profiles_in_listing_order s i rgb depth listed :
  Setup.stereo s = true -> Setup.dualMode_ s = false -> (i < 2)%nat ->
  exists sel,
    Setup.select_profiles s i 0 (Setup.Selection_init rgb depth) listed = (sel, false) /\
    Setup.profiles sel = filter Setup.opened_on_T265 listed /\
    Setup.rgbStreamProfile sel
    = match listed with
      | p :: _ => if Setup.is_fisheye p then Some p else rgb
      | [] => rgb
      end.
Proof.
  intros Hs Hd Hi.
  destruct (tracking_run s i listed Hs Hd Hi 0%nat (Setup.Selection_init rgb depth))
    as (sel & E & Hp & Hr).
  exists sel. split; [exact E|]. split; [exact Hp|]. rewrite Hr. now destruct listed.
Qed.

End ProfileFacts.

(** ** The frames of a frame set *)

Section ArrivalFacts.
Context {Transform : Type} `{Externals Transform}.
Implicit Types (c : Camera Transform) (w : World Transform).

(** X22. A capture changes no option: [ir_], [irDepth_],
    [odometryProvided_], [globalTimeSync_], [publishInterIMU_], [dualMode_]
    and [isL500_] are after it what they were before, whatever arrives
    during its waits. *)
Theorem X22_capture_keeps_options first retries now w :
  options (cam (snd (captureImage first retries now w))) = options (cam w).
Proof.
  apply (walk_captureImage same_options same_options_trans same_options_house
           same_options_callback).
  - intros e w0. reflexivity.
  - intros n w0. reflexivity.
  - intros t w0. reflexivity.
Qed.

(** In the stereo mode, once a frame has been taken for the right image,
    every further image frame is taken for the left one. *)
Lemma arrive_stereo_rest c rest :
  stereo_ir c = true ->
  (forall f, In f rest -> is_image_stream f = true) ->
  forall a, is_depth_arrived a = true ->
    let a' := fold_left (arrive c) rest a in
    depth_frame a' = depth_frame a /\ is_depth_arrived a' = true /\
    (rest <> [] ->
     is_rgb_arrived a' = true /\
     forall d, rgb_frame a' = Some (last rest d)).
Proof.
  intros Hmode. unfold stereo_ir in Hmode. rewrite !andb_true_iff in Hmode.
  destruct Hmode as [[Hl Hir] Hird]. apply negb_true_iff in Hl, Hird.
  induction rest as [|f rest IH]; intros Hall a Hd; cbv zeta.
  - cbn [fold_left]. split; [reflexivity|]. split; [exact Hd|]. intros Hne. now elim Hne.
  - cbn [fold_left].
    assert (Hf : is_image_stream f = true) by (apply Hall; now left).
    assert (Hstep : depth_frame (arrive c a f) = depth_frame a /\
                    is_depth_arrived (arrive c a f) = true /\
                    is_rgb_arrived (arrive c a f) = true /\
                    rgb_frame (arrive c a f) = Some f).
    { unfold arrive, is_image_stream in *.
      destruct (stream_type f); try discriminate;
        rewrite Hl, Hir, Hird, Hd; cbn; repeat split; assumption. }
    destruct Hstep as (S1 & S2 & S3 & S4).
    destruct (IH (fun f' Hf' => Hall f' (or_intror Hf')) (arrive c a f) S2)
      as (I1 & I2 & I3).
    split; [congruence|]. split; [exact I2|]. intros _.
    destruct rest as [|f' rest'].
    + cbn [fold_left last]. split; [exact S3|]. intros d. exact S4.
    + destruct I3 as [I3 I4]; [discriminate|]. split; [exact I3|].
      intros d. rewrite (I4 f). now rewrite !last_cons_default.
Qed.

(** X23. The stereo pair goes by the order of the frames.  With the
    infrared images asked for as a stereo pair on a D400, the first frame of
    the frame set is taken for the right image and the last one for the left
    image, whatever the frames are: the loop does not look at which of the
    two infrared streams a frame belongs to. *)
Theorem X23_stereo_pair_by_order c fs f1 rest :
  stereo_ir c = true ->
  fs_frames fs = f1 :: rest -> rest <> [] ->
  (forall f, In f (fs_frames fs) -> is_image_stream f = true) ->
  depth_frame (arrivals c fs) = Some f1 /\
  rgb_frame (arrivals c fs) = Some (last rest f1) /\
  is_rgb_arrived (arrivals c fs) = true /\ is_depth_arrived (arrivals c fs) = true.
Proof.
  intros Hmode Hfs Hne Hall. unfold arrivals. rewrite Hfs in *. cbn [fold_left].
  assert (Hf1 : is_image_stream f1 = true) by (apply Hall; now left).
  assert (Hstep : depth_frame (arrive c (Arrived_init fs) f1) = Some f1 /\
                  is_depth_arrived (arrive c (Arrived_init fs) f1) = true).
  { pose proof Hmode as Hm. unfold stereo_ir in Hm. rewrite !andb_true_iff in Hm.
    destruct Hm as [[Hl Hir] Hird]. apply negb_true_iff in Hl, Hird.
    unfold arrive, is_image_stream, Arrived_init in *.
    destruct (stream_type f1); try discriminate; rewrite Hl, Hir, Hird; cbn; now split. }
  destruct Hstep as [S1 S2].
  destruct (arrive_stereo_rest c rest Hmode (fun f Hf => Hall f (or_intror Hf))
              (arrive c (Arrived_init fs) f1) S2) as (I1 & I2 & I3).
  destruct (I3 Hne) as [I4 I5].
  split; [congruence|]. split; [apply I5|]. split; assumption.
Qed.

(** Outside the stereo mode and without fisheye frames, the image is the
    last frame taken for it and the depth the last depth frame. *)
Lemma arrive_rgbd c l :
  stereo_ir c = false ->
  (forall f, In f l -> is_fisheye_stream f = false) ->
  forall a,
    let a' := fold_left (arrive c) l a in
    rgb_frame a' = last (map Some (filter (takes_rgb c) l)) (rgb_frame a) /\
    depth_frame a' = last (map Some (filter is_depth_stream l)) (depth_frame a) /\
    is_rgb_arrived a' = is_rgb_arrived a || existsb (takes_rgb c) l /\
    is_depth_arrived a' = is_depth_arrived a || existsb is_depth_stream l.
Proof.
  intros Hmode. induction l as [|f l IH]; intros Hall a; cbv zeta.
  - cbn. now rewrite !orb_false_r.
  - cbn [fold_left].
    destruct (IH (fun f' Hf' => Hall f' (or_intror Hf')) (arrive c a f))
      as (I1 & I2 & I3 & I4).
    rewrite I1, I2, I3, I4. clear IH I1 I2 I3 I4.
    assert (Hf : is_fisheye_stream f = false) by (apply Hall; now left).
    cbn [filter existsb]. unfold stereo_ir in Hmode.
    unfold arrive, takes_rgb, is_depth_stream, is_fisheye_stream in *.
    destruct (stream_type f); try discriminate;
      destruct (isL500_ c), (ir_ c), (irDepth_ c); try discriminate;
      cbn [negb andb orb map rs2_stream_eqb rgb_frame depth_frame is_rgb_arrived
             is_depth_arrived];
      rewrite ?last_cons_default, ?orb_true_r, ?orb_true_l, ?orb_false_l;
      repeat split; reflexivity.
Qed.

(** X24. Outside that mode the order does not matter.  When the frame set
    holds one frame that counts as the image (a colour frame, or an infrared
    one on a D400), one depth frame and no fisheye frame, the record is made
    from these two, wherever they stand in the set and whatever else it
    holds. *)
Theorem X24_rgbd_pair_by_stream c fs f g :
  stereo_ir c = false ->
  (forall f', In f' (fs_frames fs) -> is_fisheye_stream f' = false) ->
  filter (takes_rgb c) (fs_frames fs) = [f] ->
  filter is_depth_stream (fs_frames fs) = [g] ->
  rgb_frame (arrivals c fs) = Some f /\ depth_frame (arrivals c fs) = Some g /\
  is_rgb_arrived (arrivals c fs) = true /\ is_depth_arrived (arrivals c fs) = true.
Proof.
  intros Hmode Hfish Hf Hg.
  destruct (arrive_rgbd c (fs_frames fs) Hmode Hfish (Arrived_init fs))
    as (I1 & I2 & I3 & I4).
  unfold arrivals. rewrite I1, I2, I3, I4, Hf, Hg. cbn [map last Arrived_init
    is_rgb_arrived is_depth_arrived orb].
  repeat split.
  - apply existsb_exists. exists f. rewrite <- (filter_In (takes_rgb c)), Hf. now left.
  - apply existsb_exists. exists g. rewrite <- (filter_In is_depth_stream), Hg. now left.
Qed.

End ArrivalFacts.

(** ** The pose *)

Section PoseFacts.
Context {Transform : Type} `{Externals Transform}.
Implicit Types (c : Camera Transform) (w : World Transform).

(** X25. The pose has no fallback.  With the pose buffer in key order and
    no callback arriving during the call, the pose block finds a pose
    exactly when the stamp is neither after the last nor before the first
    stamp of the pose buffer, whether [globalTimeSync_] is on or off, and it
    leaves the camera as it is. *)
Theorem X25_pose_available_iff stamp maxWaitTimeMs w :
  StdMap.ascending (poseBuffer_ (cam w)) = true -> sleeps w = [] ->
  (fst (interpolatePose stamp maxWaitTimeMs w) <> None <->
   in_range true (poseBuffer_ (cam w)) stamp) /\
  cam (snd (interpolatePose stamp maxWaitTimeMs w)) = cam w.
Proof.
  intros Hasc Hq. rewrite interpolatePose_unfold, wait_while_quiet by exact Hq.
  cbn [snd]. split; [|apply lookupPose_frame].
  destruct (poseBuffer_ (cam w)) as [|e0 m0] eqn:Ebuf.
  - split.
    + intros Hne. exfalso. apply Hne. unfold lookupPose, bind, get_cam. rewrite Ebuf.
      reflexivity.
    + intros (t0 & tn & E & _). discriminate.
  - assert (Hne : poseBuffer_ (cam w) <> []) by (rewrite Ebuf; discriminate).
    rewrite <- Ebuf in *. clear Ebuf e0 m0.
    destruct (rbegin_some _ Hne) as ([tn vn] & Hl & Hin).
    pose proof (latest_some _ _ Hl) as Hlat. cbn [fst] in Hlat.
    assert (Hlast : forall e, In e (poseBuffer_ (cam w)) -> fst e <= tn).
    { intros e He. apply (rbegin_largest _ e (tn, vn) Hasc He Hl). }
    destruct (buffer_cases _ stamp Hasc Hne)
      as [Hb|[(t0 & p0 & rest & E & Hle)
             |(pre & tA & [poseA confA] & tB & [poseB confB] & post & E & HA & HB)]].
    + destruct (lookupPose_behind stamp maxWaitTimeMs w Hb) as [Hr _]. rewrite Hr.
      split; [intros Hn; now elim Hn|]. intros (t0 & tn' & _ & Hl' & Hle & _).
      apply behind_latest in Hb. destruct Hb as (tn2 & E2 & Hlt).
      rewrite Hl' in E2. injection E2 as ->. lra.
    + assert (Htn : t0 <= tn).
      { specialize (Hlast (t0, p0)). rewrite E in Hlast.
        apply (Hlast (or_introl eq_refl)). }
      destruct (Qeq_dec stamp t0) as [Heq|Hneq].
      * rewrite (lookupPose_first stamp maxWaitTimeMs w t0 p0 rest E Hasc Heq).
        cbn [fst]. split; [|discriminate]. intros _. exists t0, tn.
        rewrite E at 1. rewrite earliest_cons. repeat split; try assumption; lra.
      * assert (Hlt : stamp < t0) by lra.
        rewrite (lookupPose_before stamp maxWaitTimeMs w t0 p0 rest E Hasc Hlt).
        split; [intros Hn; now elim Hn|]. intros (t0' & tn' & E0 & _ & _ & Hstrict).
        rewrite E, earliest_cons in E0. injection E0 as <-.
        specialize (Hstrict eq_refl). lra.
    + rewrite (lookupPose_between stamp maxWaitTimeMs w pre tA poseA confA tB poseB confB
                 post E Hasc HA HB).
      cbn [fst]. split; [|discriminate]. intros _.
      assert (HB' : tB <= tn).
      { apply (Hlast (tB, (poseB, confB))). rewrite E. apply in_or_app. right. right.
        now left. }
      destruct pre as [|[t0 v0] pre].
      * exists tA, tn. rewrite E at 1. cbn [app]. rewrite earliest_cons.
        repeat split; try assumption; lra.
      * exists t0, tn. rewrite E at 1. cbn [app]. rewrite earliest_cons.
        repeat split; try assumption; try lra. intros _.
        rewrite E in Hasc. cbn [app] in Hasc. apply ascending_cons in Hasc.
        destruct Hasc as [Hab _]. specialize (Hab (tA, (poseA, confA))). cbn [fst] in Hab.
        assert (t0 < tA) by (apply Hab, in_or_app; right; now left). lra.
Qed.

End PoseFacts.

(** ** [init]: the sensors *)

Section SensorFacts.
Import String.
Implicit Types (s : Modules.Sensors) (elem : Modules.sensor).

Lemma store_length {A} i (x : A) v v' :
  Modules.store i x v = Some v' -> List.length v' = List.length v.
Proof.
  unfold Modules.store. destruct (Nat.ltb_spec i (List.length v)) as [Hlt|]; [|discriminate].
  assert (Hl : List.length (firstn i v ++ Some x :: skipn (S i) v) = List.length v).
  { rewrite length_app, length_firstn.
    change (List.length (Some x :: skipn (S i) v)) with (S (List.length (skipn (S i) v))).
    rewrite length_skipn. lia. }
  intros E. assert (E' : firstn i v ++ Some x :: skipn (S i) v = v') by congruence.
  now rewrite <- E'.
Qed.

Lemma store_in_range {A} i (x : A) v :
  (i < List.length v)%nat -> exists v', Modules.store i x v = Some v'.
Proof.
  intros Hlt. unfold Modules.store. apply Nat.ltb_lt in Hlt. rewrite Hlt. eauto.
Qed.

Lemma resize_length {A} n (v : list (option A)) : List.length (Modules.resize n v) = n.
Proof.
  unfold Modules.resize. rewrite length_app, length_firstn, repeat_length. lia.
Qed.

(** A turn that does not make a lone T265 of the device keeps [stereo] off
    and [sensors] at two or three entries, and writes within it. *)
Lemma classify_in_range ir dual s elem :
  dual = true \/ Modules.is_tracking elem = false ->
  Modules.stereo s = false -> (2 <= List.length (Modules.sensors s) <= 3)%nat ->
  Modules.classify ir dual s elem <> Modules.OutOfRange /\
  forall s', Modules.classify ir dual s elem = Modules.Listed s' ->
             Modules.stereo s' = false /\ (2 <= List.length (Modules.sensors s') <= 3)%nat.
Proof.
  intros Hcase Hst Hlen.
  assert (Hstore : forall i l500 (v : list (option Modules.sensor)),
             (i < List.length v)%nat -> (2 <= List.length v <= 3)%nat ->
             Modules.with_sensors s (Modules.stereo s) l500 (Modules.store i elem v)
             <> Modules.OutOfRange /\
             forall s', Modules.with_sensors s (Modules.stereo s) l500 (Modules.store i elem v)
                        = Modules.Listed s' ->
                        Modules.stereo s' = false /\
                        (2 <= List.length (Modules.sensors s') <= 3)%nat).
  { intros i l500 v Hi Hv. destruct (store_in_range i elem v Hi) as (v' & E).
    rewrite E. cbn [Modules.with_sensors]. split; [discriminate|].
    intros s' Es. injection Es as <-. cbn [Modules.stereo Modules.sensors].
    split; [exact Hst|]. now rewrite (store_length _ _ _ _ E). }
  assert (Hkeep : Modules.Listed s <> Modules.OutOfRange /\
                  forall s', Modules.Listed s = Modules.Listed s' ->
                             Modules.stereo s' = false /\
                             (2 <= List.length (Modules.sensors s') <= 3)%nat).
  { split; [discriminate|]. intros s' E. injection E as <-. now split. }
  unfold Modules.classify.
  destruct (String.eqb "Stereo Module"%string (Modules.module_name elem)); [apply Hstore; lia|].
  destruct (String.eqb "Coded-Light Depth Sensor"%string (Modules.module_name elem));
    [exact Hkeep|].
  destruct (String.eqb "RGB Camera"%string (Modules.module_name elem)).
  { destruct (negb ir); [apply Hstore; lia|exact Hkeep]. }
  destruct (String.eqb "Wide FOV Camera"%string (Modules.module_name elem)); [exact Hkeep|].
  destruct (String.eqb "Motion Module"%string (Modules.module_name elem)).
  { destruct (negb dual); [|exact Hkeep]. apply Hstore; rewrite resize_length; lia. }
  unfold Modules.is_tracking in Hcase.
  destruct (String.eqb "Tracking Module"%string (Modules.module_name elem)).
  { destruct Hcase as [-> |Hcase]; [|discriminate].
    unfold Modules.store_back. cbv iota.
    apply Hstore; rewrite !resize_length; cbn [pred]; lia. }
  destruct (String.eqb "L500 Depth Sensor"%string (Modules.module_name elem));
    [apply Hstore; lia|].
  split; [discriminate|]. intros s' E. discriminate.
Qed.

(** X26. The writes to [sensors] stay within the vector.  In a dual setup,
    and for every device that lists no tracking module, the loop over the
    sensors never writes outside [sensors]; when it ends without the error
    for an unsupported module, [stereo] is off and [sensors] has two or three
    entries.  Only a tracking module outside a dual setup shrinks the vector
    to one entry. *)
Theorem X26_sensor_writes_in_range ir dual dev_sensors :
  dual = true \/ (forall elem, In elem dev_sensors -> Modules.is_tracking elem = false) ->
  Modules.classify_all ir dual Modules.Sensors_init dev_sensors <> Modules.OutOfRange /\
  forall s, Modules.classify_all ir dual Modules.Sensors_init dev_sensors = Modules.Listed s ->
            Modules.stereo s = false /\ (2 <= List.length (Modules.sensors s) <= 3)%nat.
Proof.
  intros Hcase.
  assert (Hinv : forall l s0,
             (dual = true \/ forall elem, In elem l -> Modules.is_tracking elem = false) ->
             Modules.stereo s0 = false -> (2 <= List.length (Modules.sensors s0) <= 3)%nat ->
             Modules.classify_all ir dual s0 l <> Modules.OutOfRange /\
             forall s, Modules.classify_all ir dual s0 l = Modules.Listed s ->
                       Modules.stereo s = false /\
                       (2 <= List.length (Modules.sensors s) <= 3)%nat).
  { induction l as [|elem l IH]; intros s0 Hc Hst Hlen; cbn [Modules.classify_all].
    - split; [discriminate|]. intros s E. injection E as <-. now split.
    - assert (Hc1 : dual = true \/ Modules.is_tracking elem = false).
      { destruct Hc as [Hc|Hc]; [now left|right; apply Hc; now left]. }
      assert (Hc2 : dual = true \/
                    forall elem', In elem' l -> Modules.is_tracking elem' = false).
      { destruct Hc as [Hc|Hc]; [now left|right; intros e He; apply Hc; now right]. }
      destruct (classify_in_range ir dual s0 elem Hc1 Hst Hlen) as [Hne Hnext].
      destruct (Modules.classify ir dual s0 elem) as [s1|name|].
      + destruct (Hnext s1 eq_refl) as [Hst1 Hlen1]. now apply IH.
      + split; [discriminate|]. intros s E. discriminate.
      + now elim Hne. }
  apply Hinv; [exact Hcase|reflexivity|cbn; lia].
Qed.

End SensorFacts.

(** ** Further instances on concrete inputs *)

Lemma X1_callback_drops_sample_witness :
  known_stamp Cases.duplicate_gyro (cam Sample.strict_world) = true /\
  cam (snd (multiple_message_callback Cases.duplicate_gyro Sample.strict_world))
  = cam Sample.strict_world.
Proof.
  assert (Hk : known_stamp Cases.duplicate_gyro (cam Sample.strict_world) = true)
    by reflexivity.
  split; [exact Hk|].
  apply (X1_callback_drops_sample Cases.duplicate_gyro Sample.strict_world); [|now left].
  split; [reflexivity|]. unfold within_capacity, capacity. simpl. lia.
Defined.

Lemma X2_session_keeps_buffers_witness :
  well_kept (Sample.camera Sample.gyro2 Sample.acc2 Sample.pose2 true false) /\
  well_kept (cam (run_session Cases.quiet_session
                    (start_session None
                       (Sample.camera Sample.gyro2 Sample.acc2 Sample.pose2 true false)))).
Proof.
  assert (H0 : well_kept (Sample.camera Sample.gyro2 Sample.acc2 Sample.pose2 true false)).
  { split; [reflexivity|]. unfold within_capacity, capacity. simpl. lia. }
  split; [exact H0|]. apply X2_session_keeps_buffers. exact H0.
Defined.

Lemma X3_stream_keeps_up_witness :
  reaches (imuBuffer RS2_STREAM_GYRO (cam Sample.strict_world)) 150 /\
  reaches (imuBuffer RS2_STREAM_GYRO (cam (run_session Cases.quiet_session Sample.strict_world)))
    150.
Proof.
  assert (H0 : reaches (imuBuffer RS2_STREAM_GYRO (cam Sample.strict_world)) 150)
    by (split; reflexivity).
  split; [exact H0|].
  apply (proj1 (X3_stream_keeps_up Cases.quiet_session Sample.strict_world 150)
           RS2_STREAM_GYRO H0).
Defined.

Lemma X4_callback_then_lookup_witness :
  known_stamp Cases.new_gyro (cam Sample.strict_world) = false /\
  (exists r,
      interpolateImu RS2_STREAM_GYRO 150 0
        (snd (multiple_message_callback Cases.new_gyro Sample.strict_world))
      = (Some r, snd (multiple_message_callback Cases.new_gyro Sample.strict_world))) /\
  forallb (Qltb 50) (stamps_of Cases.old_gyro (cam Sample.lenient_world)) = true /\
  interpolateImu RS2_STREAM_GYRO 50 0
    (snd (multiple_message_callback Cases.old_gyro Sample.lenient_world))
  = (Some (0, 0, 7), snd (multiple_message_callback Cases.old_gyro Sample.lenient_world)).
Proof.
  assert (Hn : known_stamp Cases.new_gyro (cam Sample.strict_world) = false) by reflexivity.
  assert (Hroom : forall f (w : World Sample.Pose7),
             stamps_of f (cam w) = [100; 200] ->
             (length (stamps_of f (cam w)) < capacity)%nat \/
             existsb (fun t => Qltb t (get_timestamp f)) (stamps_of f (cam w)) = true).
  { intros f w E. left. rewrite E. unfold capacity. simpl. lia. }
  assert (Hall : forallb (Qltb 50) (stamps_of Cases.old_gyro (cam Sample.lenient_world))
                 = true) by reflexivity.
  split; [exact Hn|]. split; [|split; [exact Hall|]].
  - apply (X4_callback_then_lookup Cases.new_gyro 0%Z Sample.strict_world);
      [reflexivity|reflexivity|exact Hn|apply Hroom; reflexivity].
  - apply (X4_callback_then_lookup Cases.old_gyro 0%Z Sample.lenient_world);
      [reflexivity|reflexivity|reflexivity|apply Hroom; reflexivity|exact Hall].
Defined.

Lemma X5_imu_available_iff_witness :
  in_range true (accBuffer_ (cam Sample.strict_world)) 150 /\
  in_range true (gyroBuffer_ (cam Sample.strict_world)) 150 /\
  snd (fst (getPoseAndIMU 150 0 Sample.strict_world)) <> None.
Proof.
  assert (Ha : in_range true (accBuffer_ (cam Sample.strict_world)) 150).
  { exists 100, 200. repeat split; try reflexivity; intros; lra. }
  assert (Hg : in_range true (gyroBuffer_ (cam Sample.strict_world)) 150).
  { exists 100, 200. repeat split; try reflexivity; intros; lra. }
  split; [exact Ha|]. split; [exact Hg|].
  apply (proj2 (X5_imu_available_iff 150 0%Z Sample.strict_world eq_refl eq_refl)).
  split; [exact Ha|exact Hg].
Defined.

Lemma X6_lookup_never_extrapolates_witness :
  StdMap.ascending
    (imuBuffer RS2_STREAM_GYRO
       (cam (snd (interpolateImu RS2_STREAM_GYRO 150 0 Sample.strict_world)))) = true /\
  exists r,
    fst (interpolateImu RS2_STREAM_GYRO 150 0 Sample.strict_world) = Some r /\
    ((exists t,
         In (t, r)
           (imuBuffer RS2_STREAM_GYRO
              (cam (snd (interpolateImu RS2_STREAM_GYRO 150 0 Sample.strict_world)))) /\
         (150 == t \/
          globalTimeSync_
            (cam (snd (interpolateImu RS2_STREAM_GYRO 150 0 Sample.strict_world))) = false /\
          latest
            (imuBuffer RS2_STREAM_GYRO
               (cam (snd (interpolateImu RS2_STREAM_GYRO 150 0 Sample.strict_world))))
          = Some t)) \/
     (exists pre tA vA tB vB post,
         imuBuffer RS2_STREAM_GYRO
           (cam (snd (interpolateImu RS2_STREAM_GYRO 150 0 Sample.strict_world)))
         = pre ++ (tA, vA) :: (tB, vB) :: post /\
         tA < 150 /\ 150 <= tB /\
         0 <= (150 - tA) / (tB - tA) <= 1 /\
         r = lerp ((150 - tA) / (tB - tA)) vA vB)).
Proof.
  split; [reflexivity|]. eexists. split; [reflexivity|].
  apply (X6_lookup_never_extrapolates RS2_STREAM_GYRO 150 0%Z Sample.strict_world);
    reflexivity.
Defined.

Lemma X8_imu_needs_both_streams_witness :
  behind (accBuffer_ (cam (snd (getPoseAndIMU 250 5 Sample.strict_world_late)))) 250 = true /\
  gyroBuffer_ (cam (snd (getPoseAndIMU 250 5 Sample.strict_world_late)))
  <> gyroBuffer_ (cam Sample.strict_world_late) /\
  snd (fst (getPoseAndIMU 250 5 Sample.strict_world_late)) = None.
Proof.
  assert (Hb : behind (accBuffer_ (cam (snd (getPoseAndIMU 250 5 Sample.strict_world_late))))
                 250 = true) by (vm_compute; reflexivity).
  split; [exact Hb|]. split; [vm_compute; discriminate|].
  apply (X8_imu_needs_both_streams 250 5%Z Sample.strict_world_late). left. exact Hb.
Defined.

Lemma X9_no_pose_without_odometry_witness :
  odometryProvided_ (cam (run_session Cases.quiet_session (Sample.world Camera_new []))) = false /\
  poseBuffer_ (cam (run_session Cases.quiet_session (Sample.world Camera_new []))) = [] /\
  fst (fst (getPoseAndIMU 150 0 (run_session Cases.quiet_session (Sample.world Camera_new []))))
  = (None, 0%nat).
Proof.
  apply (X9_no_pose_without_odometry Cases.quiet_session (Sample.world Camera_new []) 150 0%Z);
    reflexivity.
Defined.

Lemma X10_dual_mode_has_odometry_witness :
  dualMode_ (cam (run_session Cases.dual_session
                    (start_session None (Camera_new (Transform := Sample.Pose7))))) = true /\
  odometryProvided_ (cam (run_session Cases.dual_session
                            (start_session None (Camera_new (Transform := Sample.Pose7)))))
  = true.
Proof.
  assert (Hd : dualMode_ (cam (run_session Cases.dual_session
                                 (start_session None (Camera_new (Transform := Sample.Pose7)))))
               = true) by (vm_compute; reflexivity).
  split; [exact Hd|].
  apply (X10_dual_mode_has_odometry None Cases.dual_session
           (Camera_new (Transform := Sample.Pose7))); [|exact Hd].
  unfold dual_has_odometry. cbn. discriminate.
Defined.

Lemma X12_imu_in_record_or_events_witness :
  publishInterIMU_ (cam (Cases.inter_world 50)) = true /\
  sd_imu (fst (captureImage (Sample.got Sample.frameset2) [] 1 (Cases.inter_world 50))) = None /\
  publishInterIMU_ (cam Sample.strict_world) = false /\
  events (snd (captureImage (Sample.got Sample.frameset2) [] 1 Sample.strict_world))
  = events Sample.strict_world.
Proof.
  split; [reflexivity|]. split.
  - apply (proj1 (X12_imu_in_record_or_events (Sample.got Sample.frameset2) [] 1
                    (Cases.inter_world 50))). reflexivity.
  - split; [reflexivity|].
    apply (proj2 (X12_imu_in_record_or_events (Sample.got Sample.frameset2) [] 1
                    Sample.strict_world)). reflexivity.
Defined.

Lemma X13_stale_stamp_keeps_record_witness :
  (1 # 2) * 1000 <= lastImuStamp_ (cam (Cases.inter_world 600)) /\
  fst (fuse (arrivals (cam (Cases.inter_world 600)) Sample.frameset2) (1 # 2)
         (Cases.inter_world 600))
  = fst (assemble (arrivals (cam (Cases.inter_world 600)) Sample.frameset2) (1 # 2)
           (Cases.inter_world 600)) /\
  lastImuStamp_ (cam (snd (fuse (arrivals (cam (Cases.inter_world 600)) Sample.frameset2)
                             (1 # 2) (Cases.inter_world 600))))
  = lastImuStamp_ (cam (Cases.inter_world 600)) /\
  events (snd (fuse (arrivals (cam (Cases.inter_world 600)) Sample.frameset2) (1 # 2)
                 (Cases.inter_world 600)))
  = events (Cases.inter_world 600) /\
  exists msgs,
    log (snd (fuse (arrivals (cam (Cases.inter_world 600)) Sample.frameset2) (1 # 2)
                (Cases.inter_world 600)))
    = msgs ++ [ErrFrameCallback].
Proof.
  assert (Hs : (1 # 2) * 1000 <= lastImuStamp_ (cam (Cases.inter_world 600)))
    by (vm_compute; discriminate).
  split; [exact Hs|].
  apply (X13_stale_stamp_keeps_record
           (arrivals (cam (Cases.inter_world 600)) Sample.frameset2) (1 # 2)
           (Cases.inter_world 600));
    [reflexivity|discriminate|reflexivity|exact Hs].
Defined.


Lemma X15_inter_imu_events_in_order_witness :
  StdMap.ascending (gyroBuffer_ (cam (Cases.inter_world 50))) = true /\
  exists evs,
    events (snd (publish_inter_imu 150 (Cases.inter_world 50)))
    = events (Cases.inter_world 50) ++ evs /\
    increasing (map ev_stamp evs) /\
    forall e, In e evs ->
              exists k, In k (map fst (gyroBuffer_ (cam (Cases.inter_world 50)))) /\
                        lastImuStamp_ (cam (Cases.inter_world 50)) < k /\
                        ev_stamp e = k / 1000.
Proof.
  split; [reflexivity|].
  apply (X15_inter_imu_events_in_order 150 (Cases.inter_world 50)). reflexivity.
Defined.

Lemma X17_failed_selection_keeps_nothing_witness :
  snd (Setup.init_devices true String.EmptyString [Cases.t265; Cases.t265b]) <> None /\
  fst (Setup.init_devices true String.EmptyString [Cases.t265; Cases.t265b]) = (None, None) /\
  Setup.getSerial (fst (Setup.init_devices true String.EmptyString [Cases.t265; Cases.t265b]))
  = Setup.NA.
Proof.
  assert (Hf : snd (Setup.init_devices true String.EmptyString [Cases.t265; Cases.t265b])
               <> None) by (vm_compute; discriminate).
  split; [exact Hf|].
  apply (X17_failed_selection_keeps_nothing true String.EmptyString
           [Cases.t265; Cases.t265b] Hf).
Defined.

Lemma X18_selected_devices_witness :
  Setup.init_devices true String.EmptyString [Cases.t265; Cases.d435; Cases.t265b]
  = ((Some Cases.d435, Some Cases.t265b), None) /\
  find (Setup.wanted true String.EmptyString) [Cases.t265; Cases.d435; Cases.t265b]
  = Some Cases.d435 /\
  find Setup.is_T265 (rev [Cases.t265; Cases.d435; Cases.t265b]) = Some Cases.t265b.
Proof.
  assert (E : Setup.init_devices true String.EmptyString
                [Cases.t265; Cases.d435; Cases.t265b]
              = ((Some Cases.d435, Some Cases.t265b), None)) by reflexivity.
  split; [exact E|].
  destruct (X18_selected_devices true String.EmptyString
              [Cases.t265; Cases.d435; Cases.t265b] _ E)
    as [(d & Hd & Hfind & _) (t & Ht & Hlast)].
  cbn [fst snd] in Hd, Ht. injection Hd as <-. injection Ht as <-.
  split; [exact Hfind|exact Hlast].
Defined.

Lemma X19_motion_profile_rates_witness :
  exists sel,
    Setup.select_profiles (Cases.settings false true false false) 2 0
      (Setup.Selection_init None None)
      [Cases.gyro200; Cases.gyro400; Cases.accel63; Cases.accel250] = (sel, false) /\
    (exists q, filter (Setup.of_stream RS2_STREAM_ACCEL) (Setup.profiles sel) = [q] /\
               (63 <= Setup.fps q)%Z /\ (250 <= Setup.fps q)%Z) /\
    (exists q, filter (Setup.of_stream RS2_STREAM_GYRO) (Setup.profiles sel) = [q] /\
               (Setup.fps q <= 200)%Z /\ (Setup.fps q <= 400)%Z).
Proof.
  destruct (X19_motion_profile_rates (Cases.settings false true false false) 2 None None
              [Cases.gyro200; Cases.gyro400; Cases.accel63; Cases.accel250])
    as (sel & E & Hacc & Hgyro).
  - reflexivity.
  - intros p [<-|[<-|[<-|[<-|[]]]]]; split; reflexivity.
  - exists sel. split; [exact E|]. split.
    + destruct (Hacc Cases.accel63) as (q & Eq & _ & H63);
        [right; right; now left|reflexivity|].
      destruct (Hacc Cases.accel250) as (q' & Eq' & _ & H250);
        [right; right; right; now left|reflexivity|].
      rewrite Eq in Eq'. injection Eq' as <-. exists q. repeat split; assumption.
    + destruct (Hgyro Cases.gyro200) as (q & Eq & _ & H200); [now left|reflexivity|].
      destruct (Hgyro Cases.gyro400) as (q' & Eq' & _ & H400);
        [right; now left|reflexivity|].
      rewrite Eq in Eq'. injection Eq' as <-. exists q. repeat split; assumption.
Defined.

Lemma X20_infrared_pair_in_order_witness :
  filter (Setup.taken (Cases.settings true false false false))
    [Cases.ir_right_fast; Cases.ir_right; Cases.depth640; Cases.ir_left]
  = [Cases.ir_right; Cases.ir_left] /\
  Setup.select_profiles (Cases.settings true false false false) 1 0
    (Setup.Selection_init None None)
    [Cases.ir_right_fast; Cases.ir_right; Cases.depth640; Cases.ir_left]
  = ({| Setup.profiles := [Cases.ir_left; Cases.ir_right];
        Setup.rgbStreamProfile := Some Cases.ir_left;
        Setup.depthStreamProfile := Some Cases.ir_right; Setup.added := true |}, false).
Proof.
  assert (Hf : filter (Setup.taken (Cases.settings true false false false))
                 [Cases.ir_right_fast; Cases.ir_right; Cases.depth640; Cases.ir_left]
               = [Cases.ir_right; Cases.ir_left]) by reflexivity.
  split; [exact Hf|].
  apply (X20_infrared_pair_in_order (Cases.settings true false false false) 1 None None
           [Cases.ir_right_fast; Cases.ir_right; Cases.depth640; Cases.ir_left]
           Cases.ir_right Cases.ir_left [] Cases.ir_left Cases.ir_right);
    try reflexivity.
  - intros p [<-|[<-|[<-|[<-|[]]]]]; reflexivity.
  - right. split; reflexivity.
Defined.

Lemma X21_tracking_profiles_in_listing_order_witness :
  exists sel,
    Setup.select_profiles (Cases.settings false true false true) 0 0
      (Setup.Selection_init None None)
      [Cases.fisheye1; Cases.fisheye2; Cases.gyro_t265; Cases.accel_t265; Cases.pose_t265]
    = (sel, false) /\
    Setup.profiles sel
    = [Cases.fisheye1; Cases.fisheye2; Cases.gyro_t265; Cases.accel_t265; Cases.pose_t265] /\
    Setup.rgbStreamProfile sel = Some Cases.fisheye1.
Proof.
  destruct (X21_tracking_profiles_in_listing_order (Cases.settings false true false true)
              0 None None
              [Cases.fisheye1; Cases.fisheye2; Cases.gyro_t265; Cases.accel_t265;
               Cases.pose_t265])
    as (sel & E & Hp & Hr); [reflexivity|reflexivity|lia|].
  exists sel. split; [exact E|]. split; [exact Hp|exact Hr].
Defined.

Lemma X23_stereo_pair_by_order_witness :
  stereo_ir Cases.stereo_camera = true /\
  depth_frame (arrivals Cases.stereo_camera Cases.infrared_frameset)
  = Some (video_frame RS2_STREAM_INFRARED 500 1) /\
  rgb_frame (arrivals Cases.stereo_camera Cases.infrared_frameset)
  = Some (video_frame RS2_STREAM_INFRARED 500 2).
Proof.
  assert (Hm : stereo_ir Cases.stereo_camera = true) by reflexivity.
  split; [exact Hm|].
  destruct (X23_stereo_pair_by_order Cases.stereo_camera Cases.infrared_frameset
              (video_frame RS2_STREAM_INFRARED 500 1)
              [video_frame RS2_STREAM_INFRARED 500 2] Hm eq_refl)
    as (Hd & Hr & _).
  - discriminate.
  - intros f [<-|[<-|[]]]; reflexivity.
  - split; [exact Hd|exact Hr].
Defined.

Lemma X24_rgbd_pair_by_stream_witness :
  stereo_ir (cam Sample.strict_world) = false /\
  rgb_frame (arrivals (cam Sample.strict_world) Cases.depth_first_frameset)
  = rgb_frame (arrivals (cam Sample.strict_world) Sample.frameset2) /\
  depth_frame (arrivals (cam Sample.strict_world) Cases.depth_first_frameset)
  = depth_frame (arrivals (cam Sample.strict_world) Sample.frameset2).
Proof.
  assert (Hm : stereo_ir (cam Sample.strict_world) = false) by reflexivity.
  split; [exact Hm|].
  destruct (X24_rgbd_pair_by_stream (cam Sample.strict_world) Cases.depth_first_frameset
              (video_frame RS2_STREAM_COLOR 500 1) (video_frame RS2_STREAM_DEPTH 503 2) Hm)
    as (R1 & D1 & _); try reflexivity.
  { intros f [<-|[<-|[]]]; reflexivity. }
  destruct (X24_rgbd_pair_by_stream (cam Sample.strict_world) Sample.frameset2
              (video_frame RS2_STREAM_COLOR 500 1) (video_frame RS2_STREAM_DEPTH 503 2) Hm)
    as (R2 & D2 & _); try reflexivity.
  { intros f [<-|[<-|[]]]; reflexivity. }
  split; congruence.
Defined.

Lemma X25_pose_available_iff_witness :
  in_range true (poseBuffer_ (cam Sample.lenient_world)) 150 /\
  fst (interpolatePose 150 0 Sample.lenient_world) <> None /\
  cam (snd (interpolatePose 150 0 Sample.lenient_world)) = cam Sample.lenient_world.
Proof.
  assert (Hr : in_range true (poseBuffer_ (cam Sample.lenient_world)) 150).
  { exists 100, 200. repeat split; try reflexivity; intros; lra. }
  split; [exact Hr|].
  destruct (X25_pose_available_iff 150 0%Z Sample.lenient_world eq_refl eq_refl)
    as [Hiff Hcam].
  split; [apply (proj2 Hiff Hr)|exact Hcam].
Defined.

Lemma X26_sensor_writes_in_range_witness :
  Modules.classify_all false true Modules.Sensors_init Modules.dual_listing
  <> Modules.OutOfRange /\
  (exists s, Modules.classify_all false true Modules.Sensors_init Modules.dual_listing
             = Modules.Listed s /\
             Modules.stereo s = false /\ (2 <= length (Modules.sensors s) <= 3)%nat) /\
  Modules.classify_all false false Modules.Sensors_init Modules.odd_listing
  = Modules.OutOfRange.
Proof.
  destruct (X26_sensor_writes_in_range false true Modules.dual_listing (or_introl eq_refl))
    as [Hne Hlisted].
  split; [exact Hne|]. split; [|reflexivity].
  eexists. split; [reflexivity|]. apply Hlisted. reflexivity.
Defined.
